(** * RaftCore bus-device pipeline: address hysteresis, offline ring buffers

    A shallow embedding of
      - [BusAddrStatus::handleResponding]        (BusAddrStatus.cpp)
      - [OfflineDataStore]                       (OfflineDataStore.h)
      - [OfflineDataStoreNVS]                    (OfflineDataStoreNVS.cpp)
      - [DeviceStatus::storePollResults]         (DeviceStatus.cpp)
    Fixed-width C++ integers are carried as [Z] and every operation that
    can leave the range of its C++ type has the wrap-around written out.
    Byte vectors are [list byte].  The FreeRTOS mutex taken with
    [portMAX_DELAY] always succeeds once it returns, so the model runs each
    member function atomically. *)

From Stdlib Require Import ZArith Lia List Bool.
From Stdlib Require Import Strings.Byte.
From stdpp Require Import base list gmap strings.

Local Open Scope Z_scope.

(** ** Machine integers *)

Module Cpp.

(** Value of an unsigned [w]-bit C++ integer holding the mathematical [x]. *)
Definition wrap (w x : Z) : Z := x mod 2 ^ w.

Definition u8 (x : Z) : Z := wrap 8 x.
Definition u16 (x : Z) : Z := wrap 16 x.
Definition u32 (x : Z) : Z := wrap 32 x.
Definition u64 (x : Z) : Z := wrap 64 x.

Definition UINT32_MAX : Z := 4294967295.

(** Narrowing an [int] to [int8_t] (two's complement, modular). *)
Definition to_int8 (x : Z) : Z := (x + 128) mod 256 - 128.

(** Unary minus on a [uint32_t]: the result is again a [uint32_t]. *)
Definition neg_u32 (x : Z) : Z := u32 (- x).

(** A [uint8_t] element of a vector as a number. *)
Definition byte_val (b : byte) : Z := Z.of_N (Byte.to_N b).

(** The low eight bits of [x] as a [uint8_t]. *)
Definition byte_of_Z (x : Z) : byte :=
  match Byte.of_N (Z.to_N (u8 x)) with
  | Some b => b
  | None => x00
  end.

(** [memcpy (buf.data() + off, src, |src|)].  Writing past the end of the
    vector is undefined in C++; here the copy is clipped to the buffer, and
    the statements about contents assume the write is in range. *)
Definition memcpy_at (buf : list byte) (off : Z) (src : list byte) : list byte :=
  let o := Z.to_nat off in
  take (length buf) (take o buf ++ src ++ drop (o + length src)%nat buf).

(** The [len] bytes of [buf] starting at [off]. *)
Definition slice (buf : list byte) (off len : Z) : list byte :=
  take (Z.to_nat len) (drop (Z.to_nat off) buf).

(** Modelled from the spec: [Raft::getBEUInt16AndInc] and
    [Raft::getBEUInt32AndInc] of RaftUtils.h, which is not among the
    sources.  Spec section 3: "The first timestampBytes of payload,
    big-endian, is a device-origin timestamp".  A buffer shorter than the
    field reads as 0. *)
Definition getBEUInt16 (p : list byte) : Z :=
  match p with
  | b0 :: b1 :: _ => byte_val b0 * 256 + byte_val b1
  | _ => 0
  end.

Definition getBEUInt32 (p : list byte) : Z :=
  match p with
  | b0 :: b1 :: b2 :: b3 :: _ =>
      ((byte_val b0 * 256 + byte_val b1) * 256 + byte_val b2) * 256 + byte_val b3
  | _ => 0
  end.

(** Modelled from the spec: [Raft::setLEUInt32] and [Raft::getLEUInt32AndInc]
    of RaftUtils.h (spec section 6: "adjustedTsMs (little-endian u32)"). *)
Definition setLEUInt32 (v : Z) : list byte :=
  [byte_of_Z v; byte_of_Z (v / 256); byte_of_Z (v / 65536); byte_of_Z (v / 16777216)].

Definition getLEUInt32 (p : list byte) : Z :=
  match p with
  | b0 :: b1 :: b2 :: b3 :: _ =>
      byte_val b0 + 256 * (byte_val b1 + 256 * (byte_val b2 + 256 * byte_val b3))
  | _ => 0
  end.

End Cpp.

Import Cpp.

(** ** BusAddrStatus (BusAddrStatus.h, BusAddrStatus.cpp) *)

Module BusAddrStatus.

Inductive DeviceOnlineState := INITIAL | ONLINE | OFFLINE.

(** The scalar members of [class BusAddrStatus].  [deviceStatus] and the
    data-change callback are not read or written by [handleResponding] and
    are left out. *)
Record t := mk {
  address : Z;                     (* BusElemAddrType *)
  count : Z;                       (* int8_t *)
  isChange : bool;
  isOnline : bool;
  wasOnceOnline : bool;
  slotResolved : bool;
  isNewlyIdentified : bool;
  flagForDeletion : bool;
  onlineState : DeviceOnlineState;
  barStartMs : Z;                  (* uint32_t *)
  barDurationMs : Z;               (* uint16_t *)
  minTimeBetweenReportsMs : Z;     (* uint32_t *)
  lastDataChangeReportTimeMs : Z   (* uint32_t *)
}.

Definition ADDR_RESP_COUNT_FAIL_MAX_DEFAULT : Z := 3.
Definition ADDR_RESP_COUNT_OK_MAX_DEFAULT : Z := 2.

(** [BusAddrStatus() = default] with the member initialisers. *)
Definition default : t :=
  mk 0 0 false false false false false false INITIAL 0 0 0 0.

(** [BusAddrStatus(address, onlineState, isChange, isNewlyIdentified)]. *)
Definition make (addr : Z) (st : DeviceOnlineState) (chg newly : bool) : t :=
  let on := match st with ONLINE => true | _ => false end in
  mk addr 0 chg on on false newly false st 0 0 0 0.

Definition set_count (s : t) (c : Z) : t :=
  mk (address s) c (isChange s) (isOnline s) (wasOnceOnline s) (slotResolved s)
     (isNewlyIdentified s) (flagForDeletion s) (onlineState s) (barStartMs s)
     (barDurationMs s) (minTimeBetweenReportsMs s) (lastDataChangeReportTimeMs s).

(** The state written by the "Now online" block. *)
Definition now_online (s : t) : t :=
  mk (address s) 0 (negb (isChange s)) true true (slotResolved s)
     (isNewlyIdentified s) false ONLINE (barStartMs s)
     (barDurationMs s) (minTimeBetweenReportsMs s) (lastDataChangeReportTimeMs s).

(** The state written by the "Now offline/spurious" block; [isChange] is
    toggled only on the non-spurious path. *)
Definition now_offline (s : t) (spurious : bool) : t :=
  mk (address s) 0 (if spurious then isChange s else negb (isChange s))
     false (wasOnceOnline s) (slotResolved s)
     (isNewlyIdentified s) true OFFLINE (barStartMs s)
     (barDurationMs s) (minTimeBetweenReportsMs s) (lastDataChangeReportTimeMs s).

(** [bool handleResponding(bool isResponding, bool &flagSpuriousRecord,
                           uint32_t okMax, uint32_t failMax)].
    Returns (return value, flagSpuriousRecord after the call, object after
    the call).

    [count] is an [int8_t] and [okMax], [failMax] are [uint32_t].  In every
    comparison [count] is promoted to [int] and then converted to
    [uint32_t] (usual arithmetic conversions), which is [u32 (count s)];
    [-failMax] is the unsigned negation [neg_u32 failMax].  [count + 1]
    and [count - 1] are computed in [int] and narrowed back to [int8_t]
    by the assignment. *)
Definition handleResponding (s : t) (isResponding flagSpuriousRecord : bool)
    (okMax failMax : Z) : bool * bool * t :=
  if isResponding then
    if negb (isOnline s) then
      let c := if u32 (count s) <? okMax then to_int8 (count s + 1) else count s in
      if okMax <=? u32 c then
        (true, flagSpuriousRecord, now_online s)
      else
        (false, flagSpuriousRecord, set_count s c)
    else
      (false, flagSpuriousRecord, s)
  else
    if isOnline s || negb (wasOnceOnline s) || flagForDeletion s then
      let c := if u32 (count s) <? neg_u32 failMax then count s
               else to_int8 (count s - 1) in
      if u32 c <=? neg_u32 failMax then
        let spurious := negb (wasOnceOnline s) || flagForDeletion s in
        (true, if spurious then true else flagSpuriousRecord, now_offline s spurious)
      else
        (false, flagSpuriousRecord, set_count s c)
    else
      (false, flagSpuriousRecord, s).

(** [n] successive calls with the same arguments, as the bus scanner makes
    them; the list holds the return values in call order. *)
Fixpoint observeN (n : nat) (s : t) (isResponding : bool) (okMax failMax : Z)
    : list (bool * bool) * t :=
  match n with
  | O => ([], s)
  | S n' =>
      let '(changed, spurious, s1) := handleResponding s isResponding false okMax failMax in
      let '(rest, s2) := observeN n' s1 isResponding okMax failMax in
      ((changed, spurious) :: rest, s2)
  end.

(** [void registerForDataChange(dataChangeCB, minTimeBetweenReportsMs,
    pCallbackInfo)]; of the members kept here it writes
    [minTimeBetweenReportsMs] only. *)
Definition registerForDataChange (s : t) (minTime : Z) : t :=
  mk (address s) (count s) (isChange s) (isOnline s) (wasOnceOnline s) (slotResolved s)
     (isNewlyIdentified s) (flagForDeletion s) (onlineState s) (barStartMs s)
     (barDurationMs s) minTime (lastDataChangeReportTimeMs s).

(** States of an address record: constructed by either constructor, then
    any sequence of member calls; [okArgs] restricts the thresholds the
    [handleResponding] calls are made with. *)
Inductive reachable (okArgs : Z -> Z -> Prop) : t -> Prop :=
| reach_default : reachable okArgs default
| reach_make addr st chg newly : reachable okArgs (make addr st chg newly)
| reach_registerForDataChange s minTime :
    reachable okArgs s -> reachable okArgs (registerForDataChange s minTime)
| reach_handleResponding s isResponding flagSpuriousRecord okMax failMax :
    reachable okArgs s -> okArgs okMax failMax ->
    reachable okArgs
      (snd (handleResponding s isResponding flagSpuriousRecord okMax failMax)).

Definition anyThresholds : Z -> Z -> Prop := fun _ _ => True.

(** Thresholds for which [count], an [int8_t], never leaves [0, 127]. *)
Definition smallThresholds : Z -> Z -> Prop :=
  fun okMax failMax => 0 <= okMax <= 128 /\ 1 <= failMax <= 2 ^ 32 - 128.

End BusAddrStatus.
(** ** OfflineDataStore (OfflineDataStore.h) *)

Module OfflineDataStore.

Record OfflineDataMeta := mkMeta {
  seq : Z;        (* uint32_t *)
  ts : Z;         (* uint32_t *)
  tsBaseMs : Z    (* uint64_t *)
}.

Record OfflineDataStats := mkStats {
  depth : Z;
  drops : Z;
  maxEntries : Z;
  payloadSize : Z;
  metaSize : Z;
  tsWrapCount : Z;
  firstSeq : Z;
  timestampBytes : Z;
  timestampResolutionUs : Z;
  oldestCaptureMs : Z       (* uint64_t *)
}.

Definition META_STORAGE_BYTES : Z := 4.

(** The private members of [class OfflineDataStore], with their names. *)
Record t := mk {
  _ringBuffer : list byte;          (* std::vector<uint8_t> *)
  _adjTimestampMs : list Z;         (* std::vector<uint32_t> *)
  _headIdx : Z;                     (* uint32_t *)
  _count : Z;                       (* uint32_t *)
  _maxEntries : Z;                  (* uint32_t *)
  _payloadSize : Z;                 (* uint32_t *)
  _timestampBytes : Z;              (* uint32_t *)
  _timestampResolutionUs : Z;       (* uint32_t *)
  _timestampWrapMs : Z;             (* uint64_t *)
  _timestampBaseMs : Z;             (* uint64_t *)
  _lastTimestampVal : Z;            (* uint16_t *)
  _lastTimestampValid : bool;
  _drops : Z;                       (* uint32_t *)
  _tsWrapCount : Z;                 (* uint32_t *)
  _nextSeq : Z                      (* uint32_t *)
}.

(** A default-constructed store. *)
Definition default : t := mk [] [] 0 0 0 0 0 0 0 0 0 false 0 0 0.

(** [void init(maxEntries, payloadSize, timestampBytes, timestampResolutionUs)].
    The byte count [_maxEntries * _payloadSize] is a [uint32_t] product.  A
    shift count of 64 or more is undefined in C++; the model takes the
    mathematical power reduced to 64 bits. *)
Definition init (s : t) (maxEntries payloadSize timestampBytes timestampResolutionUs : Z) : t :=
  mk (replicate (Z.to_nat (u32 (maxEntries * payloadSize))) x00)
     (replicate (Z.to_nat maxEntries) 0)
     0 0 maxEntries payloadSize timestampBytes timestampResolutionUs
     (u64 (2 ^ u32 (timestampBytes * 8) * (timestampResolutionUs / 1000)))
     0 0 false 0 0 0.

(** [void clear()]. *)
Definition clear (s : t) : t :=
  mk (_ringBuffer s) (_adjTimestampMs s) 0 0 (_maxEntries s) (_payloadSize s)
     (_timestampBytes s) (_timestampResolutionUs s) (_timestampWrapMs s)
     0 0 false 0 0 0.

Definition isConfigured (s : t) : bool :=
  (0 <? _maxEntries s) && (0 <? _payloadSize s).

(** The timestamp extraction shared by [put] (into a [uint16_t]) and [get]
    (into [meta.ts]): one byte, two bytes big-endian, or four bytes
    big-endian cast to [uint16_t]; any other width leaves 0. *)
Definition tsField (timestampBytes : Z) (data : list byte) : Z :=
  if timestampBytes =? 1 then
    match data with b :: _ => byte_val b | [] => 0 end
  else if timestampBytes =? 2 then getBEUInt16 data
  else if timestampBytes =? 4 then u16 (getBEUInt32 data)
  else 0.

(** [_timestampBaseMs] as [put] leaves it: initialised on the first put,
    advanced by [_timestampWrapMs] when the raw value went backwards. *)
Definition put_timestampBaseMs (s : t) (timeNowUs : Z) (data : list byte) : Z :=
  let tsVal := tsField (_timestampBytes s) data in
  let timeNowMs := timeNowUs / 1000 in
  let tsResolutionMs := _timestampResolutionUs s / 1000 in
  let base :=
    if negb (_lastTimestampValid s) then
      if (0 <? tsResolutionMs) && (tsVal * tsResolutionMs <? timeNowMs)
      then timeNowMs - tsVal * tsResolutionMs else 0
    else _timestampBaseMs s in
  if _lastTimestampValid s && (tsVal <? _lastTimestampVal s)
  then u64 (base + _timestampWrapMs s) else base.

Definition put_tsWrapCount (s : t) (data : list byte) : Z :=
  if _lastTimestampValid s && (tsField (_timestampBytes s) data <? _lastTimestampVal s)
  then u32 (_tsWrapCount s + 1) else _tsWrapCount s.

(** The local [uint64_t adjustedTsMs] of [put], before it is narrowed to
    the [uint32_t] slot. *)
Definition put_adjustedTsMs (s : t) (timeNowUs : Z) (data : list byte) : Z :=
  u64 (put_timestampBaseMs s timeNowUs data
       + tsField (_timestampBytes s) data * (_timestampResolutionUs s / 1000)).

(** [bool put(uint64_t timeNowUs, uint32_t seq, const std::vector<uint8_t>& data)]. *)
Definition put (s : t) (timeNowUs seq : Z) (data : list byte) : bool * t :=
  if negb (isConfigured s) || negb (Z.of_nat (length data) =? _payloadSize s) then
    (false, s)
  else
    let tsVal := tsField (_timestampBytes s) data in
    let writeIdx := u32 (_headIdx s * _payloadSize s) in
    let full := negb (_count s <? _maxEntries s) in
    (true,
     mk (memcpy_at (_ringBuffer s) writeIdx data)
        (<[Z.to_nat (_headIdx s) := u32 (put_adjustedTsMs s timeNowUs data)]>
           (_adjTimestampMs s))
        (u32 (_headIdx s + 1) mod _maxEntries s)
        (if full then _count s else u32 (_count s + 1))
        (_maxEntries s) (_payloadSize s) (_timestampBytes s)
        (_timestampResolutionUs s) (_timestampWrapMs s)
        (put_timestampBaseMs s timeNowUs data)
        tsVal true
        (if full then u32 (_drops s + 1) else _drops s)
        (put_tsWrapCount s data)
        (u32 (seq + 1))).

(** What [get] hands back: the return value, the three out-parameters and
    the store after the call. *)
Record GetResult := mkGet {
  get_ret : Z;
  get_data : list byte;
  get_responseSize : Z;
  get_metas : list OfflineDataMeta;
  get_store : t
}.

Definition set_count (s : t) (c : Z) : t :=
  mk (_ringBuffer s) (_adjTimestampMs s) (_headIdx s) c (_maxEntries s)
     (_payloadSize s) (_timestampBytes s) (_timestampResolutionUs s)
     (_timestampWrapMs s) (_timestampBaseMs s) (_lastTimestampVal s)
     (_lastTimestampValid s) (_drops s) (_tsWrapCount s) (_nextSeq s).

(** The metadata [get] computes for the entry stored in slot [tailIdx]. *)
Definition get_meta (s : t) (seqNo tailIdx : Z) : OfflineDataMeta :=
  let out := slice (_ringBuffer s) (u32 (tailIdx * _payloadSize s)) (_payloadSize s) in
  let tsResolutionMs := _timestampResolutionUs s / 1000 in
  let tsv := tsField (_timestampBytes s) out in
  let adjustedTsMs := nth (Z.to_nat tailIdx) (_adjTimestampMs s) 0 in
  let tsComponentMs := if tsResolutionMs =? 0 then 0 else tsv * tsResolutionMs in
  mkMeta seqNo tsv
         (if tsComponentMs <=? adjustedTsMs then adjustedTsMs - tsComponentMs else 0).

(** The copy loop of [get]: [n] iterations left, loop counter [i]. *)
Fixpoint get_loop (s : t) (seqStart : Z) (n : nat) (i tailIdx : Z)
    : list byte * list OfflineDataMeta :=
  match n with
  | O => ([], [])
  | S n' =>
      let out := slice (_ringBuffer s) (u32 (tailIdx * _payloadSize s)) (_payloadSize s) in
      let '(d, ms) := get_loop s seqStart n' (i + 1) (u32 (tailIdx + 1) mod _maxEntries s) in
      (out ++ d, get_meta s (u32 (seqStart + i)) tailIdx :: ms)
  end.

(** [uint32_t get(data, responseSize, maxResponsesToReturn, metas,
                  consumeEntries, startIdx, maxBytes)].
    [responseSize0] is the caller's value of the out-parameter, which the
    early returns leave alone.  [data] is the concatenation of the copied
    payloads; the source sizes it with the [uint32_t] product
    [numResponses * _payloadSize], which is exact whenever the ring buffer
    itself was allocated with an exact size. *)
Definition get (s : t) (responseSize0 maxResponsesToReturn : Z) (consumeEntries : bool)
    (startIdx maxBytes : Z) : GetResult :=
  if negb (isConfigured s) then mkGet 0 [] responseSize0 [] s else
  let startIdx := if consumeEntries && (0 <? startIdx) then 0 else startIdx in
  if (_count s =? 0) || (_count s <=? startIdx) then mkGet 0 [] responseSize0 [] s else
  let available := _count s - startIdx in
  let numResponses :=
    if (maxResponsesToReturn =? 0) || (available <? maxResponsesToReturn)
    then available else maxResponsesToReturn in
  let bytesPerEntry := u32 (_payloadSize s + META_STORAGE_BYTES) in
  let maxFromBytes := if bytesPerEntry =? 0 then 0 else maxBytes / bytesPerEntry in
  if (0 <? maxBytes) && (maxFromBytes =? 0) then mkGet 0 [] responseSize0 [] s else
  let numResponses :=
    if (0 <? maxBytes) && (maxFromBytes <? numResponses) then maxFromBytes else numResponses in
  if numResponses =? 0 then mkGet 0 [] (_payloadSize s) [] s else
  let tailIdx := u32 (_headIdx s + _maxEntries s - _count s + startIdx) mod _maxEntries s in
  let seqStart :=
    if _count s <? _nextSeq s then u32 (_nextSeq s - _count s + startIdx) else startIdx in
  let '(d, ms) := get_loop s seqStart (Z.to_nat numResponses) 0 tailIdx in
  mkGet numResponses d (_payloadSize s) ms
        (if consumeEntries then set_count s (_count s - numResponses) else s).

(** [bool consume(uint32_t numResponses)]. *)
Definition consume (s : t) (numResponses : Z) : bool * t :=
  if negb (isConfigured s) then (false, s) else
  let n := if _count s <? numResponses then _count s else numResponses in
  (true, set_count s (_count s - n)).

(** [OfflineDataStats getStats() const]. *)
Definition getStats (s : t) : OfflineDataStats :=
  if negb (isConfigured s) then mkStats 0 0 0 0 0 0 0 0 0 0 else
  mkStats (_count s) (_drops s) (_maxEntries s) (_payloadSize s) META_STORAGE_BYTES
          (_tsWrapCount s)
          (if _count s <? _nextSeq s then u32 (_nextSeq s - _count s) else 0)
          (_timestampBytes s) (_timestampResolutionUs s)
          (if 0 <? _count s
           then nth (Z.to_nat (u32 (_headIdx s + _maxEntries s - _count s) mod _maxEntries s))
                    (_adjTimestampMs s) 0
           else 0).

Definition capacityBytes (s : t) : Z := u32 (_maxEntries s * u32 (_payloadSize s + META_STORAGE_BYTES)).
Definition getMaxEntries (s : t) : Z := _maxEntries s.
Definition getPayloadSize (s : t) : Z := _payloadSize s.

(** *** The ring seen as a queue *)

(** Slot index of the [k]-th oldest entry. *)
Definition slotOf (s : t) (k : nat) : Z :=
  u32 (_headIdx s + _maxEntries s - _count s + Z.of_nat k) mod _maxEntries s.

(** Payload bytes and stored adjusted timestamp held in a slot. *)
Definition slot (s : t) (idx : Z) : list byte * Z :=
  (slice (_ringBuffer s) (u32 (idx * _payloadSize s)) (_payloadSize s),
   nth (Z.to_nat idx) (_adjTimestampMs s) 0).

(** The live entries, oldest first. *)
Definition entries (s : t) : list (list byte * Z) :=
  (fun k => slot s (slotOf s k)) <$> List.seq 0 (Z.to_nat (_count s)).

(** The metadata [get] derives from a queue entry. *)
Definition entry_meta (s : t) (seqNo : Z) (e : list byte * Z) : OfflineDataMeta :=
  let tsResolutionMs := _timestampResolutionUs s / 1000 in
  let tsv := tsField (_timestampBytes s) (fst e) in
  let tsComponentMs := if tsResolutionMs =? 0 then 0 else tsv * tsResolutionMs in
  mkMeta seqNo tsv (if tsComponentMs <=? snd e then snd e - tsComponentMs else 0).

(** The absolute timestamp a consumer rebuilds from a returned meta record:
    [tsBaseMs + ts * (resolution in ms)]. *)
Definition meta_timeMs (s : t) (m : OfflineDataMeta) : Z :=
  tsBaseMs m + ts m * (_timestampResolutionUs s / 1000).

Definition nondecreasing (l : list Z) : Prop :=
  forall (i : nat) (a b : Z), l !! i = Some a -> l !! S i = Some b -> a <= b.

(** Arguments of the C++ types: [uint32_t] and [uint64_t] values. *)
Definition is_u32 (x : Z) : Prop := 0 <= x < 2 ^ 32.
Definition is_u64 (x : Z) : Prop := 0 <= x < 2 ^ 64.

(** States a store can be in after any sequence of member calls on a
    default-constructed object.  [okInit] and [okPut] restrict the [init]
    and [put] calls considered. *)
Inductive reachable (okInit : Z -> Z -> Z -> Z -> Prop)
    (okPut : t -> Z -> Z -> list byte -> Prop) : t -> Prop :=
| reach_default : reachable okInit okPut default
| reach_init s me ps tb tr :
    reachable okInit okPut s ->
    is_u32 me -> is_u32 ps -> is_u32 tb -> is_u32 tr -> okInit me ps tb tr ->
    reachable okInit okPut (init s me ps tb tr)
| reach_clear s :
    reachable okInit okPut s -> reachable okInit okPut (clear s)
| reach_put s timeNowUs sq data :
    reachable okInit okPut s ->
    is_u64 timeNowUs -> is_u32 sq -> okPut s timeNowUs sq data ->
    reachable okInit okPut (snd (put s timeNowUs sq data))
| reach_get s rs maxResp consumeEntries startIdx maxBytes :
    reachable okInit okPut s ->
    is_u32 rs -> is_u32 maxResp -> is_u32 startIdx -> is_u32 maxBytes ->
    reachable okInit okPut (get_store (get s rs maxResp consumeEntries startIdx maxBytes))
| reach_consume s n :
    reachable okInit okPut s -> is_u32 n ->
    reachable okInit okPut (snd (consume s n)).

Definition anyInit : Z -> Z -> Z -> Z -> Prop := fun _ _ _ _ => True.
Definition anyPut : t -> Z -> Z -> list byte -> Prop := fun _ _ _ _ => True.

(** [init] calls whose buffer size [maxEntries * payloadSize] and index sum
    [_headIdx + _maxEntries] fit the [uint32_t] they are computed in. *)
Definition sizedInit : Z -> Z -> Z -> Z -> Prop :=
  fun me ps _ _ => me * ps < 2 ^ 32 /\ me < 2 ^ 31.

(** [put] calls whose adjusted timestamp fits the [uint32_t] slot of
    [_adjTimestampMs]. *)
Definition fitsPut : t -> Z -> Z -> list byte -> Prop :=
  fun s timeNowUs _ data =>
    put_timestampBaseMs s timeNowUs data
    + tsField (_timestampBytes s) data * (_timestampResolutionUs s / 1000) < 2 ^ 32.

(** [put] calls that carry a sequence number not below the store's
    [_nextSeq], and below [UINT32_MAX]. *)
Definition orderedPut : t -> Z -> Z -> list byte -> Prop :=
  fun s _ sq _ => _nextSeq s <= sq < UINT32_MAX.

(** Largest raw timestamp plus one, per field width. *)
Definition tsBound (timestampBytes : Z) : Z :=
  if timestampBytes =? 1 then 256
  else if timestampBytes =? 2 then 65536
  else if timestampBytes =? 4 then 65536
  else 1.

(** Bounds on the ring indices that every member function keeps. *)
Definition bounded (s : t) : Prop :=
  is_u32 (_maxEntries s)
  /\ 0 <= _count s <= _maxEntries s
  /\ 0 <= _headIdx s
  /\ (0 < _maxEntries s -> _headIdx s < _maxEntries s)
  /\ (isConfigured s = false -> _count s = 0 /\ _nextSeq s = 0).

(** Sequence numbers run ahead of the fill level. *)
Definition ordered (s : t) : Prop :=
  _count s <= _nextSeq s /\ is_u32 (_nextSeq s).

(** A store whose vectors have the sizes [init] asked for. *)
Definition wf (s : t) : Prop :=
  bounded s
  /\ _maxEntries s < 2 ^ 31
  /\ 0 <= _payloadSize s
  /\ _maxEntries s * _payloadSize s < 2 ^ 32
  /\ length (_ringBuffer s) = Z.to_nat (_maxEntries s * _payloadSize s)
  /\ length (_adjTimestampMs s) = Z.to_nat (_maxEntries s).

(** The timestamp bookkeeping: the base tracks the newest entry, stored
    adjusted timestamps dominate their raw component and are in order. *)
Definition stamped (s : t) : Prop :=
  let R := _timestampResolutionUs s / 1000 in
  is_u32 (_timestampBytes s) /\ is_u32 (_timestampResolutionUs s)
  /\ _timestampWrapMs s = u64 (2 ^ u32 (_timestampBytes s * 8) * R)
  /\ 0 <= _lastTimestampVal s < tsBound (_timestampBytes s)
  /\ (_lastTimestampValid s = true ->
      0 <= _timestampBaseMs s /\ _timestampBaseMs s + _lastTimestampVal s * R < 2 ^ 32)
  /\ (forall k p a, entries s !! k = Some (p, a) -> tsField (_timestampBytes s) p * R <= a)
  /\ nondecreasing (snd <$> entries s)
  /\ (forall p a, last (entries s) = Some (p, a) ->
        _lastTimestampValid s = true
        /\ a <= _timestampBaseMs s + _lastTimestampVal s * R).

(** [uint32_t OfflineDataStats::bytesInUse() const]; [sizeof(uint32_t)] is 4. *)
Definition bytesInUse (st : OfflineDataStats) : Z :=
  let metaBytes := if metaSize st =? 0 then 4 else metaSize st in
  u32 (depth st * u32 (payloadSize st + metaBytes)).

(** Successive [put] calls, each with its capture time, sequence number
    and payload. *)
Fixpoint puts (s : t) (l : list (Z * Z * list byte)) : t :=
  match l with
  | [] => s
  | (timeNowUs, sq, data) :: rest => puts (snd (put s timeNowUs sq data)) rest
  end.

End OfflineDataStore.

(** ** OfflineDataStoreNVS (OfflineDataStoreNVS.h, OfflineDataStoreNVS.cpp) *)

Module OfflineDataStoreNVS.

Definition OFFLINE_NVS_META_MAGIC : Z := 0x4F424E56.
Definition OFFLINE_NVS_META_VERSION : Z := 2.
Definition OFFLINE_NVS_SEGMENT_BYTES : Z := 4000.
Definition OFFLINE_NVS_META_KEY : string := "meta".

(** [struct OfflineNvsMeta]; every member is a [uint32_t]. *)
Record OfflineNvsMeta := mkMeta {
  magic : Z;
  version : Z;
  payloadSize : Z;
  recordSize : Z;
  timestampBytes : Z;
  timestampResolutionUs : Z;
  maxEntries : Z;
  head : Z;
  count : Z;
  nextSeq : Z;
  importSeq : Z;
  recordsPerSegment : Z;
  segmentBytes : Z;
  drops : Z
}.

(** A blob of the key-value store: the meta structure as written by
    [saveMeta] (its byte layout is not modelled) or a segment's bytes. *)
Inductive blob :=
| MetaBlob (m : OfflineNvsMeta)
| BytesBlob (b : list byte).

(** The members of [class OfflineDataStoreNVS] (ESP_PLATFORM build) and, in
    [nvs], the key-value pairs of the flash namespace the object works on.

    Modelled from the spec: the NVS calls ([nvs_open], [nvs_get_blob],
    [nvs_set_blob], [nvs_erase_all], [nvs_commit]) belong to ESP-IDF, not
    to this repository.  Spec section 4.3: "Backed by a key-value store
    supporting get_blob(key), set_blob(key, bytes), erase_all(), commit()
    atomically per call."  In the model these calls succeed; [nvs_open]
    needs a non-empty namespace and [nvs_get_blob] a stored blob of the
    requested size. *)
Record t := mk {
  _nvsNamespace : string;
  _ready : bool;
  _metaValid : bool;
  _meta : OfflineNvsMeta;
  _effectiveMaxEntries : Z;     (* uint32_t *)
  _nvsHandle : Z;               (* uint32_t *)
  nvs : gmap string blob
}.

Definition default : t :=
  mk EmptyString false false (mkMeta 0 0 0 0 0 0 0 0 0 0 0 0 0 0) 0 0 ∅.

Definition set_meta (st : t) (m : OfflineNvsMeta) : t :=
  mk (_nvsNamespace st) (_ready st) (_metaValid st) m (_effectiveMaxEntries st)
     (_nvsHandle st) (nvs st).

Definition set_flags (st : t) (ready metaValid : bool) : t :=
  mk (_nvsNamespace st) ready metaValid (_meta st) (_effectiveMaxEntries st)
     (_nvsHandle st) (nvs st).

Definition set_nvs (st : t) (kv : gmap string blob) : t :=
  mk (_nvsNamespace st) (_ready st) (_metaValid st) (_meta st) (_effectiveMaxEntries st)
     (_nvsHandle st) kv.

Definition set_handle (st : t) (h : Z) : t :=
  mk (_nvsNamespace st) (_ready st) (_metaValid st) (_meta st) (_effectiveMaxEntries st)
     h (nvs st).

Definition set_effective (st : t) (n : Z) : t :=
  mk (_nvsNamespace st) (_ready st) (_metaValid st) (_meta st) n (_nvsHandle st) (nvs st).

Definition set_head_count_drops_nextSeq (m : OfflineNvsMeta) (h c d n : Z) : OfflineNvsMeta :=
  mkMeta (magic m) (version m) (payloadSize m) (recordSize m) (timestampBytes m)
         (timestampResolutionUs m) (maxEntries m) h c n (importSeq m)
         (recordsPerSegment m) (segmentBytes m) d.

Definition set_nextSeq (m : OfflineNvsMeta) (n : Z) : OfflineNvsMeta :=
  set_head_count_drops_nextSeq m (head m) (count m) (drops m) n.

Definition set_importSeq (m : OfflineNvsMeta) (n : Z) : OfflineNvsMeta :=
  mkMeta (magic m) (version m) (payloadSize m) (recordSize m) (timestampBytes m)
         (timestampResolutionUs m) (maxEntries m) (head m) (count m) (nextSeq m) n
         (recordsPerSegment m) (segmentBytes m) (drops m).

(** [bool open()]. *)
Definition open (st : t) : bool * t :=
  if negb (_nvsHandle st =? 0) then (true, st)
  else if String.eqb (_nvsNamespace st) EmptyString then (false, st)
  else (true, set_handle st 1).

(** [void close()]. *)
Definition close (st : t) : t :=
  if negb (_nvsHandle st =? 0) then set_handle st 0 else st.

(** [bool loadMeta()]. *)
Definition loadMeta (st : t) : bool * t :=
  let '(ok, st) := open st in
  if negb ok then (false, st) else
  match nvs st !! OFFLINE_NVS_META_KEY with
  | Some (MetaBlob m) =>
      let valid := (magic m =? OFFLINE_NVS_META_MAGIC)
                   && (version m =? OFFLINE_NVS_META_VERSION) in
      (valid, set_flags (set_meta st m) (_ready st) valid)
  | _ => (false, set_flags st (_ready st) false)
  end.

(** [bool saveMeta()]. *)
Definition saveMeta (st : t) : bool * t :=
  let '(ok, st) := open st in
  if negb ok then (false, st) else
  (true, set_nvs st (<[OFFLINE_NVS_META_KEY := MetaBlob (_meta st)]> (nvs st))).

(** Decimal digits of an unsigned number, most significant first. *)
Fixpoint decimal (fuel : nat) (n : Z) (acc : string) : string :=
  match fuel with
  | O => acc
  | S fuel' =>
      let acc' := String (Ascii.ascii_of_nat (48 + Z.to_nat (n mod 10))) acc in
      if n / 10 =? 0 then acc' else decimal fuel' (n / 10) acc'
  end.

(** [makeSegmentKey]: [snprintf(key, 16, "s%05u", segIdx)]. *)
Definition makeSegmentKey (segIdx : Z) : string :=
  let digits := decimal 10 (u32 segIdx) EmptyString in
  String.append "s"
    (String.append (String.concat EmptyString (replicate (5 - String.length digits) "0"%string))
                   digits).

(** [bool readSegment(segIdx, outBuf)]: the blob when it has the size of
    [outBuf], nothing otherwise. *)
Definition readSegment (st : t) (segIdx : Z) (size : nat) : option (list byte) :=
  if _nvsHandle st =? 0 then None else
  match nvs st !! makeSegmentKey segIdx with
  | Some (BytesBlob b) => if decide (length b = size) then Some b else None
  | _ => None
  end.

(** [bool writeSegment(segIdx, data, len)]. *)
Definition writeSegment (st : t) (segIdx : Z) (data : list byte) : bool * t :=
  let '(ok, st) := open st in
  if negb ok then (false, st) else
  (true, set_nvs st (<[makeSegmentKey segIdx := BytesBlob data]> (nvs st))).

(** The meta structure [resetMeta] writes. *)
Definition freshMeta (payloadSize timestampBytes timestampResolutionUs maxEntries : Z)
    : OfflineNvsMeta :=
  let recordSize := u32 (payloadSize + 4) in
  mkMeta OFFLINE_NVS_META_MAGIC OFFLINE_NVS_META_VERSION payloadSize recordSize
         timestampBytes timestampResolutionUs maxEntries 0 0 0 0
         (if recordSize =? 0 then 0 else OFFLINE_NVS_SEGMENT_BYTES / recordSize)
         OFFLINE_NVS_SEGMENT_BYTES 0.

(** [void resetMeta(payloadSize, timestampBytes, timestampResolutionUs, maxEntries)]. *)
Definition resetMeta (st : t) (payloadSize timestampBytes timestampResolutionUs maxEntries : Z) : t :=
  set_meta st (freshMeta payloadSize timestampBytes timestampResolutionUs maxEntries).

(** [void clear()]: erase every key of the namespace and invalidate. *)
Definition clear (st : t) : t :=
  let '(ok, st) := open st in
  if negb ok then st else
  set_flags (set_nvs st ∅) false false.

(** [bool configure(nvsNamespace, payloadSize, timestampBytes,
                    timestampResolutionUs, maxEntries)]; the parameters
    carry a prime to keep them apart from the members of [_meta].  The
    namespace is a string, so the null-pointer guard has no counterpart. *)
Definition configure (st : t) (nvsNamespace : string)
    (payloadSize' timestampBytes' timestampResolutionUs' maxEntries' : Z) : bool * t :=
  if (payloadSize' =? 0) || (maxEntries' =? 0) then (false, st) else
  let st := if String.eqb (_nvsNamespace st) nvsNamespace then st
            else mk nvsNamespace (_ready st) (_metaValid st) (_meta st)
                    (_effectiveMaxEntries st) 0 (nvs st) in
  let '(ok, st) := open st in
  if negb ok then (false, st) else
  let finish (st : t) := (true, set_effective (set_flags st true true) (maxEntries (_meta st))) in
  let reinit (st : t) :=
    let st := resetMeta st payloadSize' timestampBytes' timestampResolutionUs' maxEntries' in
    if recordsPerSegment (_meta st) =? 0 then (false, st) else
    let '(ok, st) := saveMeta st in
    if negb ok then (false, st) else finish st in
  let '(loaded, st) := loadMeta st in
  if negb loaded then reinit st
  else
    let m := _meta st in
    let metaCompatible :=
      (magic m =? OFFLINE_NVS_META_MAGIC) && (version m =? OFFLINE_NVS_META_VERSION)
      && (payloadSize m =? payloadSize')
      && (timestampBytes m =? timestampBytes')
      && (timestampResolutionUs m =? timestampResolutionUs')
      && (recordSize m =? u32 (payloadSize' + 4))
      && (0 <? recordsPerSegment m) && (0 <? segmentBytes m) in
    if negb metaCompatible then reinit (clear st) else finish st.

(** [void setEffectiveMaxEntries(uint32_t maxEntries)]. *)
Definition setEffectiveMaxEntries (st : t) (n : Z) : t :=
  if negb (_metaValid st) then st else
  let m := _meta st in
  let eff := if (n =? 0) || (maxEntries m <? n) then maxEntries m else n in
  let st := set_effective st eff in
  if eff <? count m then
    snd (saveMeta (set_meta st (set_head_count_drops_nextSeq m (head m) eff
                                  (u32 (drops m + (count m - eff))) (nextSeq m))))
  else st.

(** *** appendBatch *)

(** The locals of [appendBatch] that live across loop iterations. *)
Record AppendState := mkAppend {
  ap_store : t;
  segBuf : list byte;
  currentSegIdx : Z;
  segDirty : bool;
  outLastSeq : Z
}.

(** The lambda [flushSeg]. *)
Definition flushSeg (a : AppendState) : bool * AppendState :=
  if (currentSegIdx a =? UINT32_MAX) || negb (segDirty a) then (true, a)
  else
    let '(ok, st) := writeSegment (ap_store a) (currentSegIdx a) (segBuf a) in
    (ok, mkAppend st (segBuf a) (currentSegIdx a) false (outLastSeq a)).

(** The entry guards of [appendBatch]; [payloads.size() < count * payloadSize]
    compares against a [uint32_t] product. *)
Definition appendBatch_guards (st : t) (payloads : list byte) (payloadSize' : Z)
    (adjTsMs : list Z) (count' : Z) : bool :=
  _ready st && _metaValid st
  && (payloadSize' =? payloadSize (_meta st))
  && negb ((count' =? 0) || (Z.of_nat (length adjTsMs) <? count'))
  && negb (Z.of_nat (length payloads) <? u32 (count' * payloadSize'))
  && negb ((if 0 <? _effectiveMaxEntries st then _effectiveMaxEntries st
            else maxEntries (_meta st)) =? 0).

(** The sequence alignment block of [appendBatch]: initial alignment of an
    empty store, or reset of the store on a sequence gap.  [false] stands
    for the [return false] inside the reset. *)
Definition appendBatch_align (st : t) (payloadSize' firstSeq : Z) : bool * t :=
  if count (_meta st) =? 0 then
    (true, set_meta st (set_nextSeq (_meta st) firstSeq))
  else if nextSeq (_meta st) <? firstSeq then
    let m := _meta st in
    let st := clear st in
    let st := resetMeta st payloadSize' (timestampBytes m) (timestampResolutionUs m)
                        (maxEntries m) in
    let st := set_flags st true true in
    if recordsPerSegment (_meta st) =? 0 then (false, st) else
    let '(ok, st) := saveMeta st in
    if negb ok then (false, st) else
    (true, set_meta st (set_nextSeq (_meta st) firstSeq))
  else (true, st).

(** Loop body, first half: on entering another segment, flush the current
    one and load the new one (zero-filled when it cannot be read).
    [false] stands for the [return false] after a failed flush. *)
Definition appendBatch_enterSegment (a : AppendState) (segIdx : Z) : bool * AppendState :=
  if segIdx =? currentSegIdx a then (true, a)
  else
    let '(ok, a) := flushSeg a in
    if negb ok then (false, a) else
    (true,
     mkAppend (ap_store a)
              (match readSegment (ap_store a) segIdx (length (segBuf a)) with
               | Some b => b
               | None => replicate (length (segBuf a)) x00
               end)
              segIdx (segDirty a) (outLastSeq a)).

(** Loop body, second half: write entry [ii] of the batch at the head and
    advance the ring state. *)
Definition appendBatch_record (a : AppendState) (ii : Z) (payloads : list byte)
    (payloadSize' : Z) (adjTsMs : list Z) (firstSeq effectiveMaxEntries recordSize' : Z)
    : AppendState :=
  let m := _meta (ap_store a) in
  let sq := u32 (firstSeq + ii) in
  let segOffset := u32 ((head m mod recordsPerSegment m) * recordSize') in
  let buf := memcpy_at (segBuf a) segOffset (setLEUInt32 (nth (Z.to_nat ii) adjTsMs 0)) in
  let buf := memcpy_at buf (segOffset + 4)
                       (slice payloads (u32 (ii * payloadSize')) payloadSize') in
  let full := negb (count m <? effectiveMaxEntries) in
  let m := set_head_count_drops_nextSeq m
             (u32 (head m + 1) mod maxEntries m)
             (if full then count m else u32 (count m + 1))
             (if full then u32 (drops m + 1) else drops m)
             (u32 (sq + 1)) in
  mkAppend (set_meta (ap_store a) m) buf (currentSegIdx a) true sq.

(** The write loop of [appendBatch], [n] iterations left, loop counter
    [ii]. *)
Fixpoint appendBatch_loop (n : nat) (ii : Z) (payloads : list byte) (payloadSize' : Z)
    (adjTsMs : list Z) (firstSeq effectiveMaxEntries recordSize' : Z) (a : AppendState)
    : bool * AppendState :=
  match n with
  | O => (true, a)
  | S n' =>
      let m := _meta (ap_store a) in
      let '(ok, a) := appendBatch_enterSegment a (head m / recordsPerSegment m) in
      if negb ok then (false, a) else
      appendBatch_loop n' (ii + 1) payloads payloadSize' adjTsMs firstSeq
                       effectiveMaxEntries recordSize'
                       (appendBatch_record a ii payloads payloadSize' adjTsMs firstSeq
                                           effectiveMaxEntries recordSize')
  end.

(** The rest of [appendBatch] once the store is aligned: write the entries
    from index [skip] on, flush the last segment, save the meta. *)
Definition appendBatch_write (st : t) (payloads : list byte) (payloadSize' : Z)
    (adjTsMs : list Z) (firstSeq count' skip effectiveMaxEntries : Z) : bool * Z * t :=
  let recordSize' := recordSize (_meta st) in
  let segmentBytes' := u32 (recordsPerSegment (_meta st) * recordSize') in
  let a := mkAppend st (replicate (Z.to_nat segmentBytes') x00) UINT32_MAX false 0 in
  let '(ok, a) := appendBatch_loop (Z.to_nat (count' - skip)) skip payloads payloadSize'
                                   adjTsMs firstSeq effectiveMaxEntries recordSize' a in
  if negb ok then (false, outLastSeq a, ap_store a) else
  let '(ok, a) := flushSeg a in
  if negb ok then (false, outLastSeq a, ap_store a) else
  let '(ok, st) := saveMeta (ap_store a) in
  (ok, outLastSeq a, st).

(** [bool appendBatch(payloads, payloadSize, adjTsMs, firstSeq, count,
                      outLastSeq)]: (return value, outLastSeq, object). *)
Definition appendBatch (st : t) (payloads : list byte) (payloadSize' : Z)
    (adjTsMs : list Z) (firstSeq count' : Z) : bool * Z * t :=
  if negb (appendBatch_guards st payloads payloadSize' adjTsMs count') then (false, 0, st) else
  let effectiveMaxEntries :=
    if 0 <? _effectiveMaxEntries st then _effectiveMaxEntries st
    else maxEntries (_meta st) in
  let '(ok, st) := appendBatch_align st payloadSize' firstSeq in
  if negb ok then (false, 0, st) else
  if firstSeq <? nextSeq (_meta st) then
    let diff := u32 (nextSeq (_meta st) - firstSeq) in
    if count' <=? diff then
      (true, (if 0 <? nextSeq (_meta st) then u32 (nextSeq (_meta st) - 1) else 0), st)
    else
      appendBatch_write st payloads payloadSize' adjTsMs firstSeq count' diff
                        effectiveMaxEntries
  else
    appendBatch_write st payloads payloadSize' adjTsMs firstSeq count' 0
                      effectiveMaxEntries.

(** *** importTo *)

(** The copy loop of [importTo], [n] iterations left, loop counter [ii];
    [false] stands for the [return false] after a failed segment read. *)
Fixpoint importTo_loop (n : nat) (ii : Z) (st : t) (startIdx firstSeq : Z)
    (sbuf : list byte) (curSegIdx : Z) (dest : OfflineDataStore.t)
    : bool * OfflineDataStore.t :=
  match n with
  | O => (true, dest)
  | S n' =>
      let m := _meta st in
      let recordIdx := u32 (startIdx + ii) mod maxEntries m in
      let segIdx := recordIdx / recordsPerSegment m in
      let segOffset := u32 ((recordIdx mod recordsPerSegment m) * recordSize m) in
      let reload :=
        if segIdx =? curSegIdx then Some sbuf
        else readSegment st segIdx (length sbuf) in
      match reload with
      | None => (false, dest)
      | Some sbuf =>
          let adjTsMs := getLEUInt32 (slice sbuf segOffset (recordSize m)) in
          let record := slice sbuf (segOffset + 4) (payloadSize m) in
          let timeNowUs := if ii =? 0 then adjTsMs * 1000 else 0 in
          let dest := snd (OfflineDataStore.put dest timeNowUs (u32 (firstSeq + ii)) record) in
          importTo_loop n' (ii + 1) st startIdx firstSeq sbuf segIdx dest
      end
  end.

(** The first sequence number [importTo] considers: one past the import
    watermark, but not before the oldest stored entry. *)
Definition importTo_startSeq (m : OfflineNvsMeta) : Z :=
  let firstSeqInStore := if count m <=? nextSeq m then u32 (nextSeq m - count m) else 0 in
  let startSeq := u32 (importSeq m + 1) in
  if startSeq <? firstSeqInStore then firstSeqInStore else startSeq.

(** [bool importTo(dest, importMaxEntries, outNextSeq)]:
    (return value, outNextSeq, object, dest).  The [delay(1)] every 512
    entries has no effect on the data. *)
Definition importTo (st : t) (dest : OfflineDataStore.t) (importMaxEntries : Z)
    : bool * Z * t * OfflineDataStore.t :=
  if negb (_ready st) || negb (_metaValid st) then (false, 0, st, dest) else
  let m := _meta st in
  if count m =? 0 then (false, nextSeq m, st, dest) else
  let firstSeqInStore := if count m <=? nextSeq m then u32 (nextSeq m - count m) else 0 in
  let startSeq := importTo_startSeq m in
  if nextSeq m <=? startSeq then (true, nextSeq m, st, dest) else
  let maxEntries' := OfflineDataStore.getMaxEntries dest in
  let maxEntries' :=
    if (0 <? importMaxEntries) && (importMaxEntries <? maxEntries')
    then importMaxEntries else maxEntries' in
  if maxEntries' =? 0 then (false, nextSeq m, st, dest) else
  let available := u32 (nextSeq m - startSeq) in
  let importCount := if available <? maxEntries' then available else maxEntries' in
  if importCount =? 0 then (false, nextSeq m, st, dest) else
  let segmentBytes' := u32 (recordsPerSegment m * recordSize m) in
  let tail := u32 (head m + maxEntries m - count m) mod maxEntries m in
  let startIdx := u32 (tail + u32 (startSeq - firstSeqInStore)) mod maxEntries m in
  let '(ok, dest) :=
    importTo_loop (Z.to_nat importCount) 0 st startIdx startSeq
                  (replicate (Z.to_nat segmentBytes') x00) UINT32_MAX dest in
  if negb ok then (false, nextSeq m, st, dest) else
  let st := set_meta st (set_importSeq m (u32 (startSeq + importCount - 1))) in
  (true, nextSeq m, snd (saveMeta st), dest).


Definition importTo_store (r : bool * Z * t * OfflineDataStore.t) : t := snd (fst r).
Definition importTo_dest (r : bool * Z * t * OfflineDataStore.t) : OfflineDataStore.t := snd r.



Definition isReady (st : t) : bool := _ready st && _metaValid st.
Definition getCount (st : t) : Z := if _metaValid st then count (_meta st) else 0.
Definition getNextSeq (st : t) : Z := if _metaValid st then nextSeq (_meta st) else 0.

(** *** Segment keys read back *)

(** The number written in decimal digits, read left to right. *)
Fixpoint digitsValue (s : string) (acc : Z) : Z :=
  match s with
  | EmptyString => acc
  | String c rest => digitsValue rest (10 * acc + (Z.of_nat (Ascii.nat_of_ascii c) - 48))
  end.

(** The segment index a key names: the decimal number after its first
    character. *)
Definition segmentKeyIndex (key : string) : Z :=
  match key with
  | EmptyString => 0
  | String _ rest => digitsValue rest 0
  end.

(** *** The store between calls *)

(** The compatibility test [configure] applies to a loaded meta
    structure. *)
Definition metaCompatible (m : OfflineNvsMeta)
    (payloadSize' timestampBytes' timestampResolutionUs' : Z) : bool :=
  (magic m =? OFFLINE_NVS_META_MAGIC) && (version m =? OFFLINE_NVS_META_VERSION)
  && (payloadSize m =? payloadSize')
  && (timestampBytes m =? timestampBytes')
  && (timestampResolutionUs m =? timestampResolutionUs')
  && (recordSize m =? u32 (payloadSize' + 4))
  && (0 <? recordsPerSegment m) && (0 <? segmentBytes m).

(** The members of the meta structure that describe the record format and
    the capacity, as opposed to the ring position. *)
Definition format (m : OfflineNvsMeta) : Z * Z * Z * Z * Z * Z * Z * Z * Z :=
  (magic m, version m, payloadSize m, recordSize m, timestampBytes m,
   timestampResolutionUs m, maxEntries m, recordsPerSegment m, segmentBytes m).

(** A meta structure laid out by [resetMeta] for a record format. *)
Definition layout (m : OfflineNvsMeta) (ps tb tr : Z) : Prop :=
  magic m = OFFLINE_NVS_META_MAGIC /\ version m = OFFLINE_NVS_META_VERSION
  /\ payloadSize m = ps /\ ps <> 0
  /\ timestampBytes m = tb /\ timestampResolutionUs m = tr
  /\ recordSize m = u32 (ps + 4)
  /\ recordsPerSegment m = OFFLINE_NVS_SEGMENT_BYTES / u32 (ps + 4)
  /\ 0 < recordsPerSegment m
  /\ segmentBytes m = OFFLINE_NVS_SEGMENT_BYTES.

(** The position of the ring: head inside the capacity, fill level inside
    the effective capacity. *)
Definition ringBounds (st : t) : Prop :=
  let m := _meta st in
  0 < maxEntries m < 2 ^ 32
  /\ 0 <= head m < maxEntries m
  /\ 1 <= _effectiveMaxEntries st <= maxEntries m
  /\ 0 <= count m <= _effectiveMaxEntries st.

(** The meta structure in flash is the one in memory. *)
Definition stored (st : t) : Prop :=
  nvs st !! OFFLINE_NVS_META_KEY = Some (MetaBlob (_meta st)).

(** An open, ready store over namespace [ns] with format [ps], [tb],
    [tr]. *)
Definition operating (ns : string) (ps tb tr : Z) (st : t) : Prop :=
  _ready st = true /\ _metaValid st = true /\ _nvsHandle st <> 0
  /\ _nvsNamespace st = ns /\ ns <> EmptyString
  /\ layout (_meta st) ps tb tr /\ ringBounds st.

(** States of a store object in use: configured on a namespace that holds
    no meta structure yet, then any sequence of [appendBatch], [importTo]
    and [setEffectiveMaxEntries] calls, and of restarts, where a newly
    constructed object is configured over what the flash holds. *)
Inductive reachable (ns : string) (ps tb tr : Z) : t -> Prop :=
| reach_configure kv me st :
    kv !! OFFLINE_NVS_META_KEY = None -> 0 <= me < 2 ^ 32 ->
    configure (set_nvs default kv) ns ps tb tr me = (true, st) ->
    reachable ns ps tb tr st
| reach_restart st me st' :
    reachable ns ps tb tr st ->
    configure (set_nvs default (nvs st)) ns ps tb tr me = (true, st') ->
    reachable ns ps tb tr st'
| reach_appendBatch st payloads payloadSize' adjTs firstSeq n :
    reachable ns ps tb tr st ->
    reachable ns ps tb tr (snd (appendBatch st payloads payloadSize' adjTs firstSeq n))
| reach_importTo st dest importMaxEntries :
    reachable ns ps tb tr st ->
    reachable ns ps tb tr (importTo_store (importTo st dest importMaxEntries))
| reach_setEffectiveMaxEntries st n :
    reachable ns ps tb tr st -> 0 <= n < 2 ^ 32 ->
    reachable ns ps tb tr (setEffectiveMaxEntries st n).

(** *** Records in flash *)






End OfflineDataStoreNVS.

(** ** DeviceStatus (DeviceStatus.h, DeviceStatus.cpp) *)

Module DeviceStatus.

(** Modelled from the spec: [class DevicePollingInfo] (DevicePollingInfo.h
    is not among the sources).  Spec section 4.4, per-device state:
    "{ pollIntervalUs, partialPollPauseAfterSendMs, partialPollNextReqIdx,
    lastPollTimeUs, pollReqs: ordered list, partialPollResult:
    accumulator }".  A poll request is kept as its bytes. *)
Record DevicePollingInfo := mkPolling {
  pollIntervalUs : Z;
  partialPollPauseAfterSendMs : Z;
  partialPollNextReqIdx : Z;
  lastPollTimeUs : Z;
  pollReqs : list (list byte);
  partialPollResult : list byte
}.

(** Modelled from the spec: [DevicePollingInfo::recordPartialPollResult].
    Spec section 4.4: "append pollResult to partialPollResult, remember
    pauseAfterSendMs, set partialPollNextReqIdx = nextReqIdx". *)
Definition recordPartialPollResult (p : DevicePollingInfo)
    (nextReqIdx timeNowUs : Z) (pollResult : list byte) (pauseAfterSendMs : Z)
    : DevicePollingInfo :=
  mkPolling (pollIntervalUs p) pauseAfterSendMs nextReqIdx (lastPollTimeUs p)
            (pollReqs p) (partialPollResult p ++ pollResult).

(** Modelled from the spec: [DevicePollingInfo::getPartialPollResultsAndClear].
    Spec section 4.4: "if a partial accumulator exists, concatenate then
    clear".  Returns whether an accumulator existed, its bytes, and the
    polling info with the accumulator cleared. *)
Definition getPartialPollResultsAndClear (p : DevicePollingInfo)
    : bool * list byte * DevicePollingInfo :=
  match partialPollResult p with
  | [] => (false, [], p)
  | acc =>
      (true, acc,
       mkPolling (pollIntervalUs p) (partialPollPauseAfterSendMs p)
                 (partialPollNextReqIdx p) (lastPollTimeUs p) (pollReqs p) [])
  end.

(** Modelled from the spec: [class PollDataAggregator] (PollDataAggregator.h
    is not among the sources).  The spec fixes only "an aggregator sink for
    the live publish path", so the sink is an interface: [put] takes the
    capture time and the bytes and reports whether it took them. *)
Class PollDataAggregator (A : Type) := {
  agg_put : A -> Z -> list byte -> bool * A;
  agg_clear : A -> A
}.

(** A sink that records every sample it is given, newest last. *)
#[export] Instance RecordingAggregator : PollDataAggregator (list (Z * list byte)) := {
  agg_put := fun a timeNowUs data => (true, a ++ [(timeNowUs, data)]);
  agg_clear := fun _ => []
}.

Definition DEVICE_TYPE_INDEX_INVALID : Z := 65535.

(** The members of [class DeviceStatus]. *)
Record t (A : Type) := mk {
  deviceTypeIndex : Z;                      (* uint16_t *)
  deviceIdentPolling : DevicePollingInfo;
  dataAggregator : A;
  offlineData : OfflineDataStore.t;
  _offlineSeq : Z;                          (* uint32_t *)
  _offlineBufferPaused : bool;
  _offlineDrainPaused : bool
}.

Arguments mk {A}.
Arguments deviceTypeIndex {A}.
Arguments deviceIdentPolling {A}.
Arguments dataAggregator {A}.
Arguments offlineData {A}.
Arguments _offlineSeq {A}.
Arguments _offlineBufferPaused {A}.
Arguments _offlineDrainPaused {A}.

Section Members.

Context {A : Type} `{PollDataAggregator A}.

(** The block both branches of a completed poll share: hand the result to
    the aggregator, take the next sequence number, and put the result into
    the offline ring when that is configured and buffering is not paused. *)
Definition storeCompleted (d : t A) (polling : DevicePollingInfo) (timeNowUs : Z)
    (result : list byte) : bool * t A :=
  let '(aggOk, agg) := agg_put (dataAggregator d) timeNowUs result in
  let sq := _offlineSeq d in
  let ring :=
    if OfflineDataStore.isConfigured (offlineData d) && negb (_offlineBufferPaused d)
    then snd (OfflineDataStore.put (offlineData d) timeNowUs sq result)
    else offlineData d in
  (aggOk,
   mk (deviceTypeIndex d) polling agg ring (u32 (sq + 1))
      (_offlineBufferPaused d) (_offlineDrainPaused d)).

(** [bool storePollResults(nextReqIdx, timeNowUs, pollResult, pPollInfo,
                           pauseAfterSendMs)]; [pPollInfo] is not used by
    the body. *)
Definition storePollResults (d : t A) (nextReqIdx timeNowUs : Z) (pollResult : list byte)
    (pauseAfterSendMs : Z) : bool * t A :=
  if negb (nextReqIdx =? 0) then
    (true,
     mk (deviceTypeIndex d)
        (recordPartialPollResult (deviceIdentPolling d) nextReqIdx timeNowUs pollResult
                                 pauseAfterSendMs)
        (dataAggregator d) (offlineData d) (_offlineSeq d)
        (_offlineBufferPaused d) (_offlineDrainPaused d))
  else
    let '(found, partialPollResult', polling) :=
      getPartialPollResultsAndClear (deviceIdentPolling d) in
    if found then storeCompleted d polling timeNowUs (partialPollResult' ++ pollResult)
    else storeCompleted d polling timeNowUs pollResult.

(** [void configureOfflineBuffer(...)]. *)
Definition configureOfflineBuffer (d : t A)
    (maxEntries payloadSize timestampBytes timestampResolutionUs : Z) : t A :=
  mk (deviceTypeIndex d) (deviceIdentPolling d) (dataAggregator d)
     (OfflineDataStore.init (offlineData d) maxEntries payloadSize timestampBytes
                            timestampResolutionUs)
     (_offlineSeq d) (_offlineBufferPaused d) (_offlineDrainPaused d).

(** [void clearOfflineBuffer()]. *)
Definition clearOfflineBuffer (d : t A) : t A :=
  mk (deviceTypeIndex d) (deviceIdentPolling d) (dataAggregator d)
     (OfflineDataStore.clear (offlineData d)) 0
     (_offlineBufferPaused d) (_offlineDrainPaused d).

Definition setOfflineBufferPaused (d : t A) (paused : bool) : t A :=
  mk (deviceTypeIndex d) (deviceIdentPolling d) (dataAggregator d) (offlineData d)
     (_offlineSeq d) paused (_offlineDrainPaused d).

Definition setOfflineSeq (d : t A) (nextSeq : Z) : t A :=
  mk (deviceTypeIndex d) (deviceIdentPolling d) (dataAggregator d) (offlineData d)
     nextSeq (_offlineBufferPaused d) (_offlineDrainPaused d).

(** Storing a run of fragments, each with its non-zero [nextReqIdx], time
    and pause. *)
Fixpoint storeFragments (d : t A) (frags : list (Z * Z * list byte * Z)) : t A :=
  match frags with
  | [] => d
  | (nextReqIdx, timeNowUs, frag, pause) :: rest =>
      storeFragments (snd (storePollResults d nextReqIdx timeNowUs frag pause)) rest
  end.

End Members.

(** A device with a configured ring (capacity 4, payloads of 3 bytes), a
    recording aggregator and [offlineSeq = 7]. *)
Definition exampleDevice (paused : bool) : t (list (Z * list byte)) :=
  mk 0 (mkPolling 100000 0 0 0 [] []) []
     (OfflineDataStore.init OfflineDataStore.default 4 3 1 1000) 7 paused false.

Section Drain.

Context {A : Type} `{PollDataAggregator A}.

Definition set_offlineData (d : t A) (ring : OfflineDataStore.t) : t A :=
  mk (deviceTypeIndex d) (deviceIdentPolling d) (dataAggregator d) ring
     (_offlineSeq d) (_offlineBufferPaused d) (_offlineDrainPaused d).

(** [uint32_t getOfflineResponses(devicePollResponseData, responseSize,
    maxResponsesToReturn, metas)]: what the call hands back (as for
    [OfflineDataStore::get]) and the device after it.  [data0],
    [responseSize0] and [metas0] are the caller's values of the
    out-parameters, which the early return does not touch. *)
Definition getOfflineResponses (d : t A) (data0 : list byte)
    (responseSize0 maxResponsesToReturn : Z)
    (metas0 : list OfflineDataStore.OfflineDataMeta)
    : OfflineDataStore.GetResult * t A :=
  if _offlineDrainPaused d || negb (OfflineDataStore.isConfigured (offlineData d))
  then (OfflineDataStore.mkGet 0 data0 responseSize0 metas0 (offlineData d), d)
  else
    let r := OfflineDataStore.get (offlineData d) responseSize0 maxResponsesToReturn
                                  true 0 0 in
    (r, set_offlineData d (OfflineDataStore.get_store r)).

(** [uint32_t peekOfflineResponses(devicePollResponseData, responseSize,
    startIdx, maxResponsesToReturn, maxBytes, metas)]. *)
Definition peekOfflineResponses (d : t A) (data0 : list byte)
    (responseSize0 startIdx maxResponsesToReturn maxBytes : Z)
    (metas0 : list OfflineDataStore.OfflineDataMeta)
    : OfflineDataStore.GetResult * t A :=
  if negb (OfflineDataStore.isConfigured (offlineData d))
  then (OfflineDataStore.mkGet 0 data0 responseSize0 metas0 (offlineData d), d)
  else
    let r := OfflineDataStore.get (offlineData d) responseSize0 maxResponsesToReturn
                                  false startIdx maxBytes in
    (r, set_offlineData d (OfflineDataStore.get_store r)).

(** [OfflineDataStats getOfflineStats() const]. *)
Definition getOfflineStats (d : t A) : OfflineDataStore.OfflineDataStats :=
  OfflineDataStore.getStats (offlineData d).

Definition setOfflineDrainPaused (d : t A) (paused : bool) : t A :=
  mk (deviceTypeIndex d) (deviceIdentPolling d) (dataAggregator d) (offlineData d)
     (_offlineSeq d) (_offlineBufferPaused d) paused.

Definition getOfflineSeq (d : t A) : Z := _offlineSeq d.

(** States of a device: newly constructed (type index, polling info and
    aggregator are public members and may hold anything), then any
    sequence of the member calls below.  A poll result is stored while the
    sequence counter is below [UINT32_MAX], and [setOfflineSeq] is given a
    number that is not behind the ring's next sequence number, as when the
    counter is taken from [OfflineDataStoreNVS::importTo]. *)
Inductive reachable : t A -> Prop :=
| reach_new idx polling agg :
    reachable (mk idx polling agg OfflineDataStore.default 0 false false)
| reach_storePollResults d nextReqIdx timeNowUs pollResult pause :
    reachable d -> OfflineDataStore.is_u64 timeNowUs -> _offlineSeq d < UINT32_MAX ->
    reachable (snd (storePollResults d nextReqIdx timeNowUs pollResult pause))
| reach_configureOfflineBuffer d me ps tb tr :
    reachable d ->
    OfflineDataStore.is_u32 me -> OfflineDataStore.is_u32 ps ->
    OfflineDataStore.is_u32 tb -> OfflineDataStore.is_u32 tr ->
    reachable (configureOfflineBuffer d me ps tb tr)
| reach_clearOfflineBuffer d :
    reachable d -> reachable (clearOfflineBuffer d)
| reach_setOfflineBufferPaused d paused :
    reachable d -> reachable (setOfflineBufferPaused d paused)
| reach_setOfflineDrainPaused d paused :
    reachable d -> reachable (setOfflineDrainPaused d paused)
| reach_setOfflineSeq d n :
    reachable d -> OfflineDataStore._nextSeq (offlineData d) <= n < 2 ^ 32 ->
    reachable (setOfflineSeq d n)
| reach_getOfflineResponses d data0 rs0 maxResp metas0 :
    reachable d -> OfflineDataStore.is_u32 rs0 -> OfflineDataStore.is_u32 maxResp ->
    reachable (snd (getOfflineResponses d data0 rs0 maxResp metas0))
| reach_peekOfflineResponses d data0 rs0 startIdx maxResp maxBytes metas0 :
    reachable d -> OfflineDataStore.is_u32 rs0 -> OfflineDataStore.is_u32 startIdx ->
    OfflineDataStore.is_u32 maxResp -> OfflineDataStore.is_u32 maxBytes ->
    reachable (snd (peekOfflineResponses d data0 rs0 startIdx maxResp maxBytes metas0)).

End Drain.

End DeviceStatus.
(** ** DeviceManager (DeviceManager.cpp): the frozen device list and the state hash *)

Module DeviceManager.

Section DeviceList.

Context {D : Type}.

(** The loop of [getDeviceListFrozen] over [_deviceList], whose entries
    may be null pointers; [numDevices] counts the devices copied so far
    and the loop is left when it has reached [maxDevices]. *)
Fixpoint getDeviceListFrozen_loop (deviceList : list (option D))
    (maxDevices numDevices : Z) : list D :=
  match deviceList with
  | [] => []
  | pDevice :: rest =>
      if maxDevices <=? numDevices then []
      else
        match pDevice with
        | Some dev => dev :: getDeviceListFrozen_loop rest maxDevices (u32 (numDevices + 1))
        | None => getDeviceListFrozen_loop rest maxDevices numDevices
        end
  end.

(** [uint32_t getDeviceListFrozen(RaftDevice** pDevices, uint32_t maxDevices)
    const]: the devices copied into [pDevices], in order; the return value
    is their number.  [mutexTaken] tells whether [xSemaphoreTake] obtained
    the access mutex within its 5 ms. *)
Definition getDeviceListFrozen (mutexTaken : bool) (deviceList : list (option D))
    (maxDevices : Z) : list D :=
  if negb mutexTaken then [] else getDeviceListFrozen_loop deviceList maxDevices 0.

End DeviceList.



End DeviceManager.

(** * Properties *)

(** ** Machine integers *)

Lemma u32_small x : 0 <= x < 2 ^ 32 -> u32 x = x.
Proof. intros H. unfold u32, wrap. now apply Z.mod_small. Qed.

Lemma u64_small x : 0 <= x < 2 ^ 64 -> u64 x = x.
Proof. intros H. unfold u64, wrap. now apply Z.mod_small. Qed.

Lemma u32_range x : 0 <= u32 x < 2 ^ 32.
Proof. unfold u32, wrap. apply Z.mod_pos_bound. lia. Qed.

Lemma u64_range x : 0 <= u64 x < 2 ^ 64.
Proof. unfold u64, wrap. apply Z.mod_pos_bound. lia. Qed.

Lemma u16_range x : 0 <= u16 x < 2 ^ 16.
Proof. unfold u16, wrap. apply Z.mod_pos_bound. lia. Qed.

Lemma to_int8_small x : -128 <= x <= 127 -> to_int8 x = x.
Proof. intros H. unfold to_int8. rewrite Z.mod_small; lia. Qed.

(** ** BusAddrStatus *)

Section AddrStatus.

Import BusAddrStatus.

Lemma now_online_set_count s c : now_online (set_count s c) = now_online s.
Proof. reflexivity. Qed.

(** One responding observation below the threshold only counts up. *)
Lemma handleResponding_counting s spur okMax failMax :
  isOnline s = false -> 0 <= count s -> count s + 1 < okMax -> okMax <= 128 ->
  handleResponding s true spur okMax failMax = (false, spur, set_count s (count s + 1)).
Proof.
  intros Hoff Hc Hlt Hmax. unfold handleResponding. rewrite Hoff. cbn [negb].
  rewrite (u32_small (count s)) by lia.
  destruct (Z.ltb_spec (count s) okMax) as [_|]; [|lia].
  rewrite to_int8_small by lia. rewrite u32_small by lia.
  destruct (Z.leb_spec okMax (count s + 1)); [lia|reflexivity].
Qed.

(** The responding observation that reaches the threshold switches online. *)
Lemma handleResponding_reaching s spur okMax failMax :
  isOnline s = false -> 0 <= count s -> count s + 1 = okMax -> okMax <= 128 ->
  handleResponding s true spur okMax failMax = (true, spur, now_online s).
Proof.
  intros Hoff Hc Heq Hmax. unfold handleResponding. rewrite Hoff. cbn [negb].
  rewrite (u32_small (count s)) by lia.
  destruct (Z.ltb_spec (count s) okMax) as [_|]; [|lia].
  assert (Hge : okMax <= u32 (to_int8 (count s + 1))).
  { destruct (Z.eq_dec okMax 128) as [E|NE].
    - replace (count s + 1) with 128 by lia. rewrite E. vm_compute. discriminate.
    - rewrite to_int8_small by lia. rewrite u32_small by lia. lia. }
  destruct (Z.leb_spec okMax (u32 (to_int8 (count s + 1)))); [reflexivity|lia].
Qed.

Lemma observeN_online_from s okMax failMax (n : nat) :
  isOnline s = false -> 0 <= count s ->
  count s + Z.of_nat (S n) = okMax -> okMax <= 128 ->
  observeN (S n) s true okMax failMax
  = (replicate n (false, false) ++ [(true, false)], now_online s).
Proof.
  revert s. induction n as [|n IH]; intros s Hoff Hc Heq Hmax.
  - cbn [observeN]. rewrite handleResponding_reaching by (assumption || lia). reflexivity.
  - change (observeN (S (S n)) s true okMax failMax)
      with (let '(changed, spurious, s1) := handleResponding s true false okMax failMax in
            let '(rest, s2) := observeN (S n) s1 true okMax failMax in
            ((changed, spurious) :: rest, s2)).
    rewrite handleResponding_counting by (assumption || lia).
    rewrite IH; [reflexivity| assumption | cbn; lia | cbn; lia | lia].
Qed.

(** A non-responding observation made with a non-negative count switches
    offline at once: as [uint32_t], the count is below [-failMax], so it is
    neither decremented nor above the threshold. *)
Lemma handleResponding_not_responding_nonneg s spur okMax failMax :
  isOnline s || negb (wasOnceOnline s) || flagForDeletion s = true ->
  0 <= count s <= 127 -> 1 <= failMax <= 2 ^ 32 - 128 ->
  handleResponding s false spur okMax failMax
  = (true, (if negb (wasOnceOnline s) || flagForDeletion s then true else spur),
     now_offline s (negb (wasOnceOnline s) || flagForDeletion s)).
Proof.
  intros Hcond Hc Hf. unfold handleResponding. rewrite Hcond.
  assert (Hneg : neg_u32 failMax = 2 ^ 32 - failMax).
  { unfold neg_u32, u32, wrap. symmetry. apply (Z.mod_unique _ _ (-1)); lia. }
  rewrite Hneg. rewrite (u32_small (count s)) by lia.
  destruct (Z.ltb_spec (count s) (2 ^ 32 - failMax)); [|lia].
  rewrite (u32_small (count s)) by lia.
  destruct (Z.leb_spec (count s) (2 ^ 32 - failMax)); [reflexivity|lia].
Qed.

(** C3 (evaluation at the failing input).  On a default-constructed
    [BusAddrStatus] (never online, count 0) with the default thresholds
    [okMax = 2], [failMax = 3], the first [handleResponding(false, ...)]
    already returns [true] with the spurious flag set, leaves the count at 0
    without decrementing it and flags the record for deletion; three
    successive calls report the transition three times, not only on
    the third. *)
Theorem handleResponding_offline_on_first_failure :
  handleResponding default false false
    ADDR_RESP_COUNT_OK_MAX_DEFAULT ADDR_RESP_COUNT_FAIL_MAX_DEFAULT
  = (true, true, now_offline default true)
  /\ count (now_offline default true) = 0
  /\ flagForDeletion (now_offline default true) = true
  /\ fst (observeN 3 default false
            ADDR_RESP_COUNT_OK_MAX_DEFAULT ADDR_RESP_COUNT_FAIL_MAX_DEFAULT)
     = [(true, true); (true, true); (true, true)].
Proof. repeat split; vm_compute; reflexivity. Qed.

(** C4 (as stated, refuted).  With [okMax = 200] the 8-bit counter wraps:
    of 200 responding observations from the Initial state it is the 128th
    that reports the change, and the 200th reports none. *)
Lemma handleResponding_online_okMax200_counterexample :
  map fst (fst (observeN 200 default true 200 ADDR_RESP_COUNT_FAIL_MAX_DEFAULT))
  <> replicate 199 false ++ [true].
Proof.
  intros H. apply (f_equal (fun l => l !! 127%nat)) in H.
  vm_compute in H. discriminate H.
Qed.

(** C4 (amended).  From a state with count 0 that is not online, and for
    [1 <= okMax <= 128], [okMax] successive [handleResponding(true, ...)]
    calls return [false] on every call before the [okMax]-th and [true] on
    the [okMax]-th, never touch the spurious flag, and leave
    [isOnline = true], [wasOnceOnline = true], [flagForDeletion = false]
    and [count = 0]. *)
Theorem handleResponding_online_on_okMax_th (s : t) (n : nat) (okMax failMax : Z)
    (Hcount : count s = 0) (Hoff : isOnline s = false)
    (Hn : okMax = Z.of_nat (S n)) (Hmax : okMax <= 128) :
  let '(results, s') := observeN (S n) s true okMax failMax in
  results = replicate n (false, false) ++ [(true, false)]
  /\ isOnline s' = true /\ wasOnceOnline s' = true
  /\ flagForDeletion s' = false /\ count s' = 0
  /\ onlineState s' = ONLINE.
Proof.
  rewrite observeN_online_from by (try assumption; lia).
  repeat split.
Qed.

Lemma handleResponding_online_on_okMax_th_witness :
  let '(results, s') := observeN 2 default true 2 3 in
  results = replicate 1 (false, false) ++ [(true, false)]
  /\ isOnline s' = true /\ wasOnceOnline s' = true
  /\ flagForDeletion s' = false /\ count s' = 0
  /\ onlineState s' = ONLINE.
Proof.
  apply (handleResponding_online_on_okMax_th default 1 2 3);
    [reflexivity | reflexivity | reflexivity | lia].
Defined.

End AddrStatus.
(** ** OfflineDataStore *)

Section RingBuffer.

Import OfflineDataStore.

(** *** Byte buffers *)

Lemma slice_lookup (buf : list byte) (off len : Z) (i : nat) :
  slice buf off len !! i
  = if decide (i < Z.to_nat len)%nat then buf !! (Z.to_nat off + i)%nat else None.
Proof. unfold slice. rewrite lookup_take, lookup_drop. reflexivity. Qed.

Lemma memcpy_at_length (buf : list byte) (off : Z) (src : list byte) :
  length (memcpy_at buf off src) = length buf.
Proof.
  unfold memcpy_at. rewrite length_take, !length_app, length_take, length_drop. lia.
Qed.

Lemma memcpy_at_lookup (buf : list byte) (off : Z) (src : list byte) (j : nat) :
  (Z.to_nat off + length src <= length buf)%nat ->
  memcpy_at buf off src !! j
  = if decide (j < Z.to_nat off)%nat then buf !! j
    else if decide (j < Z.to_nat off + length src)%nat then src !! (j - Z.to_nat off)%nat
    else buf !! j.
Proof.
  intros Hfit. unfold memcpy_at.
  destruct (decide (j < length buf)%nat) as [Hj|Hj].
  - rewrite lookup_take_lt by assumption.
    destruct (decide (j < Z.to_nat off)%nat) as [H1|H1].
    + rewrite lookup_app_l by (rewrite length_take; lia).
      now rewrite lookup_take_lt.
    + rewrite lookup_app_r by (rewrite length_take; lia).
      rewrite length_take. replace (Z.to_nat off `min` length buf)%nat with (Z.to_nat off) by lia.
      destruct (decide (j < Z.to_nat off + length src)%nat) as [H2|H2].
      * now rewrite lookup_app_l by lia.
      * rewrite lookup_app_r by lia. rewrite lookup_drop. f_equal. lia.
  - rewrite lookup_take_ge by lia.
    assert (buf !! j = None) as -> by (apply lookup_ge_None; lia).
    repeat case_decide; try reflexivity; lia.
Qed.

(** Reading back the block just written, and any other aligned block. *)
Lemma slice_memcpy_at (buf data : list byte) (ps head idx nslots : Z) :
  0 <= head < nslots -> 0 <= idx < nslots -> 0 <= ps ->
  length buf = Z.to_nat (nslots * ps) -> length data = Z.to_nat ps ->
  slice (memcpy_at buf (head * ps) data) (idx * ps) ps
  = if decide (idx = head) then data else slice buf (idx * ps) ps.
Proof.
  intros Hh Hi Hps Hbuf Hdata.
  rewrite Z2Nat.inj_mul in Hbuf by lia.
  assert (Hfit : (Z.to_nat (head * ps) + length data <= length buf)%nat).
  { rewrite Hbuf, Hdata, Z2Nat.inj_mul by lia. nia. }
  assert (Hcmp : idx = head \/ (Z.to_nat idx + 1 <= Z.to_nat head)%nat
                 \/ (Z.to_nat head + 1 <= Z.to_nat idx)%nat) by lia.
  apply list_eq. intros i. rewrite slice_lookup.
  destruct (decide (idx = head)) as [->|Hne].
  - case_decide; [|symmetry; apply lookup_ge_None; lia].
    rewrite memcpy_at_lookup by assumption. rewrite Hdata.
    rewrite decide_False by lia. rewrite decide_True by lia. f_equal. lia.
  - rewrite slice_lookup. case_decide; [|reflexivity].
    rewrite memcpy_at_lookup by assumption. rewrite Hdata.
    rewrite !Z2Nat.inj_mul by lia.
    destruct Hcmp as [?|[Hlt|Hgt]]; [contradiction| |].
    + rewrite decide_True by nia. reflexivity.
    + rewrite decide_False by nia. rewrite decide_False by nia. reflexivity.
Qed.

Lemma byte_val_range b : 0 <= byte_val b < 256.
Proof. unfold byte_val. pose proof (Byte.to_N_bounded b). lia. Qed.

Lemma getBEUInt16_range p : 0 <= getBEUInt16 p < 65536.
Proof.
  unfold getBEUInt16. destruct p as [|b0 [|b1 p]]; try lia.
  pose proof (byte_val_range b0). pose proof (byte_val_range b1). lia.
Qed.

Lemma tsField_range tb data : 0 <= tsField tb data < tsBound tb.
Proof.
  unfold tsField, tsBound.
  destruct (tb =? 1).
  { destruct data as [|b ?]; [lia | apply byte_val_range]. }
  destruct (tb =? 2); [apply getBEUInt16_range|].
  destruct (tb =? 4); [apply u16_range | lia].
Qed.

(** *** Ring indices *)

Lemma mod_below_twice x m :
  0 < m -> 0 <= x < 2 * m -> x mod m = if x <? m then x else x - m.
Proof.
  intros Hm Hx. destruct (Z.ltb_spec x m).
  - apply Z.mod_small. lia.
  - symmetry. apply (Z.mod_unique _ _ 1); lia.
Qed.

Lemma slotOf_eq s (k : nat) :
  wf s -> Z.of_nat k < _count s ->
  slotOf s k = if _headIdx s + Z.of_nat k <? _count s
               then _headIdx s + _maxEntries s - _count s + Z.of_nat k
               else _headIdx s + Z.of_nat k - _count s.
Proof.
  intros ((Hm & Hc & Hh0 & Hh & _) & Hm31 & _) Hk. unfold slotOf.
  rewrite u32_small by lia. rewrite mod_below_twice by lia.
  destruct (Z.ltb_spec (_headIdx s + Z.of_nat k) (_count s));
    destruct (Z.ltb_spec (_headIdx s + _maxEntries s - _count s + Z.of_nat k) (_maxEntries s));
    lia.
Qed.

Lemma slotOf_range s (k : nat) :
  wf s -> Z.of_nat k < _count s -> 0 <= slotOf s k < _maxEntries s.
Proof.
  intros Hwf Hk. rewrite slotOf_eq by assumption.
  destruct Hwf as ((Hm & Hc & Hh0 & Hh & _) & _).
  destruct (Z.ltb_spec (_headIdx s + Z.of_nat k) (_count s)); lia.
Qed.

Lemma entries_length s : length (entries s) = Z.to_nat (_count s).
Proof. unfold entries. rewrite length_fmap, length_seq. reflexivity. Qed.

Lemma entries_lookup s (k : nat) :
  Z.of_nat k < _count s -> entries s !! k = Some (slot s (slotOf s k)).
Proof.
  intros Hk. unfold entries. rewrite list_lookup_fmap.
  rewrite lookup_seq_lt by lia. reflexivity.
Qed.

Lemma put_accepted s t q d :
  fst (put s t q d) = true <->
  isConfigured s = true /\ Z.of_nat (length d) = _payloadSize s.
Proof.
  unfold put. destruct (isConfigured s); cbn [negb orb].
  - destruct (Z.eqb_spec (Z.of_nat (length d)) (_payloadSize s)); cbn; intuition congruence.
  - cbn. intuition congruence.
Qed.

Lemma isConfigured_true s :
  isConfigured s = true <-> 0 < _maxEntries s /\ 0 < _payloadSize s.
Proof. unfold isConfigured. rewrite andb_true_iff, !Z.ltb_lt. reflexivity. Qed.

Ltac put_unfold Hacc :=
  let Hcfg := fresh "Hcfg" in
  let Hlen := fresh "Hlen" in
  pose proof (proj1 (put_accepted _ _ _ _) Hacc) as [Hcfg Hlen];
  unfold put; rewrite Hcfg, (proj2 (Z.eqb_eq _ _) Hlen); cbn [negb orb snd fst].

Lemma slot_put s t q d idx :
  wf s -> fst (put s t q d) = true -> 0 <= idx < _maxEntries s ->
  slot (snd (put s t q d)) idx
  = if decide (idx = _headIdx s) then (d, u32 (put_adjustedTsMs s t d)) else slot s idx.
Proof.
  intros ((Hm & Hc & Hh0 & Hh & _) & Hm31 & Hps & Hbytes & Hring & Hadj) Hacc Hidx.
  put_unfold Hacc. apply isConfigured_true in Hcfg as [Hmax Hpos].
  unfold slot. cbn [_ringBuffer _adjTimestampMs _payloadSize].
  rewrite !u32_small by nia.
  rewrite (slice_memcpy_at _ _ _ _ _ (_maxEntries s)) by lia.
  rewrite nth_lookup, list_lookup_insert.
  destruct (decide (idx = _headIdx s)) as [->|Hne].
  - rewrite decide_True by (split; [reflexivity | lia]). reflexivity.
  - rewrite decide_False by lia. rewrite <- nth_lookup. reflexivity.
Qed.

Lemma put_count s t q d :
  fst (put s t q d) = true ->
  _count (snd (put s t q d))
  = if _count s <? _maxEntries s then u32 (_count s + 1) else _count s.
Proof.
  intros Hacc. put_unfold Hacc. cbn [_count].
  destruct (_count s <? _maxEntries s); reflexivity.
Qed.

Lemma put_drops s t q d :
  fst (put s t q d) = true ->
  _drops (snd (put s t q d))
  = if _count s <? _maxEntries s then _drops s else u32 (_drops s + 1).
Proof.
  intros Hacc. put_unfold Hacc. cbn [_drops].
  destruct (_count s <? _maxEntries s); reflexivity.
Qed.

Lemma put_headIdx s t q d :
  fst (put s t q d) = true ->
  _headIdx (snd (put s t q d)) = u32 (_headIdx s + 1) mod _maxEntries s.
Proof. intros Hacc. put_unfold Hacc. reflexivity. Qed.

Lemma put_nextSeq s t q d :
  fst (put s t q d) = true -> _nextSeq (snd (put s t q d)) = u32 (q + 1).
Proof. intros Hacc. put_unfold Hacc. reflexivity. Qed.

Lemma put_config s t q d :
  _maxEntries (snd (put s t q d)) = _maxEntries s
  /\ _payloadSize (snd (put s t q d)) = _payloadSize s
  /\ _timestampBytes (snd (put s t q d)) = _timestampBytes s
  /\ _timestampResolutionUs (snd (put s t q d)) = _timestampResolutionUs s
  /\ _timestampWrapMs (snd (put s t q d)) = _timestampWrapMs s
  /\ length (_ringBuffer (snd (put s t q d))) = length (_ringBuffer s)
  /\ length (_adjTimestampMs (snd (put s t q d))) = length (_adjTimestampMs s).
Proof.
  unfold put.
  destruct (negb (isConfigured s) || negb (Z.of_nat (length d) =? _payloadSize s));
    cbn [snd _maxEntries _payloadSize _timestampBytes _timestampResolutionUs
         _timestampWrapMs _ringBuffer _adjTimestampMs];
    rewrite ?memcpy_at_length, ?length_insert; repeat split.
Qed.

Lemma put_rejected s t q d :
  fst (put s t q d) = false -> put s t q d = (false, s).
Proof.
  unfold put.
  destruct (negb (isConfigured s) || negb (Z.of_nat (length d) =? _payloadSize s));
    [reflexivity | discriminate].
Qed.

Lemma head_step s :
  wf s -> 0 < _maxEntries s ->
  u32 (_headIdx s + 1) mod _maxEntries s
  = if _headIdx s + 1 <? _maxEntries s then _headIdx s + 1 else 0.
Proof.
  intros ((Hm & Hc & Hh0 & Hh & _) & Hm31 & _) Hmax.
  rewrite u32_small by lia. rewrite mod_below_twice by lia.
  destruct (Z.ltb_spec (_headIdx s + 1) (_maxEntries s)); lia.
Qed.

(** An accepted put appends to the queue, evicting the oldest entry when
    the ring is full. *)
Lemma entries_put s t q d :
  wf s -> fst (put s t q d) = true ->
  entries (snd (put s t q d))
  = (if _count s <? _maxEntries s then entries s else drop 1 (entries s))
    ++ [(d, u32 (put_adjustedTsMs s t d))].
Proof.
  intros Hwf Hacc.
  pose proof Hwf as ((Hm & Hc & Hh0 & Hh & _) & Hm31 & _).
  pose proof (proj1 (put_accepted _ _ _ _) Hacc) as [Hcfg _].
  apply isConfigured_true in Hcfg as [Hmax _].
  specialize (Hh Hmax).
  set (s' := snd (put s t q d)).
  assert (Hc' : _count s' = if _count s <? _maxEntries s then _count s + 1 else _count s).
  { unfold s'. rewrite put_count by assumption.
    destruct (Z.ltb_spec (_count s) (_maxEntries s)); [apply u32_small; lia | reflexivity]. }
  assert (Hh' : _headIdx s' = if _headIdx s + 1 <? _maxEntries s then _headIdx s + 1 else 0).
  { unfold s'. rewrite put_headIdx by assumption. now apply head_step. }
  assert (Hm' : _maxEntries s' = _maxEntries s) by apply put_config.
  assert (Hslot' : forall k : nat, Z.of_nat k < _count s' ->
            slotOf s' k
            = if _headIdx s' + Z.of_nat k <? _count s'
              then _headIdx s' + _maxEntries s - _count s' + Z.of_nat k
              else _headIdx s' + Z.of_nat k - _count s').
  { intros k Hk. unfold slotOf. rewrite Hm'.
    assert (0 <= _headIdx s' < _maxEntries s)
      by (rewrite Hh'; destruct (_headIdx s + 1 <? _maxEntries s) eqn:E;
          [apply Z.ltb_lt in E|]; lia).
    assert (_count s' <= _maxEntries s)
      by (rewrite Hc'; destruct (Z.ltb_spec (_count s) (_maxEntries s)); lia).
    rewrite u32_small by lia. rewrite mod_below_twice by lia.
    destruct (Z.ltb_spec (_headIdx s' + Z.of_nat k) (_count s'));
      destruct (Z.ltb_spec (_headIdx s' + _maxEntries s - _count s' + Z.of_nat k)
                           (_maxEntries s)); lia. }
  apply list_eq. intros k.
  destruct (decide (Z.of_nat k < _count s')) as [Hk|Hk].
  2:{ rewrite (proj2 (lookup_ge_None _ _)) by (rewrite entries_length; lia).
      symmetry. apply lookup_ge_None.
      rewrite length_app. cbn [length].
      destruct (Z.ltb_spec (_count s) (_maxEntries s));
        rewrite ?length_drop, entries_length; rewrite Hc' in Hk;
        destruct (Z.ltb_spec (_count s) (_maxEntries s)); lia. }
  rewrite entries_lookup by assumption.
  assert (Hrange : 0 <= slotOf s' k < _maxEntries s).
  { rewrite Hslot' by assumption. revert Hk. rewrite Hc', Hh'.
    destruct (Z.ltb_spec (_count s) (_maxEntries s));
      destruct (Z.ltb_spec (_headIdx s + 1) (_maxEntries s)); intros Hk;
      match goal with |- context [?a <? ?b] => destruct (Z.ltb_spec a b) end; lia. }
  unfold s' at 1. rewrite slot_put by assumption. fold s'.
  pose proof (Hslot' k Hk) as Hsk. rewrite Hsk in Hrange |- *. clear Hsk Hslot'.
  revert Hk Hrange. rewrite Hc', Hh'.
  destruct (Z.ltb_spec (_count s) (_maxEntries s)) as [Hlt|Hfull]; intros Hk Hrange.
  - (* room left: the old entries keep their place *)
    destruct (decide (Z.of_nat k < _count s)) as [Hold|Hnew].
    + rewrite lookup_app_l by (rewrite entries_length; lia).
      rewrite entries_lookup by assumption. rewrite slotOf_eq by assumption.
      rewrite decide_False; [do 2 f_equal|];
        destruct (Z.ltb_spec (_headIdx s + 1) (_maxEntries s));
        repeat match goal with |- context [?a <? ?b] => destruct (Z.ltb_spec a b) end; lia.
    + rewrite lookup_app_r by (rewrite entries_length; lia).
      rewrite entries_length. replace (k - Z.to_nat (_count s))%nat with 0%nat by lia.
      rewrite decide_True; [reflexivity|].
      destruct (Z.ltb_spec (_headIdx s + 1) (_maxEntries s));
        repeat match goal with |- context [?a <? ?b] => destruct (Z.ltb_spec a b) end; lia.
  - (* full: the slot at the head held the oldest entry *)
    assert (Hcm : _count s = _maxEntries s) by lia.
    destruct (decide (Z.of_nat k + 1 < _count s)) as [Hold|Hnew].
    + rewrite lookup_app_l by (rewrite length_drop, entries_length; lia).
      rewrite lookup_drop. rewrite entries_lookup by lia.
      rewrite slotOf_eq by (assumption || lia).
      rewrite decide_False; [do 2 f_equal|];
        destruct (Z.ltb_spec (_headIdx s + 1) (_maxEntries s));
        repeat match goal with |- context [?a <? ?b] => destruct (Z.ltb_spec a b) end; lia.
    + rewrite lookup_app_r by (rewrite length_drop, entries_length; lia).
      rewrite length_drop, entries_length.
      replace (k - (Z.to_nat (_count s) - 1))%nat with 0%nat by lia.
      rewrite decide_True; [reflexivity|].
      destruct (Z.ltb_spec (_headIdx s + 1) (_maxEntries s));
        repeat match goal with |- context [?a <? ?b] => destruct (Z.ltb_spec a b) end; lia.
Qed.

Lemma slotOf_set_count s (n k : nat) :
  slotOf (set_count s (_count s - Z.of_nat n)) k = slotOf s (n + k).
Proof. unfold slotOf. cbn [_headIdx _maxEntries _count set_count]. do 2 f_equal. lia. Qed.

(** Consuming [n] entries removes the [n] oldest. *)
Lemma entries_set_count s (n : nat) :
  Z.of_nat n <= _count s ->
  entries (set_count s (_count s - Z.of_nat n)) = drop n (entries s).
Proof.
  intros Hn. apply list_eq. intros k. rewrite lookup_drop.
  destruct (decide (Z.of_nat (n + k) < _count s)) as [Hk|Hk].
  - rewrite !entries_lookup by (cbn [_count set_count]; lia).
    rewrite slotOf_set_count. reflexivity.
  - rewrite !(proj2 (lookup_ge_None _ _));
      [reflexivity | rewrite entries_length; lia
       | rewrite entries_length; cbn [_count set_count]; lia].
Qed.

Lemma slotOf_succ s (k : nat) :
  wf s -> 0 < _maxEntries s -> Z.of_nat k < _count s ->
  u32 (slotOf s k + 1) mod _maxEntries s = slotOf s (S k).
Proof.
  intros Hwf Hmax Hk.
  pose proof (slotOf_range s k Hwf Hk) as Hr.
  destruct Hwf as ((Hm & Hc & Hh0 & Hh & _) & Hm31 & _).
  rewrite u32_small by lia. unfold slotOf.
  rewrite !u32_small by lia.
  rewrite Z.add_mod_idemp_l by lia. f_equal. lia.
Qed.

Lemma get_meta_slot s q idx : get_meta s q idx = entry_meta s q (slot s idx).
Proof. reflexivity. Qed.

(** The copy loop walks the queue from the [k]-th oldest entry on. *)
Lemma get_loop_entries s q (n : nat) : forall (i : Z) (k : nat),
  wf s -> 0 < _maxEntries s -> Z.of_nat (k + n) <= _count s ->
  get_loop s q n i (slotOf s k)
  = (concat (fst <$> take n (drop k (entries s))),
     imap (fun j e => entry_meta s (u32 (q + (i + Z.of_nat j))) e)
          (take n (drop k (entries s)))).
Proof.
  induction n as [|n IH]; intros i k Hwf Hmax Hk.
  - reflexivity.
  - cbn [get_loop]. rewrite slotOf_succ by (assumption || lia).
    rewrite IH by (assumption || lia).
    rewrite (drop_S (entries s) (slot s (slotOf s k)) k) by (apply entries_lookup; lia).
    cbn [take fmap list_fmap concat imap]. rewrite get_meta_slot.
    f_equal. f_equal.
    + do 3 f_equal. lia.
    + apply imap_ext. intros j e _. cbn. do 3 f_equal. lia.
Qed.

Lemma get_loop_length s q (n : nat) : forall i tailIdx,
  length (snd (get_loop s q n i tailIdx)) = n.
Proof.
  induction n as [|n IH]; intros i tailIdx; [reflexivity|].
  cbn [get_loop]. specialize (IH (i + 1) (u32 (tailIdx + 1) mod _maxEntries s)).
  destruct (get_loop s q n (i + 1) (u32 (tailIdx + 1) mod _maxEntries s)).
  cbn [snd length] in *. now rewrite IH.
Qed.

(** What a call to [get] can do: nothing, or hand out [n] entries starting
    with the [k]-th oldest. *)
Lemma get_cases s rs maxResp cons startIdx maxBytes :
  bounded s -> is_u32 maxResp -> is_u32 startIdx -> is_u32 maxBytes ->
  let r := get s rs maxResp cons startIdx maxBytes in
  (get_ret r = 0 /\ get_metas r = [] /\ get_data r = [] /\ get_store r = s)
  \/ (exists k n : nat,
        isConfigured s = true /\ (0 < n)%nat /\ Z.of_nat (k + n) <= _count s
        /\ Z.of_nat k = (if cons && (0 <? startIdx) then 0 else startIdx)
        /\ get_ret r = Z.of_nat n
        /\ (get_data r, get_metas r)
           = get_loop s (if _count s <? _nextSeq s
                         then u32 (_nextSeq s - _count s + Z.of_nat k) else Z.of_nat k)
                      n 0 (slotOf s k)
        /\ get_store r = (if cons then set_count s (_count s - Z.of_nat n) else s)).
Proof.
  intros (Hm & Hc & Hh0 & Hh & Hcfg0) HmaxResp Hstart HmaxBytes. unfold is_u32 in *.
  cbv zeta. unfold get.
  destruct (isConfigured s) eqn:Hcfg; cbn [negb]; [|left; repeat split].
  set (st := if cons && (0 <? startIdx) then 0 else startIdx).
  assert (Hst : 0 <= st) by (unfold st; destruct (cons && (0 <? startIdx)); lia).
  destruct ((_count s =? 0) || (_count s <=? st)) eqn:Hempty; [left; repeat split|].
  apply orb_false_iff in Hempty as [Hne Hlt].
  apply Z.eqb_neq in Hne. apply Z.leb_gt in Hlt.
  set (n1 := if (maxResp =? 0) || (_count s - st <? maxResp) then _count s - st else maxResp).
  assert (Hn1 : 0 < n1 <= _count s - st).
  { unfold n1. destruct (Z.eqb_spec maxResp 0); cbn [orb]; [lia|].
    destruct (Z.ltb_spec (_count s - st) maxResp); lia. }
  set (mfb := if u32 (_payloadSize s + META_STORAGE_BYTES) =? 0 then 0
              else maxBytes / u32 (_payloadSize s + META_STORAGE_BYTES)).
  destruct ((0 <? maxBytes) && (mfb =? 0)) eqn:Hcap; [left; repeat split|].
  set (n2 := if (0 <? maxBytes) && (mfb <? n1) then mfb else n1).
  assert (Hn2 : 0 < n2 <= _count s - st).
  { unfold n2. destruct (Z.ltb_spec 0 maxBytes); cbn [andb] in *; [|lia].
    apply Z.eqb_neq in Hcap.
    assert (0 <= mfb).
    { unfold mfb. destruct (Z.eqb_spec (u32 (_payloadSize s + META_STORAGE_BYTES)) 0); [lia|].
      pose proof (u32_range (_payloadSize s + META_STORAGE_BYTES)).
      apply Z.div_pos; lia. }
    destruct (Z.ltb_spec mfb n1); lia. }
  destruct (Z.eqb_spec n2 0); [lia|].
  right. exists (Z.to_nat st), (Z.to_nat n2).
  rewrite !Z2Nat.id by lia.
  replace (u32 (_headIdx s + _maxEntries s - _count s + st) mod _maxEntries s)
    with (slotOf s (Z.to_nat st))
    by (unfold slotOf; now rewrite Z2Nat.id by lia).
  destruct (get_loop s _ (Z.to_nat n2) 0 (slotOf s (Z.to_nat st))) as [d ms] eqn:Hloop.
  cbn [get_ret get_data get_metas get_store].
  repeat split; try lia.
Qed.

(** *** Index bounds in every reachable state *)

Lemma bounded_set_count s c :
  bounded s -> 0 <= c <= _count s -> isConfigured s = true -> bounded (set_count s c).
Proof.
  intros (Hm & Hc & Hh0 & Hh & Hcfg0) Hc' Hcfg. unfold bounded, is_u32 in *.
  cbn [_maxEntries _count _headIdx _nextSeq set_count].
  change (isConfigured (set_count s c)) with (isConfigured s).
  repeat split; try lia; try assumption; intros; congruence.
Qed.

Lemma bounded_put s t q d : bounded s -> bounded (snd (put s t q d)).
Proof.
  intros Hb. destruct (fst (put s t q d)) eqn:Hacc.
  2:{ now rewrite put_rejected. }
  pose proof Hb as (Hm & Hc & Hh0 & Hh & Hcfg0). unfold is_u32 in Hm.
  pose proof (proj1 (put_accepted _ _ _ _) Hacc) as [Hcfg _].
  pose proof (proj1 (isConfigured_true _) Hcfg) as [Hmax Hps].
  unfold bounded. rewrite put_count, put_headIdx by assumption.
  destruct (put_config s t q d) as (-> & Hps' & _).
  assert (isConfigured (snd (put s t q d)) = true) as ->.
  { apply isConfigured_true. destruct (put_config s t q d) as (-> & -> & _). lia. }
  pose proof (Z.mod_pos_bound (u32 (_headIdx s + 1)) (_maxEntries s) Hmax).
  unfold is_u32.
  destruct (Z.ltb_spec (_count s) (_maxEntries s));
    rewrite ?(u32_small (_count s + 1)) by lia;
    repeat split; try lia; try discriminate.
Qed.

Lemma bounded_get s rs maxResp cons startIdx maxBytes :
  bounded s -> is_u32 maxResp -> is_u32 startIdx -> is_u32 maxBytes ->
  bounded (get_store (get s rs maxResp cons startIdx maxBytes)).
Proof.
  intros Hb H1 H2 H3.
  destruct (get_cases s rs maxResp cons startIdx maxBytes Hb H1 H2 H3)
    as [(_ & _ & _ & ->)|(k & n & Hcfg & Hn & Hkn & _ & _ & _ & ->)]; [assumption|].
  destruct cons; [|assumption].
  apply bounded_set_count; [assumption | lia | assumption].
Qed.

Lemma bounded_consume s n : bounded s -> is_u32 n -> bounded (snd (consume s n)).
Proof.
  intros Hb Hn. unfold consume, is_u32 in *.
  destruct (isConfigured s) eqn:Hcfg; cbn [negb snd]; [|assumption].
  pose proof Hb as (_ & Hc & _).
  apply bounded_set_count; [assumption | destruct (Z.ltb_spec (_count s) n); lia | assumption].
Qed.

Lemma reachable_bounded okInit okPut s : reachable okInit okPut s -> bounded s.
Proof.
  induction 1 as [|s me ps tb tr _ IH Hme Hps _ _ _|s _ IH|s t q d _ IH _ _ _
                 |s rs mr cs st mb _ IH _ Hmr Hst Hmb|s n _ IH Hn].
  - unfold bounded, is_u32. cbn [default _maxEntries _count _headIdx _nextSeq].
    repeat split; intros; lia.
  - unfold bounded, is_u32 in *. cbn [init _maxEntries _count _headIdx _nextSeq].
    repeat split; intros; lia.
  - destruct IH as (Hm & Hc & Hh0 & Hh & Hcfg0).
    unfold bounded, is_u32 in *. cbn [clear _maxEntries _count _headIdx _nextSeq].
    repeat split; intros; lia.
  - now apply bounded_put.
  - now apply bounded_get.
  - now apply bounded_consume.
Qed.

(** C7.  In every state reachable from a default-constructed store by
    [init], [put], [get], [consume] and [clear] calls (with arguments of
    their C++ types), [0 <= count <= maxEntries], the head index is below
    [maxEntries] whenever that is positive, and a [get] without response
    cap, byte cap or start offset returns exactly [count] entries, whether
    it consumes them or not. *)
Theorem ring_count_bounded_and_get_all (s : t) (Hreach : reachable anyInit anyPut s) :
  0 <= _count s <= _maxEntries s
  /\ (0 < _maxEntries s -> 0 <= _headIdx s < _maxEntries s)
  /\ forall rs consumeEntries,
       get_ret (get s rs 0 consumeEntries 0 0) = _count s
       /\ Z.of_nat (length (get_metas (get s rs 0 consumeEntries 0 0))) = _count s.
Proof.
  destruct (reachable_bounded _ _ _ Hreach) as (Hm & Hc & Hh0 & Hh & Hcfg0).
  split; [assumption|]. split; [intros; split; auto|].
  intros rs consumeEntries. unfold get.
  destruct (isConfigured s); cbn [negb].
  2:{ destruct (Hcfg0 eq_refl) as [-> _]. split; reflexivity. }
  replace (consumeEntries && (0 <? 0)) with false by (now destruct consumeEntries).
  destruct (Z.eqb_spec (_count s) 0) as [->|Hne]; cbn [orb]; [split; reflexivity|].
  destruct (Z.leb_spec (_count s) 0); [lia|].
  cbn [Z.eqb orb Z.ltb Z.compare andb].
  destruct (Z.eqb_spec (_count s - 0) 0); [lia|].
  match goal with |- context [get_loop ?s ?q ?n ?i ?t] =>
    pose proof (get_loop_length s q n i t) as Hlen;
    destruct (get_loop s q n i t) as [d ms] end.
  cbn [snd get_ret get_metas] in *. rewrite Hlen. lia.
Qed.

(** C9.  A [put] on an unconfigured ring, or with a payload whose length
    differs from [payloadSize], returns [false] and leaves the whole store
    (every member, so count, head, drops, nextSeq, the timestamp base and
    wrap state and the stored payloads) as it was. *)
Theorem put_rejected_leaves_store (s : t) (timeNowUs sq : Z) (data : list byte)
    (Hbad : isConfigured s = false \/ Z.of_nat (length data) <> _payloadSize s) :
  put s timeNowUs sq data = (false, s).
Proof.
  unfold put. destruct Hbad as [->|Hlen]; [reflexivity|].
  apply Z.eqb_neq in Hlen. rewrite Hlen. now rewrite orb_true_r.
Qed.

(** *** Sequence numbers *)

Lemma reachable_ordered s : reachable anyInit orderedPut s -> ordered s.
Proof.
  induction 1 as [|s me ps tb tr _ IH _ _ _ _ _|s _ IH|s t q d Hr IH _ Hq Hord
                 |s rs mr cs st mb Hr IH _ Hmr Hst Hmb|s n Hr IH Hn];
    unfold ordered, is_u32 in *.
  - cbn. lia.
  - cbn. lia.
  - cbn. lia.
  - destruct (fst (put s t q d)) eqn:Hacc; [|now rewrite put_rejected].
    destruct (reachable_bounded _ _ _ Hr) as (Hm & Hc & _). unfold is_u32 in Hm.
    unfold orderedPut, UINT32_MAX in Hord.
    rewrite put_count, put_nextSeq by assumption.
    rewrite (u32_small (q + 1)) by lia.
    destruct (Z.ltb_spec (_count s) (_maxEntries s)); rewrite ?u32_small by lia; lia.
  - destruct (get_cases s rs mr cs st mb (reachable_bounded _ _ _ Hr) Hmr Hst Hmb)
      as [(_ & _ & _ & ->)|(k & n & _ & _ & _ & _ & _ & _ & ->)]; [assumption|].
    destruct cs; cbn [set_count _count _nextSeq]; lia.
  - unfold consume. destruct (isConfigured s); cbn [negb snd]; [|assumption].
    destruct (reachable_bounded _ _ _ Hr) as (_ & Hc & _).
    cbn [set_count _count _nextSeq].
    destruct (Z.ltb_spec (_count s) n); lia.
Qed.

(** C8 (as stated, refuted).  [put] stores whatever sequence number the
    caller passes: after [put(seq = 10)] and [put(seq = 0)] the store holds
    two entries with [nextSeq = 1], and [getStats] reports [firstSeq = 0]. *)
Lemma ring_first_seq_counterexample :
  let s := snd (put (snd (put (init default 4 1 1 1000) 0 10 [x00])) 0 0 [x00]) in
  reachable anyInit anyPut s
  /\ _count s = 2 /\ _nextSeq s = 1 /\ ~ (_count s <= _nextSeq s)
  /\ firstSeq (getStats s) = 0
  /\ firstSeq (getStats s) <> _nextSeq s - _count s
  /\ firstSeq (getStats s) <> u32 (_nextSeq s - _count s).
Proof.
  cbv zeta. split.
  - repeat first
      [ apply reach_put; [| unfold is_u64; lia | unfold is_u32; lia | exact I]
      | apply reach_init; [| unfold is_u32; lia .. | exact I]
      | apply reach_default ].
  - repeat split; vm_compute;
      solve [reflexivity | discriminate | intros H; apply H; reflexivity].
Qed.

(** C8 (amended).  In every state reached by [init], [clear], [get],
    [consume] and by [put] calls whose sequence number is at least the
    store's current [nextSeq] and below [UINT32_MAX]: [nextSeq >= count],
    the [firstSeq] reported by [getStats] equals [nextSeq - count], and the
    first sequence number of any [get] from the oldest entry on equals
    [nextSeq - count]. *)
Theorem ring_first_seq_when_puts_ordered (s : t)
    (Hreach : reachable anyInit orderedPut s) :
  _count s <= _nextSeq s
  /\ firstSeq (getStats s) = _nextSeq s - _count s
  /\ forall rs maxResp consumeEntries maxBytes m ms,
       is_u32 maxResp -> is_u32 maxBytes ->
       get_metas (get s rs maxResp consumeEntries 0 maxBytes) = m :: ms ->
       seq m = _nextSeq s - _count s.
Proof.
  destruct (reachable_ordered s Hreach) as [Hle Hns]. unfold is_u32 in Hns.
  pose proof (reachable_bounded _ _ _ Hreach) as Hb.
  pose proof Hb as (Hm & Hc & _ & _ & Hcfg0).
  assert (Hq : (if _count s <? _nextSeq s then u32 (_nextSeq s - _count s) else 0)
               = _nextSeq s - _count s).
  { destruct (Z.ltb_spec (_count s) (_nextSeq s)); [apply u32_small|]; lia. }
  split; [assumption|]. split.
  - unfold getStats. destruct (isConfigured s) eqn:Hcfg; cbn [negb firstSeq].
    + exact Hq.
    + destruct (Hcfg0 eq_refl) as [-> ->]. reflexivity.
  - intros rs maxResp cs maxBytes m ms HmaxResp HmaxBytes Hmetas.
    destruct (get_cases s rs maxResp cs 0 maxBytes Hb HmaxResp ltac:(unfold is_u32; lia) HmaxBytes)
      as [(_ & Hnil & _)|(k & n & _ & Hn & _ & Hk & _ & Hloop & _)].
    { rewrite Hnil in Hmetas. discriminate. }
    replace (cs && (0 <? 0)) with false in Hk by (now destruct cs).
    assert (k = 0%nat) as -> by lia.
    destruct n as [|n]; [lia|]. cbn [get_loop] in Hloop.
    destruct (get_loop s _ n (0 + 1) _) as [d' ms'].
    injection Hloop as _ Hms. rewrite Hmetas in Hms. injection Hms as -> _.
    cbn [seq get_meta]. change (Z.of_nat 0) with 0. rewrite !Z.add_0_r.
    rewrite Hq. apply u32_small. lia.
Qed.

(** *** Vector sizes in every reachable state *)

Lemma reachable_sized okPut s :
  reachable sizedInit okPut s ->
  _maxEntries s < 2 ^ 31 /\ 0 <= _payloadSize s
  /\ _maxEntries s * _payloadSize s < 2 ^ 32
  /\ length (_ringBuffer s) = Z.to_nat (_maxEntries s * _payloadSize s)
  /\ length (_adjTimestampMs s) = Z.to_nat (_maxEntries s).
Proof.
  induction 1 as [|s me ps tb tr _ IH Hme Hps _ _ [Hsz Hme31]|s _ IH|s t q d _ IH _ _ _
                 |s rs mr cs st mb Hr IH _ Hmr Hst Hmb|s n _ IH _].
  - cbn. repeat split; lia.
  - unfold is_u32 in *. cbn [init _maxEntries _payloadSize _ringBuffer _adjTimestampMs].
    rewrite !length_replicate. rewrite u32_small by nia. repeat split; lia.
  - exact IH.
  - destruct (put_config s t q d) as (-> & -> & _ & _ & _ & -> & ->). exact IH.
  - destruct (get_cases s rs mr cs st mb (reachable_bounded _ _ _ Hr) Hmr Hst Hmb)
      as [(_ & _ & _ & ->)|(k & n & _ & _ & _ & _ & _ & _ & ->)]; [assumption|].
    destruct cs; exact IH.
  - unfold consume. destruct (isConfigured s); exact IH.
Qed.

Lemma reachable_wf okPut s : reachable sizedInit okPut s -> wf s.
Proof.
  intros Hr. split; [exact (reachable_bounded _ _ _ Hr) | exact (reachable_sized _ _ Hr)].
Qed.

Lemma reachable_drops okInit okPut s : reachable okInit okPut s -> is_u32 (_drops s).
Proof.
  induction 1 as [|s me ps tb tr _ IH _ _ _ _ _|s _ IH|s t q d _ IH _ _ _
                 |s rs mr cs st mb Hr IH _ Hmr Hst Hmb|s n _ IH _].
  - unfold is_u32; cbn; lia.
  - unfold is_u32; cbn; lia.
  - unfold is_u32; cbn; lia.
  - destruct (fst (put s t q d)) eqn:Hacc; [|now rewrite put_rejected].
    rewrite put_drops by assumption.
    destruct (_count s <? _maxEntries s); [assumption | apply u32_range].
  - destruct (get_cases s rs mr cs st mb (reachable_bounded _ _ _ Hr) Hmr Hst Hmb)
      as [(_ & _ & _ & ->)|(k & n & _ & _ & _ & _ & _ & _ & ->)]; [assumption|].
    destruct cs; exact IH.
  - unfold consume. destruct (isConfigured s); exact IH.
Qed.

(** *** Lists in non-decreasing order *)

Lemma nondecreasing_drop (l : list Z) (n : nat) :
  nondecreasing l -> nondecreasing (drop n l).
Proof.
  intros H i a b Ha Hb. rewrite lookup_drop in Ha, Hb.
  apply (H (n + i)%nat); [assumption|]. now replace (S (n + i)) with (n + S i)%nat by lia.
Qed.

Lemma nondecreasing_take (l : list Z) (n : nat) :
  nondecreasing l -> nondecreasing (take n l).
Proof.
  intros H i a b Ha Hb.
  apply lookup_take_Some in Ha as [Ha _]. apply lookup_take_Some in Hb as [Hb _].
  exact (H i a b Ha Hb).
Qed.

Lemma nondecreasing_snoc (l : list Z) (x : Z) :
  nondecreasing l -> (forall y, last l = Some y -> y <= x) -> nondecreasing (l ++ [x]).
Proof.
  intros H Hlast i a b Ha Hb.
  destruct (decide (S i < length l)%nat) as [Hin|Hout].
  - rewrite lookup_app_l in Ha, Hb by lia. exact (H i a b Ha Hb).
  - assert (S i = length l).
    { apply lookup_lt_Some in Hb. rewrite length_app in Hb. cbn in Hb. lia. }
    rewrite lookup_app_l in Ha by lia.
    rewrite lookup_app_r in Hb by lia.
    replace (S i - length l)%nat with 0%nat in Hb by lia. injection Hb as <-.
    apply Hlast. rewrite last_lookup. rewrite <- Ha. f_equal. lia.
Qed.

Lemma last_drop_Some {A} (l : list A) (n : nat) (x : A) :
  last (drop n l) = Some x -> last l = Some x.
Proof.
  rewrite !last_lookup, lookup_drop, length_drop. intros H.
  assert (n + Init.Nat.pred (length l - n) < length l)%nat by (now apply lookup_lt_Some in H).
  rewrite <- H. f_equal. lia.
Qed.

(** *** Timestamp reconstruction *)

Lemma classic_tb (tb : Z) : (tb = 1 \/ tb = 2 \/ tb = 4) \/ ~ (tb = 1 \/ tb = 2 \/ tb = 4).
Proof. lia. Qed.

Lemma resolutionMs_range tr : is_u32 tr -> 0 <= tr / 1000 < 2 ^ 32.
Proof.
  unfold is_u32. intros H. split; [apply Z.div_pos; lia|].
  apply Z.div_lt_upper_bound; lia.
Qed.

Lemma wrapMs_bounds tb tr :
  is_u32 tr -> tb = 1 \/ tb = 2 \/ tb = 4 ->
  tsBound tb * (tr / 1000) <= u64 (2 ^ u32 (tb * 8) * (tr / 1000)) <= 2 ^ 64 - 2 ^ 32.
Proof.
  intros Htr Htb. pose proof (resolutionMs_range tr Htr) as HR.
  destruct Htb as [-> | [-> | ->] ];
    [change (u32 (1 * 8)) with 8 | change (u32 (2 * 8)) with 16 | change (u32 (4 * 8)) with 32];
    rewrite u64_small by lia; unfold tsBound; cbn [Z.eqb Pos.eqb]; lia.
Qed.

Lemma tsBound_other tb : ~ (tb = 1 \/ tb = 2 \/ tb = 4) -> tsBound tb = 1.
Proof.
  intros H. unfold tsBound.
  destruct (Z.eqb_spec tb 1); [tauto|].
  destruct (Z.eqb_spec tb 2); [tauto|].
  destruct (Z.eqb_spec tb 4); [tauto|reflexivity].
Qed.

Lemma put_stamp_fields s t q d :
  fst (put s t q d) = true ->
  _lastTimestampVal (snd (put s t q d)) = tsField (_timestampBytes s) d
  /\ _lastTimestampValid (snd (put s t q d)) = true
  /\ _timestampBaseMs (snd (put s t q d)) = put_timestampBaseMs s t d
  /\ _tsWrapCount (snd (put s t q d)) = put_tsWrapCount s d.
Proof. intros Hacc. put_unfold Hacc. repeat split. Qed.

(** The base never goes negative, and the adjusted timestamp of the new
    entry is not below the one the previous put computed. *)
Lemma put_base_advances s t d :
  stamped s -> is_u64 t ->
  0 <= put_timestampBaseMs s t d
  /\ (_lastTimestampValid s = true ->
      _timestampBaseMs s + _lastTimestampVal s * (_timestampResolutionUs s / 1000)
      <= put_timestampBaseMs s t d
         + tsField (_timestampBytes s) d * (_timestampResolutionUs s / 1000)).
Proof.
  intros (Htb & Htr & Hwrap & Hlast & Hbase & _) Ht. cbv zeta in *.
  pose proof (resolutionMs_range _ Htr) as HR.
  pose proof (tsField_range (_timestampBytes s) d) as Hts.
  set (R := _timestampResolutionUs s / 1000) in *.
  set (tsVal := tsField (_timestampBytes s) d) in *.
  unfold put_timestampBaseMs. fold R. fold tsVal.
  destruct (_lastTimestampValid s); cbn [negb andb].
  - destruct (Hbase eq_refl) as [Hb0 Hb1].
    destruct (Z.ltb_spec tsVal (_lastTimestampVal s)) as [Hback|Hfwd].
    + destruct (classic_tb (_timestampBytes s)) as [Hk|Hk].
      * pose proof (wrapMs_bounds _ _ Htr Hk) as Hw. fold R in Hw. rewrite <- Hwrap in Hw.
        rewrite u64_small by nia. split; [nia|]. intros _. nia.
      * rewrite (tsBound_other _ Hk) in *. lia.
    + split; [lia|]. intros _. nia.
  - split; [|discriminate].
    destruct ((0 <? R) && (tsVal * R <? t / 1000)) eqn:E; [|lia].
    apply andb_true_iff in E as [_ E]. apply Z.ltb_lt in E. lia.
Qed.

Lemma put_adjustedTsMs_fits s t q d :
  stamped s -> is_u64 t -> fitsPut s t q d ->
  u32 (put_adjustedTsMs s t d)
  = put_timestampBaseMs s t d
    + tsField (_timestampBytes s) d * (_timestampResolutionUs s / 1000).
Proof.
  intros Hst Ht Hfit. pose proof (put_base_advances s t d Hst Ht) as [Hb0 _].
  destruct Hst as (_ & Htr & _). pose proof (resolutionMs_range _ Htr) as HR.
  pose proof (tsField_range (_timestampBytes s) d) as Hts.
  unfold fitsPut in Hfit. unfold put_adjustedTsMs.
  rewrite u64_small by nia. apply u32_small. nia.
Qed.

Lemma stamped_put s t q d :
  wf s -> stamped s -> is_u64 t -> fitsPut s t q d -> stamped (snd (put s t q d)).
Proof.
  intros Hwf Hst Ht Hfit.
  destruct (fst (put s t q d)) eqn:Hacc; [|now rewrite put_rejected].
  pose proof (put_base_advances s t d Hst Ht) as [Hb0 Hadv].
  pose proof (put_adjustedTsMs_fits s t q d Hst Ht Hfit) as Hadj.
  pose proof Hst as (Htb & Htr & Hwrap & Hlast & Hbase & Hdom & Hmono & Hnewest).
  cbv zeta in *.
  pose proof (resolutionMs_range _ Htr) as HR.
  pose proof (tsField_range (_timestampBytes s) d) as Hts.
  unfold fitsPut in Hfit.
  unfold stamped. cbv zeta.
  rewrite (entries_put s t q d Hwf Hacc), Hadj.
  destruct (put_config s t q d) as (_ & _ & -> & -> & -> & _ & _).
  destruct (put_stamp_fields s t q d Hacc) as (-> & -> & -> & _).
  set (E := if _count s <? _maxEntries s then entries s else drop 1 (entries s)).
  assert (HE_lookup : forall k e, E !! k = Some e -> exists k', entries s !! k' = Some e).
  { unfold E. destruct (_count s <? _maxEntries s); intros k e H;
      [eauto | rewrite lookup_drop in H; eauto]. }
  assert (HE_last : forall e, last E = Some e -> last (entries s) = Some e).
  { unfold E. destruct (_count s <? _maxEntries s); intros e H;
      [assumption | eapply last_drop_Some; eassumption]. }
  assert (HE_mono : nondecreasing (snd <$> E)).
  { unfold E. destruct (_count s <? _maxEntries s);
      [assumption | rewrite fmap_drop; now apply nondecreasing_drop]. }
  split_and!; try assumption; try lia.
  - intros k p a H. apply lookup_app_Some in H as [H|[_ H]].
    + destruct (HE_lookup _ _ H) as [k' H']. exact (Hdom _ _ _ H').
    + apply list_lookup_singleton_Some in H as [_ H]. simplify_eq. lia.
  - rewrite fmap_app. cbn [fmap list_fmap snd]. apply nondecreasing_snoc; [assumption|].
    intros y Hy. rewrite fmap_last in Hy.
    apply fmap_Some in Hy as ([p a] & HlE & ->).
    destruct (Hnewest p a (HE_last _ HlE)) as [Hv Hle]. specialize (Hadv Hv). cbn [snd]. lia.
  - intros p a H. rewrite last_snoc in H. simplify_eq. split; [reflexivity|lia].
Qed.

Lemma stamped_set_count s (n : nat) :
  stamped s -> Z.of_nat n <= _count s -> stamped (set_count s (_count s - Z.of_nat n)).
Proof.
  intros (Htb & Htr & Hwrap & Hlast & Hbase & Hdom & Hmono & Hnewest) Hn.
  unfold stamped. cbv zeta in *. rewrite entries_set_count by assumption.
  cbn [set_count _timestampBytes _timestampResolutionUs _timestampWrapMs
       _lastTimestampVal _lastTimestampValid _timestampBaseMs].
  split_and!; try assumption; try lia.
  - intros k p a H. rewrite lookup_drop in H. exact (Hdom _ _ _ H).
  - rewrite fmap_drop. now apply nondecreasing_drop.
  - intros p a H. apply (Hnewest p a). eapply last_drop_Some. eassumption.
Qed.

Lemma stamped_empty s :
  is_u32 (_timestampBytes s) -> is_u32 (_timestampResolutionUs s) ->
  _timestampWrapMs s
  = u64 (2 ^ u32 (_timestampBytes s * 8) * (_timestampResolutionUs s / 1000)) ->
  _count s = 0 -> _lastTimestampVal s = 0 -> _lastTimestampValid s = false ->
  stamped s.
Proof.
  intros Htb Htr Hwrap Hc Hl Hv. unfold stamped. cbv zeta.
  unfold entries. rewrite Hc, Hl, Hv. cbn [Z.to_nat List.seq fmap list_fmap].
  pose proof (tsField_range (_timestampBytes s) []).
  split_and!; try assumption; try lia; try discriminate.
Qed.

Lemma reachable_stamped s : reachable sizedInit fitsPut s -> stamped s.
Proof.
  induction 1 as [|s me ps tb tr _ IH _ _ Htb Htr _|s _ IH|s t q d Hr IH Ht _ Hfit
                 |s rs mr cs st mb Hr IH _ Hmr Hst Hmb|s n Hr IH Hn].
  - apply stamped_empty; try reflexivity; unfold is_u32; cbn; lia.
  - apply stamped_empty; try reflexivity; assumption.
  - destruct IH as (Htb & Htr & Hwrap & _).
    apply stamped_empty; try reflexivity; assumption.
  - apply stamped_put; [exact (reachable_wf _ _ Hr) | assumption..].
  - destruct (get_cases s rs mr cs st mb (reachable_bounded _ _ _ Hr) Hmr Hst Hmb)
      as [(_ & _ & _ & ->)|(k & n & _ & _ & Hkn & _ & _ & _ & ->)]; [assumption|].
    destruct cs; [|assumption]. apply stamped_set_count; [assumption|lia].
  - unfold consume. destruct (isConfigured s); cbn [negb snd]; [|assumption].
    destruct (reachable_bounded _ _ _ Hr) as (_ & Hc & _). unfold is_u32 in Hn.
    set (m := if _count s <? n then _count s else n).
    assert (0 <= m <= _count s) by (unfold m; destruct (Z.ltb_spec (_count s) n); lia).
    replace m with (Z.of_nat (Z.to_nat m)) by lia.
    apply stamped_set_count; [assumption|lia].
Qed.

Lemma meta_timeMs_entry s q (p : list byte) (a : Z) :
  tsField (_timestampBytes s) p * (_timestampResolutionUs s / 1000) <= a ->
  meta_timeMs s (entry_meta s q (p, a)) = a.
Proof.
  intros Hdom. unfold meta_timeMs, entry_meta. cbn [fst snd tsBaseMs ts].
  destruct (Z.eqb_spec (_timestampResolutionUs s / 1000) 0) as [E|_].
  - rewrite E in *. destruct (Z.leb_spec 0 a); lia.
  - destruct (Z.leb_spec (tsField (_timestampBytes s) p * (_timestampResolutionUs s / 1000)) a);
      lia.
Qed.

(** The times a [get] hands out are the stored adjusted timestamps of a
    run of consecutive queue entries. *)
Lemma get_times s rs maxResp cons startIdx maxBytes :
  wf s -> stamped s -> is_u32 maxResp -> is_u32 startIdx -> is_u32 maxBytes ->
  exists k n : nat,
    meta_timeMs s <$> get_metas (get s rs maxResp cons startIdx maxBytes)
    = snd <$> take n (drop k (entries s)).
Proof.
  intros Hwf Hst H1 H2 H3.
  destruct (get_cases s rs maxResp cons startIdx maxBytes (proj1 Hwf) H1 H2 H3)
    as [(_ & -> & _)|(k & n & Hcfg & _ & Hkn & _ & _ & Hloop & _)].
  { exists 0%nat, 0%nat. reflexivity. }
  exists k, n. apply isConfigured_true in Hcfg as [Hmax _].
  rewrite get_loop_entries in Hloop by assumption. injection Hloop as _ ->.
  destruct Hst as (_ & _ & _ & _ & _ & Hdom & _). cbv zeta in Hdom.
  apply list_eq. intros i. rewrite !list_lookup_fmap, list_lookup_imap.
  destruct (take n (drop k (entries s)) !! i) as [[p a]|] eqn:E; [|reflexivity].
  cbn [fmap option_fmap option_map snd]. f_equal.
  apply meta_timeMs_entry.
  apply lookup_take_Some in E as [E _]. rewrite lookup_drop in E.
  exact (Hdom _ _ _ E).
Qed.

(** C1 (as stated, refuted).  The adjusted timestamp is kept in a
    [uint32_t] slot.  With two-byte timestamps of 1 ms resolution, a first
    put at 4294967295000 us with raw timestamp 0 and a second put with raw
    timestamp 1 (no raw wrap) store 4294967295 and then 0, and [get]
    returns the times 4294967295 and 1. *)
Lemma get_times_decrease_counterexample :
  let s0 := init default 4 2 2 1000 in
  let s1 := snd (put s0 4294967295000 0 [x00; x00]) in
  let s2 := snd (put s1 4294967296000 1 [x00; x01]) in
  reachable sizedInit anyPut s2
  /\ _tsWrapCount s2 = 0
  /\ meta_timeMs s2 <$> get_metas (get s2 0 0 false 0 0) = [4294967295; 1]
  /\ ~ nondecreasing (meta_timeMs s2 <$> get_metas (get s2 0 0 false 0 0)).
Proof.
  cbv zeta. split; [|split; [|split]].
  - repeat first
      [ apply reach_put; [| unfold is_u64; lia | unfold is_u32; lia | exact I]
      | apply reach_init; [| unfold is_u32; lia .. | unfold sizedInit; lia]
      | apply reach_default ].
  - vm_compute. reflexivity.
  - vm_compute. reflexivity.
  - intros H. specialize (H 0%nat 4294967295 1).
    assert (4294967295 <= 1) by (apply H; vm_compute; reflexivity). lia.
Qed.

(** C1 (amended).  For an accepted [put] after the first
    ([_lastTimestampValid] set): if the raw timestamp of the new payload is
    below [_lastTimestampVal], the base becomes [base + wrapMs] (a
    [uint64_t] sum) and [wrapCount] becomes [wrapCount + 1] (a [uint32_t]
    sum); otherwise both stay.  In every state reached through [init]
    calls whose buffer fits 32-bit indexing and [put] calls whose adjusted
    timestamp [base + tsVal * resolutionMs] fits the 32-bit slot it is
    stored in, the times [tsBaseMs + ts * resolutionMs] of the entries
    returned by any [get] are non-decreasing, raw wraps included. *)
Theorem put_tracks_wraps_get_times_monotone (s : t) :
  (forall timeNowUs sq data,
     _lastTimestampValid s = true -> fst (put s timeNowUs sq data) = true ->
     let s' := snd (put s timeNowUs sq data) in
     let tsVal := tsField (_timestampBytes s) data in
     (tsVal < _lastTimestampVal s ->
        _timestampBaseMs s' = u64 (_timestampBaseMs s + _timestampWrapMs s)
        /\ _tsWrapCount s' = u32 (_tsWrapCount s + 1))
     /\ (_lastTimestampVal s <= tsVal ->
        _timestampBaseMs s' = _timestampBaseMs s
        /\ _tsWrapCount s' = _tsWrapCount s))
  /\ (reachable sizedInit fitsPut s ->
      forall rs maxResp consumeEntries startIdx maxBytes,
        is_u32 maxResp -> is_u32 startIdx -> is_u32 maxBytes ->
        nondecreasing
          (meta_timeMs s <$> get_metas (get s rs maxResp consumeEntries startIdx maxBytes))).
Proof.
  split.
  - intros timeNowUs sq data Hvalid Hacc. cbv zeta.
    destruct (put_stamp_fields s timeNowUs sq data Hacc) as (_ & _ & -> & ->).
    unfold put_timestampBaseMs, put_tsWrapCount. rewrite Hvalid. cbn [negb andb].
    destruct (Z.ltb_spec (tsField (_timestampBytes s) data) (_lastTimestampVal s));
      split; intros; solve [lia | split; reflexivity].
  - intros Hreach rs maxResp cs startIdx maxBytes H1 H2 H3.
    pose proof (reachable_wf _ _ Hreach) as Hwf.
    pose proof (reachable_stamped _ Hreach) as Hst.
    destruct (get_times s rs maxResp cs startIdx maxBytes Hwf Hst H1 H2 H3) as (k & n & ->).
    rewrite fmap_take, fmap_drop.
    apply nondecreasing_take, nondecreasing_drop.
    apply Hst.
Qed.

(** Scenario S1: two-byte timestamps at 1 ms, raw values 60000, 65535, 0,
    500.  One wrap is counted and the returned times increase. *)
Example wrap_reconstruction_scenario :
  let s0 := init default 4 2 2 1000 in
  let s1 := snd (put s0 1000000 0 ["234"; "096"]%byte) in
  let s2 := snd (put s1 1005000 1 ["255"; "255"]%byte) in
  let s3 := snd (put s2 1010000 2 ["000"; "000"]%byte) in
  let s4 := snd (put s3 1010500 3 ["001"; "244"]%byte) in
  _timestampWrapMs s4 = 65536
  /\ _tsWrapCount s4 = 1
  /\ ts <$> get_metas (get s4 0 0 false 0 0) = [60000; 65535; 0; 500]
  /\ meta_timeMs s4 <$> get_metas (get s4 0 0 false 0 0) = [60000; 65535; 65536; 66036].
Proof. vm_compute. repeat split. Qed.

Lemma put_tracks_wraps_get_times_monotone_witness :
  let s0 := init default 4 2 2 1000 in
  let s1 := snd (put s0 1000000 0 ["234"; "096"]%byte) in
  let s2 := snd (put s1 1005000 1 ["255"; "255"]%byte) in
  let s3 := snd (put s2 1010000 2 ["000"; "000"]%byte) in
  (_timestampBaseMs s3 = u64 (_timestampBaseMs s2 + _timestampWrapMs s2)
   /\ _tsWrapCount s3 = u32 (_tsWrapCount s2 + 1))
  /\ nondecreasing (meta_timeMs s2 <$> get_metas (get s2 0 0 false 0 0)).
Proof.
  cbv zeta.
  set (s2 := snd (put (snd (put (init default 4 2 2 1000) 1000000 0 ["234"; "096"]%byte))
                      1005000 1 ["255"; "255"]%byte)).
  destruct (put_tracks_wraps_get_times_monotone s2) as [Hput Hget]. split.
  - apply (Hput 1010000 2 ["000"; "000"]%byte); vm_compute; reflexivity.
  - apply Hget; [| unfold is_u32; lia ..].
    unfold s2.
    repeat first
      [ apply reach_put;
          [| unfold is_u64; lia | unfold is_u32; lia | vm_compute; reflexivity]
      | apply reach_init; [| unfold is_u32; lia .. | unfold sizedInit; lia]
      | apply reach_default ].
Defined.

(** *** Drop-oldest *)

Lemma wf_init s me ps tb tr :
  is_u32 me -> is_u32 ps -> sizedInit me ps tb tr -> wf (init s me ps tb tr).
Proof.
  intros Hme Hps [Hsz Hme31]. unfold wf, bounded, is_u32 in *.
  cbn [init _maxEntries _payloadSize _ringBuffer _adjTimestampMs _count _headIdx _nextSeq].
  rewrite !length_replicate. rewrite u32_small by nia.
  split_and!; intros; lia.
Qed.

Lemma wf_put s t q d : wf s -> wf (snd (put s t q d)).
Proof.
  intros [Hb Hsz]. split; [now apply bounded_put|].
  destruct (put_config s t q d) as (-> & -> & _ & _ & _ & -> & ->). exact Hsz.
Qed.

(** A full [get] from a non-empty ring hands out the whole queue. *)
Lemma get_all s rs cons :
  wf s -> isConfigured s = true -> 0 < _count s ->
  get s rs 0 cons 0 0
  = mkGet (_count s) (concat (fst <$> entries s)) (_payloadSize s)
          (imap (fun j e =>
                   entry_meta s (u32 ((if _count s <? _nextSeq s
                                       then u32 (_nextSeq s - _count s) else 0)
                                      + Z.of_nat j)) e)
                (entries s))
          (if cons then set_count s 0 else s).
Proof.
  intros Hwf Hcfg Hc. unfold get. rewrite Hcfg. cbn [negb].
  replace (cons && (0 <? 0)) with false by (now destruct cons).
  destruct (Z.eqb_spec (_count s) 0); [lia|]. cbn [orb].
  destruct (Z.leb_spec (_count s) 0); [lia|].
  cbn [Z.eqb orb Z.ltb Z.compare andb].
  destruct (Z.eqb_spec (_count s - 0) 0); [lia|].
  rewrite !Z.sub_0_r, !Z.add_0_r.
  change (u32 (_headIdx s + _maxEntries s - _count s) mod _maxEntries s)
    with (u32 (_headIdx s + _maxEntries s - _count s) mod _maxEntries s).
  replace (u32 (_headIdx s + _maxEntries s - _count s) mod _maxEntries s)
    with (slotOf s 0) by (unfold slotOf; now rewrite Z.add_0_r).
  apply isConfigured_true in Hcfg as [Hmax _].
  rewrite get_loop_entries by (assumption || lia).
  rewrite drop_0, take_ge by (rewrite entries_length; lia).
  f_equal.
  all: try (apply imap_ext; intros j e _; cbn; do 2 f_equal; lia).
  all: try (destruct cons; [|reflexivity]; f_equal; lia).
  all: try (rewrite Z2Nat.id by lia; reflexivity).
Qed.

Lemma put_step s t q d :
  wf s -> isConfigured s = true -> Z.of_nat (length d) = _payloadSize s ->
  let s' := snd (put s t q d) in
  wf s' /\ isConfigured s' = true
  /\ _maxEntries s' = _maxEntries s /\ _payloadSize s' = _payloadSize s
  /\ _count s' = (if _count s <? _maxEntries s then _count s + 1 else _count s)
  /\ _drops s' = (if _count s <? _maxEntries s then _drops s else u32 (_drops s + 1))
  /\ _nextSeq s' = u32 (q + 1)
  /\ entries s'
     = (if _count s <? _maxEntries s then entries s else drop 1 (entries s))
       ++ [(d, u32 (put_adjustedTsMs s t d))].
Proof.
  intros Hwf Hcfg Hlen. cbv zeta.
  assert (Hacc : fst (put s t q d) = true) by (apply put_accepted; now split).
  pose proof Hwf as ((Hm & Hc & _) & _). unfold is_u32 in Hm.
  destruct (put_config s t q d) as (Hm' & Hps' & _).
  split_and!.
  - now apply wf_put.
  - unfold isConfigured. now rewrite Hm', Hps'.
  - exact Hm'.
  - exact Hps'.
  - rewrite put_count by assumption.
    destruct (Z.ltb_spec (_count s) (_maxEntries s)); [apply u32_small; lia|reflexivity].
  - now apply put_drops.
  - now apply put_nextSeq.
  - now apply entries_put.
Qed.

(** Scenario S2 for any payload size and payloads: capacity 3, five puts
    with sequence numbers 10 to 14. *)
Lemma drop_oldest_scenario s ps tb tr t0 t1 t2 t3 t4 (p0 p1 p2 p3 p4 : list byte) :
  0 < ps -> 3 * ps < 2 ^ 32 ->
  Z.of_nat (length p0) = ps -> Z.of_nat (length p1) = ps -> Z.of_nat (length p2) = ps ->
  Z.of_nat (length p3) = ps -> Z.of_nat (length p4) = ps ->
  let s0 := init s 3 ps tb tr in
  let s1 := snd (put s0 t0 10 p0) in
  let s2 := snd (put s1 t1 11 p1) in
  let s3 := snd (put s2 t2 12 p2) in
  let s4 := snd (put s3 t3 13 p3) in
  let s5 := snd (put s4 t4 14 p4) in
  _count s5 = 3 /\ _drops s5 = 2 /\ firstSeq (getStats s5) = 12
  /\ forall rs consumeEntries,
       get_ret (get s5 rs 0 consumeEntries 0 0) = 3
       /\ seq <$> get_metas (get s5 rs 0 consumeEntries 0 0) = [12; 13; 14]
       /\ get_data (get s5 rs 0 consumeEntries 0 0) = p2 ++ p3 ++ p4.
Proof.
  intros Hps Hsz H0 H1 H2 H3 H4. intros s0 s1 s2 s3 s4 s5.
  assert (W0 : wf s0) by (apply wf_init; unfold is_u32, sizedInit; lia).
  assert (C0 : isConfigured s0 = true) by (apply isConfigured_true; cbn; lia).
  destruct (put_step s0 t0 10 p0 W0 C0 H0) as (W1 & C1 & M1 & P1 & N1 & D1 & _ & E1).
  fold s1 in W1, C1, M1, P1, N1, D1, E1.
  change (_maxEntries s0) with 3 in *. change (_payloadSize s0) with ps in *.
  change (_count s0) with 0 in *. change (_drops s0) with 0 in *.
  change (entries s0) with (@nil (list byte * Z)) in E1.
  cbn [Z.ltb Z.compare Z.add app] in N1, D1, E1.
  destruct (put_step s1 t1 11 p1 W1 C1 ltac:(congruence)) as (W2 & C2 & M2 & P2 & N2 & D2 & _ & E2).
  fold s2 in W2, C2, M2, P2, N2, D2, E2.
  rewrite M1, N1, ?D1, ?E1 in *. cbn [Z.ltb Z.compare Z.add Pos.compare Pos.compare_cont app] in N2, D2, E2.
  destruct (put_step s2 t2 12 p2 W2 C2 ltac:(congruence)) as (W3 & C3 & M3 & P3 & N3 & D3 & _ & E3).
  fold s3 in W3, C3, M3, P3, N3, D3, E3.
  rewrite M2, N2, ?D2, ?E2 in *. cbn [Z.ltb Z.compare Z.add Pos.add Pos.compare Pos.compare_cont app] in N3, D3, E3.
  destruct (put_step s3 t3 13 p3 W3 C3 ltac:(congruence)) as (W4 & C4 & M4 & P4 & N4 & D4 & _ & E4).
  fold s4 in W4, C4, M4, P4, N4, D4, E4.
  rewrite M3, N3, ?D3, ?E3 in *.
  cbn [Z.ltb Z.compare Z.add Pos.add Pos.succ Pos.compare Pos.compare_cont app drop] in N4, D4, E4.
  change (u32 (0 + 1)) with 1 in D4.
  destruct (put_step s4 t4 14 p4 W4 C4 ltac:(congruence)) as (W5 & C5 & M5 & P5 & N5 & D5 & Q5 & E5).
  fold s5 in W5, C5, M5, P5, N5, D5, Q5, E5.
  rewrite M4, N4, ?D4, ?E4 in *.
  cbn [Z.ltb Z.compare Z.add Pos.add Pos.succ Pos.compare Pos.compare_cont app drop] in N5, D5, E5.
  change (u32 (1 + 1)) with 2 in D5. change (u32 (14 + 1)) with 15 in Q5.
  split_and!; [assumption | assumption | |].
  - unfold getStats. rewrite C5, N5, Q5. reflexivity.
  - intros rs cs. rewrite get_all by (assumption || (rewrite N5; reflexivity)).
    cbn [get_ret get_metas get_data]. rewrite N5, Q5, E5.
    split_and!; [reflexivity | reflexivity |].
    simpl. now rewrite ?app_nil_r.
Qed.

(** C2.  For a store reached through [init] calls whose buffer fits
    32-bit indexing, an accepted [put] made when [count = maxEntries]
    leaves [count = maxEntries], makes [drops] the [uint32_t] successor of
    its old value (exactly one more below [UINT32_MAX]) and replaces the
    oldest queue entry by appending the new one; an accepted [put] made
    when [count < maxEntries] increments [count], leaves [drops] and
    appends the new entry.  With [maxEntries = 3] and puts with sequence
    numbers 10 to 14 the store ends with [count = 3], [drops = 2],
    [firstSeq = 12], and an uncapped [get] returns the entries 12, 13, 14
    in order with their payloads. *)
Theorem put_drop_oldest :
  (forall s timeNowUs sq data,
     reachable sizedInit anyPut s -> fst (put s timeNowUs sq data) = true ->
     let s' := snd (put s timeNowUs sq data) in
     let e := (data, u32 (put_adjustedTsMs s timeNowUs data)) in
     (_count s = _maxEntries s ->
        _count s' = _maxEntries s
        /\ _drops s' = u32 (_drops s + 1)
        /\ (_drops s < UINT32_MAX -> _drops s' = _drops s + 1)
        /\ entries s' = drop 1 (entries s) ++ [e])
     /\ (_count s < _maxEntries s ->
        _count s' = _count s + 1 /\ _drops s' = _drops s
        /\ entries s' = entries s ++ [e]))
  /\ (forall s ps tb tr t0 t1 t2 t3 t4 (p0 p1 p2 p3 p4 : list byte),
        0 < ps -> 3 * ps < 2 ^ 32 ->
        Z.of_nat (length p0) = ps -> Z.of_nat (length p1) = ps ->
        Z.of_nat (length p2) = ps -> Z.of_nat (length p3) = ps ->
        Z.of_nat (length p4) = ps ->
        let s0 := init s 3 ps tb tr in
        let s1 := snd (put s0 t0 10 p0) in
        let s2 := snd (put s1 t1 11 p1) in
        let s3 := snd (put s2 t2 12 p2) in
        let s4 := snd (put s3 t3 13 p3) in
        let s5 := snd (put s4 t4 14 p4) in
        _count s5 = 3 /\ _drops s5 = 2 /\ firstSeq (getStats s5) = 12
        /\ forall rs consumeEntries,
             get_ret (get s5 rs 0 consumeEntries 0 0) = 3
             /\ seq <$> get_metas (get s5 rs 0 consumeEntries 0 0) = [12; 13; 14]
             /\ get_data (get s5 rs 0 consumeEntries 0 0) = p2 ++ p3 ++ p4).
Proof.
  split; [|exact drop_oldest_scenario].
  intros s timeNowUs sq data Hreach Hacc. cbv zeta.
  pose proof (reachable_wf _ _ Hreach) as Hwf.
  pose proof (reachable_drops _ _ _ Hreach) as Hd. unfold is_u32, UINT32_MAX in *.
  destruct (proj1 (put_accepted _ _ _ _) Hacc) as [Hcfg Hlen].
  destruct (put_step s timeNowUs sq data Hwf Hcfg Hlen) as (_ & _ & _ & _ & Hc & Hdr & _ & He).
  split; intros Hcount.
  - rewrite Hc, Hdr, He. destruct (Z.ltb_spec (_count s) (_maxEntries s)); [lia|].
    split_and!; try reflexivity; try assumption. intros Hlt. apply u32_small. lia.
  - rewrite Hc, Hdr, He. destruct (Z.ltb_spec (_count s) (_maxEntries s)); [|lia].
    split_and!; reflexivity.
Qed.

(** *** Instances on concrete stores *)

Ltac reach_by_calls :=
  repeat first
    [ apply reach_put;
        [| unfold is_u64; lia | unfold is_u32; lia
         | first [exact I | unfold orderedPut, UINT32_MAX; split; vm_compute; solve [discriminate | reflexivity]
                 | vm_compute; reflexivity] ]
    | apply reach_init;
        [| unfold is_u32; lia .. | first [exact I | unfold sizedInit; lia] ]
    | apply reach_default ].

Lemma put_drop_oldest_witness :
  let s0 := init default 3 2 2 1000 in
  let s1 := snd (put s0 1000000 10 ["000"; "001"]%byte) in
  let s2 := snd (put s1 1001000 11 ["000"; "002"]%byte) in
  let s3 := snd (put s2 1002000 12 ["000"; "003"]%byte) in
  let s4 := snd (put s3 1003000 13 ["000"; "004"]%byte) in
  let s5 := snd (put s4 1004000 14 ["000"; "005"]%byte) in
  (_count s4 = _maxEntries s3
   /\ _drops s4 = u32 (_drops s3 + 1)
   /\ (_drops s3 < UINT32_MAX -> _drops s4 = _drops s3 + 1)
   /\ entries s4
      = drop 1 (entries s3)
        ++ [(["000"; "004"]%byte, u32 (put_adjustedTsMs s3 1003000 ["000"; "004"]%byte))])
  /\ (_count s5 = 3 /\ _drops s5 = 2 /\ firstSeq (getStats s5) = 12
      /\ forall rs consumeEntries,
           get_ret (get s5 rs 0 consumeEntries 0 0) = 3
           /\ seq <$> get_metas (get s5 rs 0 consumeEntries 0 0) = [12; 13; 14]
           /\ get_data (get s5 rs 0 consumeEntries 0 0)
              = ["000"; "003"]%byte ++ ["000"; "004"]%byte ++ ["000"; "005"]%byte).
Proof.
  cbv zeta. split.
  - match goal with |- context [put ?s 1003000 13 ?d] =>
      destruct (proj1 put_drop_oldest s 1003000 13 d) as [Hfull _]
    end;
      [reach_by_calls | vm_compute; reflexivity | apply Hfull; vm_compute; reflexivity].
  - apply (proj2 put_drop_oldest default 2 2 1000);
      first [lia | vm_compute; reflexivity].
Defined.

Lemma ring_count_bounded_and_get_all_witness :
  let s0 := init default 3 2 2 1000 in
  let s1 := snd (put s0 1000000 10 ["000"; "001"]%byte) in
  let s2 := snd (put s1 1001000 11 ["000"; "002"]%byte) in
  0 <= _count s2 <= _maxEntries s2
  /\ (0 < _maxEntries s2 -> 0 <= _headIdx s2 < _maxEntries s2)
  /\ forall rs consumeEntries,
       get_ret (get s2 rs 0 consumeEntries 0 0) = _count s2
       /\ Z.of_nat (length (get_metas (get s2 rs 0 consumeEntries 0 0))) = _count s2.
Proof.
  cbv zeta. apply ring_count_bounded_and_get_all. reach_by_calls.
Defined.

Lemma ring_first_seq_when_puts_ordered_witness :
  let s0 := init default 3 2 2 1000 in
  let s1 := snd (put s0 1000000 10 ["000"; "001"]%byte) in
  let s2 := snd (put s1 1001000 11 ["000"; "002"]%byte) in
  _count s2 <= _nextSeq s2
  /\ firstSeq (getStats s2) = _nextSeq s2 - _count s2
  /\ forall rs maxResp consumeEntries maxBytes m ms,
       is_u32 maxResp -> is_u32 maxBytes ->
       get_metas (get s2 rs maxResp consumeEntries 0 maxBytes) = m :: ms ->
       seq m = _nextSeq s2 - _count s2.
Proof.
  cbv zeta. apply ring_first_seq_when_puts_ordered. reach_by_calls.
Defined.

Lemma put_rejected_leaves_store_witness :
  put (init default 3 2 2 1000) 1000000 7 ["000"]%byte
  = (false, init default 3 2 2 1000).
Proof.
  apply put_rejected_leaves_store. right. vm_compute. discriminate.
Defined.

End RingBuffer.
(** ** OfflineDataStoreNVS *)

Section PersistentRing.

Import OfflineDataStoreNVS.

(** *** NVS calls keep the in-memory meta *)

Lemma open_keeps st :
  _meta (snd (open st)) = _meta st /\ _ready (snd (open st)) = _ready st
  /\ _metaValid (snd (open st)) = _metaValid st
  /\ _effectiveMaxEntries (snd (open st)) = _effectiveMaxEntries st
  /\ nvs (snd (open st)) = nvs st.
Proof.
  unfold open. destruct (negb (_nvsHandle st =? 0)); [repeat split|].
  destruct (String.eqb (_nvsNamespace st) EmptyString); repeat split.
Qed.

Lemma open_handle st : _nvsHandle st <> 0 -> open st = (true, st).
Proof. intros H. unfold open. apply Z.eqb_neq in H. now rewrite H. Qed.

Lemma saveMeta_keeps st :
  _meta (snd (saveMeta st)) = _meta st /\ _ready (snd (saveMeta st)) = _ready st
  /\ _metaValid (snd (saveMeta st)) = _metaValid st
  /\ _effectiveMaxEntries (snd (saveMeta st)) = _effectiveMaxEntries st.
Proof.
  unfold saveMeta. pose proof (open_keeps st) as (Hm & Hr & Hv & He & _).
  destruct (open st) as [ok st']. cbn [snd] in *.
  destruct ok; cbn [negb snd set_nvs _meta _ready _metaValid _effectiveMaxEntries];
    repeat split; assumption.
Qed.

Lemma writeSegment_keeps st i d :
  _meta (snd (writeSegment st i d)) = _meta st
  /\ _ready (snd (writeSegment st i d)) = _ready st
  /\ _metaValid (snd (writeSegment st i d)) = _metaValid st
  /\ _effectiveMaxEntries (snd (writeSegment st i d)) = _effectiveMaxEntries st.
Proof.
  unfold writeSegment. pose proof (open_keeps st) as (Hm & Hr & Hv & He & _).
  destruct (open st) as [ok st']. cbn [snd] in *.
  destruct ok; cbn [negb snd set_nvs _meta _ready _metaValid _effectiveMaxEntries];
    repeat split; assumption.
Qed.

Lemma flushSeg_keeps a :
  _meta (ap_store (snd (flushSeg a))) = _meta (ap_store a)
  /\ _ready (ap_store (snd (flushSeg a))) = _ready (ap_store a)
  /\ _metaValid (ap_store (snd (flushSeg a))) = _metaValid (ap_store a)
  /\ outLastSeq (snd (flushSeg a)) = outLastSeq a.
Proof.
  unfold flushSeg.
  destruct ((currentSegIdx a =? UINT32_MAX) || negb (segDirty a)); [repeat split|].
  pose proof (writeSegment_keeps (ap_store a) (currentSegIdx a) (segBuf a)) as (Hm & Hr & Hv & _).
  destruct (writeSegment (ap_store a) (currentSegIdx a) (segBuf a)) as [ok st'].
  cbn [snd ap_store outLastSeq] in *. repeat split; assumption.
Qed.

Lemma enterSegment_keeps a segIdx :
  _meta (ap_store (snd (appendBatch_enterSegment a segIdx))) = _meta (ap_store a)
  /\ _ready (ap_store (snd (appendBatch_enterSegment a segIdx))) = _ready (ap_store a)
  /\ _metaValid (ap_store (snd (appendBatch_enterSegment a segIdx))) = _metaValid (ap_store a)
  /\ outLastSeq (snd (appendBatch_enterSegment a segIdx)) = outLastSeq a.
Proof.
  unfold appendBatch_enterSegment.
  destruct (segIdx =? currentSegIdx a); [repeat split|].
  pose proof (flushSeg_keeps a) as (Hm & Hr & Hv & Ho).
  destruct (flushSeg a) as [ok a']. cbn [snd] in *.
  destruct ok; cbn [negb snd ap_store outLastSeq]; repeat split; assumption.
Qed.

(** What the write loop does to the meta: the watermark and the flags
    stay; when it completes, [nextSeq] is one past the last batch entry and
    [count] has grown up to the effective cap. *)
Lemma appendBatch_loop_meta payloads ps adjTs firstSeq eff rs (n : nat) : forall ii a,
  let r := appendBatch_loop n ii payloads ps adjTs firstSeq eff rs a in
  importSeq (_meta (ap_store (snd r))) = importSeq (_meta (ap_store a))
  /\ _ready (ap_store (snd r)) = _ready (ap_store a)
  /\ _metaValid (ap_store (snd r)) = _metaValid (ap_store a)
  /\ (fst r = true ->
      ((0 < n)%nat ->
         nextSeq (_meta (ap_store (snd r)))
         = u32 (u32 (firstSeq + (ii + Z.of_nat n - 1)) + 1)
         /\ outLastSeq (snd r) = u32 (firstSeq + (ii + Z.of_nat n - 1)))
      /\ (0 <= count (_meta (ap_store a)) <= eff -> eff < 2 ^ 32 ->
          count (_meta (ap_store (snd r)))
          = Z.min eff (count (_meta (ap_store a)) + Z.of_nat n))).
Proof.
  induction n as [|n IH]; intros ii a; cbv zeta.
  - cbn [appendBatch_loop fst snd]. repeat split; try lia.
  - cbn [appendBatch_loop].
    pose proof (enterSegment_keeps a
                  (head (_meta (ap_store a)) / recordsPerSegment (_meta (ap_store a))))
      as (Hm & Hr & Hv & Ho).
    destruct (appendBatch_enterSegment a _) as [ok a1]. cbn [snd] in Hm, Hr, Hv, Ho.
    destruct ok; cbn [negb fst snd].
    2:{ rewrite Hm, Hr, Hv. repeat split; discriminate. }
    specialize (IH (ii + 1) (appendBatch_record a1 ii payloads ps adjTs firstSeq eff rs)).
    cbv zeta in IH. destruct IH as (IHi & IHr & IHv & IHok).
    set (r := appendBatch_loop n (ii + 1) payloads ps adjTs firstSeq eff rs
                (appendBatch_record a1 ii payloads ps adjTs firstSeq eff rs)) in *.
    cbn [appendBatch_record ap_store set_meta _meta _ready _metaValid
         set_head_count_drops_nextSeq importSeq count] in IHi, IHr, IHv, IHok.
    rewrite Hm in *. rewrite IHi, IHr, IHv, Hr, Hv.
    split; [reflexivity|]. split; [reflexivity|]. split; [reflexivity|].
    intros Hok. destruct (IHok Hok) as [IHseq IHcount]. split.
    + intros _. destruct n as [|n].
      * subst r. cbn [appendBatch_loop snd appendBatch_record ap_store set_meta _meta
                      set_head_count_drops_nextSeq nextSeq outLastSeq].
        rewrite ?Hm. replace (ii + Z.of_nat 1 - 1) with ii by lia. split; reflexivity.
      * destruct (IHseq ltac:(lia)) as [-> ->].
        replace (ii + 1 + Z.of_nat (S n) - 1) with (ii + Z.of_nat (S (S n)) - 1) by lia.
        split; reflexivity.
    + intros Hc Heff. 
      destruct (Z.ltb_spec (count (_meta (ap_store a))) eff) as [Hlt|Hge];
        cbn [negb] in IHcount.
      * rewrite u32_small in IHcount by lia. rewrite IHcount by lia. lia.
      * rewrite IHcount by lia. lia.
Qed.

Lemma appendBatch_write_meta st payloads ps adjTs firstSeq n skip eff last st' :
  appendBatch_write st payloads ps adjTs firstSeq n skip eff = (true, last, st') ->
  0 <= skip < n ->
  importSeq (_meta st') = importSeq (_meta st)
  /\ _ready st' = _ready st /\ _metaValid st' = _metaValid st
  /\ nextSeq (_meta st') = u32 (u32 (firstSeq + (n - 1)) + 1)
  /\ last = u32 (firstSeq + (n - 1))
  /\ (0 <= count (_meta st) <= eff -> eff < 2 ^ 32 ->
      count (_meta st') = Z.min eff (count (_meta st) + (n - skip))).
Proof.
  unfold appendBatch_write. intros H Hskip.
  match type of H with context [appendBatch_loop ?k ?ii ?p ?s ?ad ?f ?e ?r ?a] =>
    pose proof (appendBatch_loop_meta p s ad f e r k ii a) as Hloop;
    destruct (appendBatch_loop k ii p s ad f e r a) as [ok a1]
  end.
  cbv zeta in Hloop. cbn [fst snd ap_store] in Hloop.
  destruct Hloop as (Hi & Hr & Hv & Hok).
  destruct ok; cbn [negb] in H; [|discriminate].
  destruct (Hok eq_refl) as [Hseq Hcount].
  destruct (Hseq ltac:(lia)) as [Hnext Hlast].
  replace (skip + Z.of_nat (Z.to_nat (n - skip)) - 1) with (n - 1) in * by lia.
  pose proof (flushSeg_keeps a1) as (Fm & Fr & Fv & Fo).
  destruct (flushSeg a1) as [ok a2]. cbn [snd] in *.
  destruct ok; cbn [negb] in H; [|discriminate].
  pose proof (saveMeta_keeps (ap_store a2)) as (Sm & Sr & Sv & _).
  destruct (saveMeta (ap_store a2)) as [ok st2]. cbn [snd] in *.
  injection H as -> <- <-.
  rewrite Sm, Sr, Sv, Fm, Fr, Fv, Fo.
  split_and!; try assumption.
  intros Hc Heff. rewrite Hcount by assumption. f_equal. lia.
Qed.

(** *** importTo *)




Lemma importTo_startSeq_range m :
  0 <= nextSeq m < 2 ^ 32 ->
  u32 (importSeq m + 1) <= importTo_startSeq m /\ 0 <= importTo_startSeq m.
Proof.
  intros Hn. unfold importTo_startSeq. pose proof (u32_range (importSeq m + 1)).
  destruct (Z.ltb_spec (u32 (importSeq m + 1))
              (if count m <=? nextSeq m then u32 (nextSeq m - count m) else 0)); lia.
Qed.






(** *** appendBatch *)

Lemma appendBatch_record_shift a ii d payloads ps adjTs firstSeq eff rs :
  0 <= d <= ii -> 0 <= ps -> ii * ps < 2 ^ 32 ->
  appendBatch_record a ii payloads ps adjTs firstSeq eff rs
  = appendBatch_record a (ii - d) (drop (Z.to_nat (d * ps)) payloads) ps
                       (drop (Z.to_nat d) adjTs) (firstSeq + d) eff rs.
Proof.
  intros Hd Hps Hsz. unfold appendBatch_record.
  replace (firstSeq + d + (ii - d)) with (firstSeq + ii) by lia.
  assert (Hnth : nth (Z.to_nat (ii - d)) (drop (Z.to_nat d) adjTs) 0
                 = nth (Z.to_nat ii) adjTs 0).
  { rewrite !nth_lookup, lookup_drop. do 2 f_equal. lia. }
  assert (Hsl : slice (drop (Z.to_nat (d * ps)) payloads) (u32 ((ii - d) * ps)) ps
                = slice payloads (u32 (ii * ps)) ps).
  { unfold slice. rewrite !u32_small by nia. rewrite drop_drop. do 2 f_equal. nia. }
  rewrite Hnth, Hsl. reflexivity.
Qed.

(** Writing the batch from index [ii] on is writing the batch without its
    first [d] entries from index [ii - d] on. *)
Lemma appendBatch_loop_shift d payloads ps adjTs firstSeq eff rs (n : nat) : forall ii a,
  0 <= d <= ii -> 0 <= ps -> (ii + Z.of_nat n) * ps < 2 ^ 32 ->
  appendBatch_loop n ii payloads ps adjTs firstSeq eff rs a
  = appendBatch_loop n (ii - d) (drop (Z.to_nat (d * ps)) payloads) ps
                     (drop (Z.to_nat d) adjTs) (firstSeq + d) eff rs a.
Proof.
  induction n as [|n IH]; intros ii a Hd Hps Hsz; [reflexivity|].
  cbn [appendBatch_loop].
  destruct (appendBatch_enterSegment a _) as [ok a1].
  destruct ok; cbn [negb]; [|reflexivity].
  rewrite (appendBatch_record_shift a1 ii d) by nia.
  rewrite IH by nia. do 2 f_equal. lia.
Qed.

Lemma appendBatch_guarded st payloads ps adjTs n :
  appendBatch_guards st payloads ps adjTs n = true <->
  _ready st = true /\ _metaValid st = true /\ ps = payloadSize (_meta st)
  /\ n <> 0 /\ n <= Z.of_nat (length adjTs)
  /\ u32 (n * ps) <= Z.of_nat (length payloads)
  /\ (if 0 <? _effectiveMaxEntries st then _effectiveMaxEntries st
      else maxEntries (_meta st)) <> 0.
Proof.
  unfold appendBatch_guards.
  rewrite !andb_true_iff, !negb_true_iff, orb_false_iff, !Z.eqb_neq, Z.eqb_eq, !Z.ltb_ge.
  tauto.
Qed.

Lemma u32_succ_idemp x : u32 (u32 x + 1) = u32 (x + 1).
Proof. unfold u32, wrap. now rewrite Z.add_mod_idemp_l by lia. Qed.

(** The state the sequence-gap branch leaves: every key erased, the fresh
    meta saved, then [nextSeq] aligned in memory. *)
Lemma appendBatch_align_gap st ps firstSeq :
  count (_meta st) <> 0 -> nextSeq (_meta st) < firstSeq -> _nvsHandle st <> 0 ->
  let fresh := freshMeta ps (timestampBytes (_meta st)) (timestampResolutionUs (_meta st))
                         (maxEntries (_meta st)) in
  recordsPerSegment fresh <> 0 ->
  appendBatch_align st ps firstSeq
  = (true, mk (_nvsNamespace st) true true (set_nextSeq fresh firstSeq)
              (_effectiveMaxEntries st) (_nvsHandle st)
              (<[OFFLINE_NVS_META_KEY := MetaBlob fresh]> ∅)).
Proof.
  intros Hc Hgap Hh fresh Hrps. unfold appendBatch_align.
  apply Z.eqb_neq in Hc. rewrite Hc. apply Z.ltb_lt in Hgap. rewrite Hgap.
  unfold clear. rewrite (open_handle st Hh). cbn [negb].
  unfold resetMeta. fold fresh.
  cbn [set_flags set_nvs set_meta _meta _nvsNamespace _ready _metaValid
       _effectiveMaxEntries _nvsHandle nvs].
  apply Z.eqb_neq in Hrps. rewrite Hrps.
  unfold saveMeta. rewrite open_handle by assumption.
  reflexivity.
Qed.

(** C5.  For an [appendBatch] call that passes the entry guards (store
    ready, payload size as configured, non-zero count covered by both
    vectors, non-zero effective capacity), with [uint32_t] arguments:
    (a) when the stored [count] is 0, [nextSeq] is set to [firstSeq]
    (nothing is erased, and neither of the other two cases applies any
    more) and the whole batch is then written; (b) when the store is non-empty and
    [firstSeq > nextSeq] (namespace open, record size fitting a segment),
    every key is erased, the meta re-initialised and saved, [nextSeq] set
    to [firstSeq], and the whole batch written to the emptied store;
    (c) when [firstSeq < nextSeq], a batch that ends at or before [nextSeq]
    returns [true] with [lastSeq = nextSeq - 1] and leaves the store as it
    was, and otherwise the first [nextSeq - firstSeq] entries are skipped:
    the call writes from that index on, which is exactly appending the rest
    of the batch at [nextSeq].  In (a) and (b) a successful call ends with
    [lastSeq = firstSeq + count - 1] and [nextSeq = firstSeq + count]
    (modulo 2^32). *)
Theorem appendBatch_sequence_alignment
    (st : t) (payloads : list byte) (ps : Z) (adjTs : list Z) (firstSeq n : Z)
    (Hguards : appendBatch_guards st payloads ps adjTs n = true)
    (Hfirst : 0 <= firstSeq < 2 ^ 32) (Hn : 0 <= n < 2 ^ 32)
    (Hnext : 0 <= nextSeq (_meta st) < 2 ^ 32) :
  let eff := if 0 <? _effectiveMaxEntries st then _effectiveMaxEntries st
             else maxEntries (_meta st) in
  let fresh := freshMeta ps (timestampBytes (_meta st)) (timestampResolutionUs (_meta st))
                         (maxEntries (_meta st)) in
  let aligned := set_meta st (set_nextSeq (_meta st) firstSeq) in
  let erased := mk (_nvsNamespace st) true true (set_nextSeq fresh firstSeq)
                   (_effectiveMaxEntries st) (_nvsHandle st)
                   (<[OFFLINE_NVS_META_KEY := MetaBlob fresh]> ∅) in
  let diff := nextSeq (_meta st) - firstSeq in
  (count (_meta st) = 0 ->
     appendBatch_align st ps firstSeq = (true, aligned)
     /\ nextSeq (_meta aligned) = firstSeq
     /\ nvs aligned = nvs st
     /\ appendBatch st payloads ps adjTs firstSeq n
        = appendBatch_write aligned payloads ps adjTs firstSeq n 0 eff
     /\ forall last st',
          appendBatch st payloads ps adjTs firstSeq n = (true, last, st') ->
          last = u32 (firstSeq + n - 1) /\ nextSeq (_meta st') = u32 (firstSeq + n))
  /\ (count (_meta st) <> 0 -> nextSeq (_meta st) < firstSeq ->
      _nvsHandle st <> 0 -> recordsPerSegment fresh <> 0 ->
      appendBatch_align st ps firstSeq = (true, erased)
      /\ appendBatch st payloads ps adjTs firstSeq n
         = appendBatch_write erased payloads ps adjTs firstSeq n 0 eff
      /\ forall last st',
           appendBatch st payloads ps adjTs firstSeq n = (true, last, st') ->
           last = u32 (firstSeq + n - 1) /\ nextSeq (_meta st') = u32 (firstSeq + n))
  /\ (count (_meta st) <> 0 -> firstSeq < nextSeq (_meta st) ->
      (n <= diff ->
         appendBatch st payloads ps adjTs firstSeq n
         = (true, nextSeq (_meta st) - 1, st))
      /\ (diff < n ->
          appendBatch st payloads ps adjTs firstSeq n
          = appendBatch_write st payloads ps adjTs firstSeq n diff eff
          /\ (0 <= ps -> n * ps < 2 ^ 32 ->
              appendBatch st payloads ps adjTs firstSeq n
              = appendBatch st (drop (Z.to_nat (diff * ps)) payloads) ps
                            (drop (Z.to_nat diff) adjTs) (nextSeq (_meta st)) (n - diff)))).
Proof.
  intros eff fresh aligned erased diff.
  pose proof (proj1 (appendBatch_guarded _ _ _ _ _) Hguards)
    as (Hready & Hvalid & Hps & Hn0 & Hadj & Hpay & Heff).
  assert (Hdone : forall s last st',
            nextSeq (_meta s) = firstSeq ->
            appendBatch_write s payloads ps adjTs firstSeq n 0 eff = (true, last, st') ->
            last = u32 (firstSeq + n - 1) /\ nextSeq (_meta st') = u32 (firstSeq + n)).
  { intros s last st' _ Hw. apply appendBatch_write_meta in Hw; [|lia].
    destruct Hw as (_ & _ & _ & -> & -> & _). rewrite u32_succ_idemp.
    split; f_equal; lia. }
  split; [|split].
  - (* (a) initial alignment *)
    intros Hc.
    assert (Ha : appendBatch_align st ps firstSeq = (true, aligned)).
    { unfold appendBatch_align. now rewrite Hc. }
    assert (Hb : appendBatch st payloads ps adjTs firstSeq n
                 = appendBatch_write aligned payloads ps adjTs firstSeq n 0 eff).
    { unfold appendBatch. rewrite Hguards, Ha. cbn [negb].
      cbn [aligned set_meta _meta set_nextSeq set_head_count_drops_nextSeq nextSeq].
      rewrite Z.ltb_irrefl. reflexivity. }
    split; [exact Ha|]. split; [reflexivity|]. split; [reflexivity|]. split; [exact Hb|].
    intros last st' Hr. rewrite Hb in Hr. now apply (Hdone aligned).
  - (* (b) sequence gap *)
    intros Hc Hgap Hh Hrps.
    pose proof (appendBatch_align_gap st ps firstSeq Hc Hgap Hh Hrps) as Ha.
    fold fresh in Ha. fold erased in Ha.
    assert (Hb : appendBatch st payloads ps adjTs firstSeq n
                 = appendBatch_write erased payloads ps adjTs firstSeq n 0 eff).
    { unfold appendBatch. rewrite Hguards, Ha. cbn [negb].
      cbn [erased _meta set_nextSeq set_head_count_drops_nextSeq nextSeq].
      rewrite Z.ltb_irrefl. reflexivity. }
    split; [exact Ha|]. split; [exact Hb|].
    intros last st' Hr. rewrite Hb in Hr. now apply (Hdone erased).
  - (* (c) overlap with what is stored *)
    intros Hc Hover.
    assert (Ha : appendBatch_align st ps firstSeq = (true, st)).
    { unfold appendBatch_align. apply Z.eqb_neq in Hc. rewrite Hc.
      destruct (Z.ltb_spec (nextSeq (_meta st)) firstSeq); [lia|reflexivity]. }
    assert (Hdiff : u32 (nextSeq (_meta st) - firstSeq) = diff)
      by (apply u32_small; unfold diff; lia).
    split.
    + intros Hall. unfold appendBatch. rewrite Hguards, Ha. cbn [negb].
      apply Z.ltb_lt in Hover. rewrite Hover, Hdiff.
      apply Z.leb_le in Hall. rewrite Hall.
      apply Z.ltb_lt in Hover.
      destruct (Z.ltb_spec 0 (nextSeq (_meta st))); [|lia].
      rewrite u32_small by lia. reflexivity.
    + intros Hsome.
      assert (Hb : appendBatch st payloads ps adjTs firstSeq n
                   = appendBatch_write st payloads ps adjTs firstSeq n diff eff).
      { unfold appendBatch. rewrite Hguards, Ha. cbn [negb].
        apply Z.ltb_lt in Hover. rewrite Hover, Hdiff.
        destruct (Z.leb_spec n diff); [lia|reflexivity]. }
      split; [exact Hb|]. intros Hps0 Hsz. rewrite Hb.
      assert (Hg' : appendBatch_guards st (drop (Z.to_nat (diff * ps)) payloads) ps
                      (drop (Z.to_nat diff) adjTs) (n - diff) = true).
      { apply appendBatch_guarded. rewrite !length_drop.
        rewrite u32_small in Hpay by nia. unfold diff in *.
        split_and!; try assumption; try lia.
        rewrite u32_small by nia. nia. }
      unfold appendBatch at 1. rewrite Hg'. cbn [negb].
      assert (Ha' : appendBatch_align st ps (nextSeq (_meta st)) = (true, st)).
      { unfold appendBatch_align. apply Z.eqb_neq in Hc. rewrite Hc.
        now rewrite Z.ltb_irrefl. }
      rewrite Ha', Z.ltb_irrefl. cbn [negb]. fold eff.
      unfold appendBatch_write. rewrite Z.sub_0_r.
      rewrite (appendBatch_loop_shift diff payloads ps adjTs firstSeq)
        by (unfold diff in *; nia).
      replace (diff - diff) with 0 by lia.
      replace (firstSeq + diff) with (nextSeq (_meta st)) by (unfold diff; lia).
      reflexivity.
Qed.

Lemma appendBatch_sequence_alignment_witness :
  let st := snd (appendBatch (snd (configure default "dev" 2 2 1000 8))
                             ["000"; "001"]%byte 2 [1000] 0 1) in
  let payloads := ["000"; "001"; "000"; "002"; "000"; "003"]%byte in
  let adjTs := [1000; 1001; 1002] in
  let eff := if 0 <? _effectiveMaxEntries st then _effectiveMaxEntries st
             else maxEntries (_meta st) in
  let diff := nextSeq (_meta st) - 0 in
  appendBatch st payloads 2 adjTs 0 3
  = appendBatch_write st payloads 2 adjTs 0 3 diff eff
  /\ appendBatch st payloads 2 adjTs 0 3
     = appendBatch st (drop (Z.to_nat (diff * 2)) payloads) 2
                   (drop (Z.to_nat diff) adjTs) (nextSeq (_meta st)) (3 - diff).
Proof.
  intros st payloads adjTs eff diff.
  assert (Hg : appendBatch_guards st payloads 2 adjTs 3 = true) by (vm_compute; reflexivity).
  assert (Hnx : 0 <= nextSeq (_meta st) < 2 ^ 32)
    by (vm_compute; split; [discriminate | reflexivity]).
  destruct (appendBatch_sequence_alignment st payloads 2 adjTs 0 3 Hg
              ltac:(lia) ltac:(lia) Hnx) as (_ & _ & Hc).
  destruct Hc as [_ Hsome];
    [vm_compute; discriminate | vm_compute; reflexivity |].
  destruct Hsome as [H1 H2]; [vm_compute; reflexivity|].
  split; [exact H1 | apply H2; lia].
Defined.

End PersistentRing.
(** ** DeviceStatus *)

Section Device.

Import DeviceStatus.

Context {A : Type} `{PollDataAggregator A}.

(** A fragment only grows the accumulator. *)
Lemma storePollResults_fragment (d : t A) nextReqIdx timeNowUs frag pause :
  nextReqIdx <> 0 ->
  storePollResults d nextReqIdx timeNowUs frag pause
  = (true,
     mk (deviceTypeIndex d)
        (mkPolling (pollIntervalUs (deviceIdentPolling d)) pause nextReqIdx
                   (lastPollTimeUs (deviceIdentPolling d))
                   (pollReqs (deviceIdentPolling d))
                   (partialPollResult (deviceIdentPolling d) ++ frag))
        (dataAggregator d) (offlineData d) (_offlineSeq d)
        (_offlineBufferPaused d) (_offlineDrainPaused d)).
Proof.
  intros Hne. unfold storePollResults. apply Z.eqb_neq in Hne. rewrite Hne. reflexivity.
Qed.

Lemma storeFragments_spec (frags : list (Z * Z * list byte * Z)) : forall d : t A,
  Forall (fun f => fst (fst (fst f)) <> 0) frags ->
  partialPollResult (deviceIdentPolling (storeFragments d frags))
  = partialPollResult (deviceIdentPolling d) ++ concat (map (fun f => snd (fst f)) frags)
  /\ dataAggregator (storeFragments d frags) = dataAggregator d
  /\ offlineData (storeFragments d frags) = offlineData d
  /\ _offlineSeq (storeFragments d frags) = _offlineSeq d
  /\ _offlineBufferPaused (storeFragments d frags) = _offlineBufferPaused d.
Proof.
  induction frags as [|[[[idx tm] frag] pause] rest IH]; intros d Hall.
  - cbn. rewrite app_nil_r. repeat split.
  - inversion Hall as [|? ? Hidx Hrest]; subst. cbn [fst snd] in Hidx.
    cbn [storeFragments]. rewrite storePollResults_fragment by assumption. cbn [snd].
    match goal with |- context [storeFragments ?d' rest] =>
      destruct (IH d' Hrest) as (-> & -> & -> & -> & ->)
    end.
    cbn [deviceIdentPolling partialPollResult dataAggregator offlineData _offlineSeq
         _offlineBufferPaused map concat fst snd].
    rewrite <- app_assoc. repeat split.
Qed.

Lemma storePollResults_complete (d : t A) timeNowUs result pause :
  storePollResults d 0 timeNowUs result pause
  = storeCompleted d
      (mkPolling (pollIntervalUs (deviceIdentPolling d))
                 (partialPollPauseAfterSendMs (deviceIdentPolling d))
                 (partialPollNextReqIdx (deviceIdentPolling d))
                 (lastPollTimeUs (deviceIdentPolling d))
                 (pollReqs (deviceIdentPolling d)) [])
      timeNowUs (partialPollResult (deviceIdentPolling d) ++ result).
Proof.
  unfold storePollResults, getPartialPollResultsAndClear. cbn [Z.eqb negb].
  destruct (deviceIdentPolling d) as [pi pp pn pl pr acc].
  cbn [partialPollResult pollIntervalUs partialPollPauseAfterSendMs
       partialPollNextReqIdx lastPollTimeUs pollReqs].
  destruct acc; reflexivity.
Qed.

(** C6 (amended).  [storePollResults] with [nextReqIdx <> 0] returns
    [true], appends the fragment to the partial-poll accumulator, records
    [nextReqIdx] and the pause, and leaves the aggregator, the RAM ring and
    [offlineSeq] alone.  [storePollResults] with [nextReqIdx = 0] after a
    run of such fragments hands the concatenation of the accumulator, the
    fragments and the new result to the aggregator as one sample (whose
    answer is the return value), clears the accumulator and increments
    [offlineSeq]; it puts that concatenation into the RAM ring, under the
    old [offlineSeq], only when the ring is configured and buffering is not
    paused, and otherwise leaves the ring as it was. *)
Theorem storePollResults_assembles_fragments
    (d : t A) (frags : list (Z * Z * list byte * Z)) (timeNowUs : Z)
    (result : list byte) (pause : Z)
    (Hfrags : Forall (fun f => fst (fst (fst f)) <> 0) frags) :
  let d1 := storeFragments d frags in
  let whole := partialPollResult (deviceIdentPolling d)
               ++ concat (map (fun f => snd (fst f)) frags) ++ result in
  let d2 := snd (storePollResults d1 0 timeNowUs result pause) in
  (forall nextReqIdx t frag p,
     nextReqIdx <> 0 ->
     let r := storePollResults d nextReqIdx t frag p in
     fst r = true
     /\ partialPollResult (deviceIdentPolling (snd r))
        = partialPollResult (deviceIdentPolling d) ++ frag
     /\ partialPollNextReqIdx (deviceIdentPolling (snd r)) = nextReqIdx
     /\ partialPollPauseAfterSendMs (deviceIdentPolling (snd r)) = p
     /\ dataAggregator (snd r) = dataAggregator d
     /\ offlineData (snd r) = offlineData d
     /\ _offlineSeq (snd r) = _offlineSeq d)
  /\ dataAggregator d1 = dataAggregator d
  /\ offlineData d1 = offlineData d
  /\ _offlineSeq d1 = _offlineSeq d
  /\ fst (storePollResults d1 0 timeNowUs result pause)
     = fst (agg_put (dataAggregator d) timeNowUs whole)
  /\ dataAggregator d2 = snd (agg_put (dataAggregator d) timeNowUs whole)
  /\ partialPollResult (deviceIdentPolling d2) = []
  /\ _offlineSeq d2 = u32 (_offlineSeq d + 1)
  /\ offlineData d2
     = (if OfflineDataStore.isConfigured (offlineData d) && negb (_offlineBufferPaused d)
        then snd (OfflineDataStore.put (offlineData d) timeNowUs (_offlineSeq d) whole)
        else offlineData d).
Proof.
  cbv zeta. split.
  - intros nextReqIdx t frag p Hne. rewrite storePollResults_fragment by assumption.
    cbn. repeat split.
  - destruct (storeFragments_spec frags d Hfrags) as (Hacc & Hagg & Hring & Hseq & Hpaused).
    rewrite storePollResults_complete.
    unfold storeCompleted. rewrite Hacc, Hagg, Hring, Hseq, Hpaused, <- app_assoc.
    destruct (agg_put (dataAggregator d) timeNowUs _) as [aggOk agg].
    cbn [fst snd dataAggregator deviceIdentPolling partialPollResult _offlineSeq offlineData].
    repeat split.
Qed.

End Device.

Section DeviceExamples.

Import DeviceStatus.

(** C6 (as stated, refuted).  With buffering paused, the fragment
    [AA BB] followed by the final result [CC] reaches the aggregator as
    [AA BB CC] and uses up sequence number 7, but the RAM ring receives
    nothing. *)
Lemma storePollResults_paused_counterexample :
  let d1 := snd (storePollResults (exampleDevice true) 1 0 ["170"; "187"]%byte 5) in
  let d2 := snd (storePollResults d1 0 5000 ["204"]%byte 0) in
  dataAggregator d2 = [(5000, ["170"; "187"; "204"]%byte)]
  /\ _offlineSeq d2 = 8
  /\ OfflineDataStore._count (offlineData d2) = 0
  /\ OfflineDataStore.entries (offlineData d2) = []
  /\ offlineData d2 = offlineData (exampleDevice true)
  /\ ~ (exists a, OfflineDataStore.entries (offlineData d2)
                  = [(["170"; "187"; "204"]%byte, a)]).
Proof.
  cbv zeta. repeat split; try (vm_compute; reflexivity).
  intros [a Ha]. vm_compute in Ha. discriminate Ha.
Qed.

Lemma storePollResults_assembles_fragments_witness :
  let d := exampleDevice false in
  let d1 := storeFragments d [(1, 0, ["170"; "187"]%byte, 5)] in
  let d2 := snd (storePollResults d1 0 5000 ["204"]%byte 0) in
  partialPollResult (deviceIdentPolling d2) = []
  /\ _offlineSeq d2 = u32 (_offlineSeq d + 1)
  /\ offlineData d2
     = (if OfflineDataStore.isConfigured (offlineData d) && negb (_offlineBufferPaused d)
        then snd (OfflineDataStore.put (offlineData d) 5000 (_offlineSeq d)
                    ([] ++ concat (map (fun f => snd (fst f)) [(1, 0, ["170"; "187"]%byte, 5)])
                        ++ ["204"]%byte))
        else offlineData d).
Proof.
  cbv zeta.
  destruct (storePollResults_assembles_fragments (exampleDevice false)
              [(1, 0, ["170"; "187"]%byte, 5)] 5000 ["204"]%byte 0)
    as (_ & _ & _ & _ & _ & _ & Hacc & Hseq & Hring).
  - repeat constructor. cbn. discriminate.
  - repeat split; assumption.
Defined.

End DeviceExamples.
(** ** OfflineDataStore: the ring as a first-in first-out queue *)

Section RingQueue.

Import OfflineDataStore.

Lemma reachable_weaken (okInit okInit' : Z -> Z -> Z -> Z -> Prop)
    (okPut okPut' : t -> Z -> Z -> list byte -> Prop) s :
  (forall a b c d, okInit a b c d -> okInit' a b c d) ->
  (forall s0 t q d, okPut s0 t q d -> okPut' s0 t q d) ->
  reachable okInit okPut s -> reachable okInit' okPut' s.
Proof.
  intros Hi Hp Hr. induction Hr.
  - apply reach_default.
  - apply reach_init; auto.
  - apply reach_clear; auto.
  - apply reach_put; auto.
  - apply reach_get; auto.
  - apply reach_consume; auto.
Qed.

Ltac reach_calls :=
  repeat first
    [ apply reach_put;
        [| unfold is_u64; lia | unfold is_u32; lia
         | first [exact I
                 | unfold orderedPut, UINT32_MAX; split; vm_compute;
                   solve [discriminate | reflexivity]
                 | vm_compute; reflexivity] ]
    | apply reach_consume; [| unfold is_u32; lia ]
    | apply reach_clear
    | apply reach_init;
        [| unfold is_u32; lia .. | first [exact I | unfold sizedInit; lia] ]
    | apply reach_default ].

(** The number of entries [get] returns respects both caps. *)
Lemma get_caps s rs maxResp cons startIdx maxBytes :
  bounded s -> is_u32 maxResp -> is_u32 startIdx -> is_u32 maxBytes ->
  let r := get s rs maxResp cons startIdx maxBytes in
  0 <= get_ret r
  /\ (0 < maxResp -> get_ret r <= maxResp)
  /\ (0 < maxBytes ->
      get_ret r * u32 (_payloadSize s + META_STORAGE_BYTES) <= maxBytes).
Proof.
  intros (Hm & Hc & Hh0 & Hh & Hcfg0) HmaxResp Hstart HmaxBytes. unfold is_u32 in *.
  cbv zeta. unfold get.
  destruct (isConfigured s) eqn:Hcfg; cbn [negb get_ret]; [|lia].
  set (st := if cons && (0 <? startIdx) then 0 else startIdx).
  assert (Hst : 0 <= st) by (unfold st; destruct (cons && (0 <? startIdx)); lia).
  destruct ((_count s =? 0) || (_count s <=? st)) eqn:Hempty; cbn [get_ret]; [lia|].
  apply orb_false_iff in Hempty as [Hne Hlt].
  apply Z.eqb_neq in Hne. apply Z.leb_gt in Hlt.
  set (n1 := if (maxResp =? 0) || (_count s - st <? maxResp) then _count s - st else maxResp).
  assert (Hn1 : 0 < n1 /\ (0 < maxResp -> n1 <= maxResp)).
  { unfold n1. destruct (Z.eqb_spec maxResp 0); cbn [orb]; [lia|].
    destruct (Z.ltb_spec (_count s - st) maxResp); lia. }
  set (bpe := u32 (_payloadSize s + META_STORAGE_BYTES)).
  pose proof (u32_range (_payloadSize s + META_STORAGE_BYTES)) as Hbpe. fold bpe in Hbpe.
  set (mfb := if bpe =? 0 then 0 else maxBytes / bpe).
  assert (Hmfb : 0 <= mfb /\ mfb * bpe <= maxBytes).
  { unfold mfb. destruct (Z.eqb_spec bpe 0); [lia|].
    split; [apply Z.div_pos; lia|].
    pose proof (Z.mul_div_le maxBytes bpe ltac:(lia)). lia. }
  destruct ((0 <? maxBytes) && (mfb =? 0)) eqn:Hcap; cbn [get_ret]; [lia|].
  set (n2 := if (0 <? maxBytes) && (mfb <? n1) then mfb else n1).
  assert (Hn2 : 0 < n2 /\ n2 <= n1 /\ (0 < maxBytes -> n2 <= mfb)).
  { unfold n2. destruct (Z.ltb_spec 0 maxBytes); cbn [andb] in *; [|lia].
    apply Z.eqb_neq in Hcap.
    destruct (Z.ltb_spec mfb n1); lia. }
  destruct (Z.eqb_spec n2 0); [lia|].
  destruct (get_loop s _ (Z.to_nat n2) 0 _) as [d ms].
  destruct Hcap; cbn [get_ret].
  split; [lia|]. split; [lia|]. intros Hb. nia.
Qed.

Lemma entries_payload_length s (k : nat) p a :
  wf s -> entries s !! k = Some (p, a) -> length p = Z.to_nat (_payloadSize s).
Proof.
  intros Hwf Hk.
  assert (Hlt : Z.of_nat k < _count s).
  { apply lookup_lt_Some in Hk. rewrite entries_length in Hk. lia. }
  rewrite entries_lookup in Hk by assumption.
  pose proof (slotOf_range s k Hwf Hlt) as Hidx.
  destruct Hwf as (Hb & Hme & Hps & Hprod & Hbuf & Hadj).
  unfold slot in Hk. injection Hk as <- _.
  unfold slice. rewrite length_take, length_drop, Hbuf.
  assert (slotOf s k * _payloadSize s + _payloadSize s <= _maxEntries s * _payloadSize s)
    by nia.
  assert (0 <= slotOf s k * _payloadSize s) by nia.
  rewrite u32_small by nia. lia.
Qed.

Lemma concat_length_uniform {A} (l : list (list A)) (m : nat) :
  Forall (fun p => length p = m) l -> length (concat l) = (length l * m)%nat.
Proof.
  induction 1 as [|p l Hp _ IH]; [reflexivity|].
  cbn [concat length]. rewrite length_app, IH, Hp. lia.
Qed.

Lemma entries_window_length s (k n : nat) :
  wf s -> Z.of_nat (k + n) <= _count s ->
  length (concat (fst <$> take n (drop k (entries s))))
  = (n * Z.to_nat (_payloadSize s))%nat.
Proof.
  intros Hwf Hkn.
  rewrite (concat_length_uniform _ (Z.to_nat (_payloadSize s))).
  - rewrite length_fmap, length_take, length_drop, entries_length. f_equal. lia.
  - apply Forall_forall. intros p Hp.
    apply list_elem_of_fmap in Hp as ([p' a] & -> & Hin).
    apply list_elem_of_lookup in Hin as (j & Hj).
    apply lookup_take_Some in Hj as [Hj _]. rewrite lookup_drop in Hj.
    now apply (entries_payload_length s _ _ _ Hwf Hj).
Qed.

(** X1.  What [get] hands back.  For a store reached by [init] calls whose
    buffer size fits and any [put], [get], [consume] and [clear] calls:
    the number of entries returned is at most the entries available from
    the start offset, at most [maxResponsesToReturn] when that is non-zero,
    and small enough that payloads plus four metadata bytes per entry (a
    [uint32_t] sum) fit [maxBytes] when that is non-zero; the data is the concatenation of the
    payloads of that many queue entries, oldest first, beginning at the
    start offset (offset 0 when consuming); there is one meta record per
    entry; a consuming call removes exactly the returned entries from the
    front of the queue and a non-consuming call leaves the store as it
    was. *)
Theorem get_returns_oldest_entries (s : t) (rs maxResp startIdx maxBytes : Z) (cons : bool)
    (Hreach : reachable sizedInit anyPut s)
    (HmaxResp : is_u32 maxResp) (Hstart : is_u32 startIdx) (HmaxBytes : is_u32 maxBytes) :
  let r := get s rs maxResp cons startIdx maxBytes in
  let k := if cons then 0%nat else Z.to_nat startIdx in
  let n := Z.to_nat (get_ret r) in
  0 <= get_ret r <= Z.max 0 (_count s - Z.of_nat k)
  /\ (0 < maxResp -> get_ret r <= maxResp)
  /\ (0 < maxBytes -> get_ret r * u32 (_payloadSize s + META_STORAGE_BYTES) <= maxBytes)
  /\ get_data r = concat (fst <$> take n (drop k (entries s)))
  /\ Z.of_nat (length (get_data r)) = get_ret r * _payloadSize s
  /\ Z.of_nat (length (get_metas r)) = get_ret r
  /\ entries (get_store r) = (if cons then drop n (entries s) else entries s)
  /\ (cons = false -> get_store r = s).
Proof.
  pose proof (reachable_wf _ _ Hreach) as Hwf. pose proof Hwf as (Hb & Hwf').
  cbv zeta.
  pose proof (get_caps s rs maxResp cons startIdx maxBytes Hb HmaxResp Hstart HmaxBytes)
    as (Hc0 & Hc1 & Hc2). cbv zeta in Hc0, Hc1, Hc2.
  destruct (get_cases s rs maxResp cons startIdx maxBytes Hb HmaxResp Hstart HmaxBytes)
    as [(Hr & Hm & Hd & Hs) | (k & n & Hcfg & Hn & Hkn & Hk & Hr & Hloop & Hs)];
    cbv zeta in *.
  - rewrite Hr, Hm, Hd, Hs in *. change (Z.to_nat 0) with 0%nat. rewrite take_0, drop_0.
    cbn [fmap list_fmap concat length].
    split_and!; try lia; try reflexivity; try assumption; [now destruct cons].
  - assert (Hme : 0 < _maxEntries s) by (apply isConfigured_true in Hcfg; lia).
    assert (Hkk : k = if cons then 0%nat else Z.to_nat startIdx).
    { unfold is_u32 in Hstart. destruct cons; cbn [andb] in Hk; [|lia].
      destruct (Z.ltb_spec 0 startIdx); lia. }
    rewrite <- Hkk.
    rewrite get_loop_entries in Hloop by (assumption || lia).
    injection Hloop as Hd Hm.
    rewrite Hr, Hd, Hm, Hs in *. rewrite Nat2Z.id.
    rewrite entries_window_length by assumption.
    rewrite length_imap, length_take, length_drop, entries_length.
    split_and!; try lia; try reflexivity; try assumption.
    + destruct cons; [|reflexivity]. apply entries_set_count. lia.
    + intros ->. reflexivity.
Qed.

Lemma get_returns_oldest_entries_witness :
  let s0 := init default 3 2 2 1000 in
  let s1 := snd (put s0 1000000 10 ["000"; "001"]%byte) in
  let s2 := snd (put s1 1001000 11 ["000"; "002"]%byte) in
  let r := get s2 0 1 true 0 0 in
  get_data r = concat (fst <$> take (Z.to_nat (get_ret r)) (drop 0 (entries s2)))
  /\ entries (get_store r) = drop (Z.to_nat (get_ret r)) (entries s2).
Proof.
  cbv zeta.
  pose proof (get_returns_oldest_entries
                (snd (put (snd (put (init default 3 2 2 1000) 1000000 10 ["000"; "001"]%byte))
                          1001000 11 ["000"; "002"]%byte))
                0 1 0 0 true) as Hx.
  cbv zeta in Hx.
  refine ((fun H => conj (proj1 (proj2 (proj2 (proj2 H))))
                         (proj1 (proj2 (proj2 (proj2 (proj2 (proj2 (proj2 H))))))))
            (Hx _ _ _ _)).
  - reach_calls.
  - unfold is_u32; lia.
  - unfold is_u32; lia.
  - unfold is_u32; lia.
Defined.

(** *** A run of puts *)

Lemma puts_spec (l : list (Z * Z * list byte)) : forall s,
  wf s -> isConfigured s = true -> is_u32 (_drops s) ->
  Forall (fun x => Z.of_nat (length (snd x)) = _payloadSize s) l ->
  let s' := puts s l in
  wf s' /\ isConfigured s' = true /\ is_u32 (_drops s')
  /\ _maxEntries s' = _maxEntries s /\ _payloadSize s' = _payloadSize s
  /\ _count s' = Z.min (_maxEntries s) (_count s + Z.of_nat (length l))
  /\ _drops s'
     = u32 (_drops s + Z.max 0 (_count s + Z.of_nat (length l) - _maxEntries s))
  /\ (forall x, last l = Some x -> _nextSeq s' = u32 (snd (fst x) + 1))
  /\ fst <$> entries s'
     = drop (length (entries s) + length l - Z.to_nat (_maxEntries s))
            ((fst <$> entries s) ++ (snd <$> l)).
Proof.
  induction l as [|[[t q] d] rest IH]; intros s Hwf Hcfg Hdr Hlen; cbv zeta.
  - cbn [puts length]. pose proof Hwf as ((_ & Hc & _) & _).
    split_and!; try assumption; try reflexivity.
    + lia.
    + rewrite u32_small; unfold is_u32 in Hdr; lia.
    + intros x Hx; discriminate.
    + rewrite entries_length.
      replace (Z.to_nat (_count s) + 0 - Z.to_nat (_maxEntries s))%nat with 0%nat by lia.
      cbn [fmap list_fmap]. now rewrite app_nil_r.
  - cbn [puts]. inversion Hlen as [|x l' Hd Hrest]; subst. cbn [snd] in Hd.
    pose proof (put_step s t q d Hwf Hcfg Hd)
      as (Hwf1 & Hcfg1 & Hme1 & Hps1 & Hc1 & Hd1 & Hn1 & He1). cbv zeta in *.
    set (s1 := snd (put s t q d)) in *.
    assert (Hdr1 : is_u32 (_drops s1)).
    { rewrite Hd1. destruct (_count s <? _maxEntries s); [assumption | apply u32_range]. }
    assert (Hrest' : Forall (fun x => Z.of_nat (length (snd x)) = _payloadSize s1) rest)
      by (now rewrite Hps1).
    destruct (IH s1 Hwf1 Hcfg1 Hdr1 Hrest') as (A1 & A2 & A3 & A4 & A5 & A6 & A7 & A8 & A9).
    pose proof Hwf as ((_ & Hc & _) & _).
    apply isConfigured_true in Hcfg as [Hme _].
    pose proof (entries_length s) as HlenE.
    pose proof (entries_length s1) as HlenE1.
    cbn [length]. rewrite Nat2Z.inj_succ.
    split_and!; try assumption.
    + congruence.
    + congruence.
    + rewrite A6, Hme1, Hc1. destruct (Z.ltb_spec (_count s) (_maxEntries s)); lia.
    + rewrite A7, Hme1, Hc1, Hd1. unfold u32, wrap.
      destruct (Z.ltb_spec (_count s) (_maxEntries s)).
      * f_equal; lia.
      * rewrite Zplus_mod_idemp_l. f_equal; lia.
    + intros x Hx. destruct rest as [|y rest'].
      * cbn in Hx. injection Hx as <-. cbn [puts fst snd]. exact Hn1.
      * apply A8. exact Hx.
    + rewrite A9, Hme1, HlenE1, Hc1, He1, HlenE.
      destruct (Z.ltb_spec (_count s) (_maxEntries s)).
      * rewrite fmap_app. cbn [fmap list_fmap snd fst].
        rewrite <- app_assoc. cbn [app]. f_equal. lia.
      * assert (Hfull : _count s = _maxEntries s) by lia.
        destruct (entries s) as [|e0 E'] eqn:HE; [cbn [length] in HlenE; lia|].
        cbn [length] in HlenE. cbn [drop]. rewrite drop_0.
        rewrite fmap_app. cbn [fmap list_fmap snd fst app].
        rewrite <- app_assoc. cbn [app].
        replace (Z.to_nat (_count s) + length rest - Z.to_nat (_maxEntries s))%nat
          with (length rest) by lia.
        replace (Z.to_nat (_count s) + S (length rest) - Z.to_nat (_maxEntries s))%nat
          with (S (length rest)) by lia.
        reflexivity.
Qed.

Lemma reachable_payloadSize okInit okPut s :
  reachable okInit okPut s -> is_u32 (_payloadSize s).
Proof.
  induction 1 as [|s me ps tb tr _ IH _ Hps _ _ _|s _ IH|s t q d _ IH _ _ _
                 |s rs mr cs st mb Hr IH _ Hmr Hst Hmb|s n _ IH _].
  - unfold is_u32; cbn; lia.
  - exact Hps.
  - exact IH.
  - now rewrite (proj1 (proj2 (put_config s t q d))).
  - destruct (get_cases s rs mr cs st mb (reachable_bounded _ _ _ Hr) Hmr Hst Hmb)
      as [(_ & _ & _ & ->)|(k & n & _ & _ & _ & _ & _ & _ & ->)]; [assumption|].
    destruct cs; exact IH.
  - unfold consume. destruct (isConfigured s); exact IH.
Qed.

(** X2.  First in, first out.  Starting from an empty, configured store
    (as [init] or [clear] leave it), after a non-empty run of accepted
    [put] calls that carry consecutive sequence numbers, a [get] for
    everything returns the payloads of the last [min (n, maxEntries)] puts
    in the order they were put, each reported with the sequence number it
    was put with; [count] is that minimum and [drops] has grown by the
    number of payloads that were overwritten. *)
Theorem puts_then_get_is_fifo (s : t) (l : list (Z * Z * list byte)) (q0 : Z)
    (Hreach : reachable sizedInit anyPut s)
    (Hcfg : isConfigured s = true) (Hempty : _count s = 0)
    (Hne : l <> [])
    (Hlen : Forall (fun x => Z.of_nat (length (snd x)) = _payloadSize s) l)
    (Hseq : forall (i : nat) x, l !! i = Some x -> snd (fst x) = q0 + Z.of_nat i)
    (Hq : 0 <= q0 /\ q0 + Z.of_nat (length l) < 2 ^ 32) :
  let s' := puts s l in
  let kept := drop (length l - Z.to_nat (_maxEntries s)) l in
  _count s' = Z.min (_maxEntries s) (Z.of_nat (length l))
  /\ _drops s' = u32 (_drops s + Z.max 0 (Z.of_nat (length l) - _maxEntries s))
  /\ forall rs cons,
       let r := get s' rs 0 cons 0 0 in
       get_ret r = _count s'
       /\ get_data r = concat (snd <$> kept)
       /\ seq <$> get_metas r = (fun x => snd (fst x)) <$> kept.
Proof.
  pose proof (reachable_wf _ _ Hreach) as Hwf.
  pose proof (reachable_drops _ _ _ Hreach) as Hdr.
  destruct (puts_spec l s Hwf Hcfg Hdr Hlen) as (A1 & A2 & A3 & A4 & A5 & A6 & A7 & A8 & A9).
  cbv zeta in *.
  pose proof (entries_length s) as HlenE. rewrite Hempty in HlenE.
  destruct (entries s) as [|? ?] eqn:HE; [|discriminate HlenE].
  cbn [length fmap list_fmap app] in A9. rewrite Nat.add_0_l in A9.
  rewrite Hempty, Z.add_0_l in A6, A7.
  assert (Hme : 0 < _maxEntries s) by (apply isConfigured_true in Hcfg; lia).
  assert (Hn : (0 < length l)%nat) by (destruct l; [congruence | cbn; lia]).
  assert (Hcnt : 0 < _count (puts s l)) by lia.
  destruct (last l) as [xl|] eqn:Hlast;
    [|apply last_None in Hlast; congruence].
  pose proof (A8 xl eq_refl) as Hnext.
  rewrite last_lookup in Hlast. apply Hseq in Hlast. rewrite Hlast in Hnext.
  replace (q0 + Z.of_nat (Nat.pred (length l)) + 1) with (q0 + Z.of_nat (length l))
    in Hnext by lia.
  rewrite u32_small in Hnext by lia.
  split; [assumption|]. split; [assumption|].
  intros rs cons. rewrite (get_all _ rs cons A1 A2 Hcnt).
  cbn [get_ret get_data get_metas].
  split; [reflexivity|]. split.
  - rewrite A9. rewrite <- fmap_drop. reflexivity.
  - apply list_eq. intros i.
    rewrite !list_lookup_fmap, list_lookup_imap, lookup_drop.
    pose proof (entries_length (puts s l)) as HlenE'.
    destruct (decide (i < Z.to_nat (_count (puts s l)))%nat) as [Hi|Hi].
    + destruct (lookup_lt_is_Some_2 (entries (puts s l)) i ltac:(lia)) as [e He].
      destruct (lookup_lt_is_Some_2 l (length l - Z.to_nat (_maxEntries s) + i)
                  ltac:(lia)) as [x Hx].
      rewrite He, Hx. cbn [fmap option_fmap option_map seq entry_meta]. f_equal.
      rewrite (Hseq _ _ Hx).
      destruct (Z.ltb_spec (_count (puts s l)) (_nextSeq (puts s l))).
      * rewrite (u32_small (_nextSeq _ - _)) by lia. rewrite u32_small by lia. lia.
      * rewrite u32_small by lia. lia.
    + rewrite (lookup_ge_None_2 (entries (puts s l))) by lia.
      rewrite (lookup_ge_None_2 l) by lia. reflexivity.
Qed.

Lemma puts_then_get_is_fifo_witness :
  let s := init default 2 2 2 1000 in
  let l := [(1000000, 10, ["000"; "001"]%byte); (1001000, 11, ["000"; "002"]%byte);
            (1002000, 12, ["000"; "003"]%byte)] in
  _count (puts s l) = Z.min (_maxEntries s) 3
  /\ forall rs cons,
       get_data (get (puts s l) rs 0 cons 0 0) = ["000"; "002"; "000"; "003"]%byte
       /\ seq <$> get_metas (get (puts s l) rs 0 cons 0 0) = [11; 12].
Proof.
  cbv zeta.
  pose proof (puts_then_get_is_fifo (init default 2 2 2 1000)
                [(1000000, 10, ["000"; "001"]%byte); (1001000, 11, ["000"; "002"]%byte);
                 (1002000, 12, ["000"; "003"]%byte)] 10) as Hx.
  cbv zeta in Hx.
  refine ((fun H => conj (proj1 H)
                         (fun rs cons => proj2 (proj2 (proj2 H) rs cons)))
            (Hx _ _ _ _ _ _ _)).
  - reach_calls.
  - reflexivity.
  - reflexivity.
  - discriminate.
  - repeat constructor.
  - intros [|[|[|i]]] x Hx'; cbn in Hx'; try discriminate; injection Hx' as <-; cbn; lia.
  - cbn; lia.
Defined.

(** *** Paging through the queue *)

Lemma get_loop_set_count s c q (n : nat) : forall i tailIdx,
  get_loop (set_count s c) q n i tailIdx = get_loop s q n i tailIdx.
Proof.
  induction n as [|n IH]; intros i tailIdx; cbn [get_loop]; [reflexivity|].
  rewrite IH. reflexivity.
Qed.

(** X3.  Peeking at an offset is reading after consuming.  When the puts of
    a store carried sequence numbers in increasing order, a non-consuming
    [get] that starts [k] entries into the queue returns the same count,
    data, meta records and response size as a [get] from the front after
    [consume k]. *)
Theorem peek_at_offset_is_get_after_consume (s : t) (rs maxResp k maxBytes : Z)
    (Hreach : reachable anyInit orderedPut s) (Hk : is_u32 k) :
  let r1 := get s rs maxResp false k maxBytes in
  let r2 := get (snd (consume s k)) rs maxResp false 0 maxBytes in
  get_ret r1 = get_ret r2 /\ get_data r1 = get_data r2
  /\ get_metas r1 = get_metas r2 /\ get_responseSize r1 = get_responseSize r2.
Proof.
  pose proof (reachable_bounded _ _ _ Hreach) as (_ & Hc & _).
  pose proof (reachable_ordered _ Hreach) as (Hord & Hnext).
  unfold is_u32 in *. cbv zeta. unfold consume.
  destruct (isConfigured s) eqn:Hcfg; cbn [negb snd];
    [|unfold get; rewrite Hcfg; cbn [negb]; repeat split].
  destruct (Z.ltb_spec (_count s) k) as [Hlt|Hge].
  - rewrite Z.sub_diag. unfold get.
    change (isConfigured (set_count s 0)) with (isConfigured s). rewrite Hcfg.
    cbn [negb andb _count set_count Z.eqb orb].
    replace (_count s <=? k) with true by (symmetry; apply Z.leb_le; lia).
    rewrite orb_true_r. repeat split.
  - unfold get.
    change (isConfigured (set_count s (_count s - k))) with (isConfigured s). rewrite Hcfg.
    cbn [negb andb _count _headIdx _maxEntries _payloadSize _nextSeq set_count].
    destruct (Z.leb_spec (_count s) k) as [Hle|Hgt].
    + assert (k = _count s) as -> by lia. rewrite Z.sub_diag.
      cbn [Z.eqb orb]. rewrite orb_true_r. repeat split.
    + destruct (Z.eqb_spec (_count s) 0); [lia|].
      destruct (Z.eqb_spec (_count s - k) 0); [lia|].
      destruct (Z.leb_spec (_count s - k) 0); [lia|]. cbn [orb].
      rewrite !Z.sub_0_r.
      replace (_headIdx s + _maxEntries s - (_count s - k) + 0)
        with (_headIdx s + _maxEntries s - _count s + k) by lia.
      assert (Hsq : (if _count s - k <? _nextSeq s
                     then u32 (_nextSeq s - (_count s - k) + 0) else 0)
                    = (if _count s <? _nextSeq s
                       then u32 (_nextSeq s - _count s + k) else k)).
      { destruct (Z.ltb_spec (_count s) (_nextSeq s)).
        - destruct (Z.ltb_spec (_count s - k) (_nextSeq s)); [|lia]. f_equal; lia.
        - destruct (Z.ltb_spec (_count s - k) (_nextSeq s)); [|lia].
          rewrite u32_small by lia. lia. }
      rewrite Hsq.
      repeat match goal with
             | |- context [if ?b then _ else _] => destruct b
             end;
        cbn [get_ret get_data get_metas get_responseSize];
        try (repeat split; fail);
        rewrite get_loop_set_count;
        destruct (get_loop s _ _ 0 _) as [dd ms];
        cbn [get_ret get_data get_metas get_responseSize]; repeat split.
Qed.

Lemma peek_at_offset_is_get_after_consume_witness :
  let s0 := init default 3 2 2 1000 in
  let s1 := snd (put s0 1000000 10 ["000"; "001"]%byte) in
  let s2 := snd (put s1 1001000 11 ["000"; "002"]%byte) in
  get_data (get s2 0 0 false 1 0) = get_data (get (snd (consume s2 1)) 0 0 false 0 0)
  /\ get_metas (get s2 0 0 false 1 0) = get_metas (get (snd (consume s2 1)) 0 0 false 0 0).
Proof.
  cbv zeta.
  pose proof (peek_at_offset_is_get_after_consume
                (snd (put (snd (put (init default 3 2 2 1000) 1000000 10 ["000"; "001"]%byte))
                          1001000 11 ["000"; "002"]%byte)) 0 0 1 0) as Hx.
  cbv zeta in Hx.
  refine ((fun H => conj (proj1 (proj2 H)) (proj1 (proj2 (proj2 H)))) (Hx _ _)).
  - reach_calls.
  - unfold is_u32; lia.
Defined.

(** X4.  The two ways of dropping entries agree.  For a non-zero [n],
    [consume n] succeeds exactly on a configured store and leaves it in the
    state a consuming [get] capped at [n] responses (and no byte cap)
    leaves it in. *)
Theorem consume_matches_consuming_get (s : t) (rs n startIdx : Z)
    (Hreach : reachable anyInit anyPut s) (Hn : 0 < n) (Hstart : is_u32 startIdx) :
  consume s n = (isConfigured s, get_store (get s rs n true startIdx 0)).
Proof.
  pose proof (reachable_bounded _ _ _ Hreach) as (_ & Hc & _).
  unfold is_u32 in *. unfold consume, get.
  destruct (isConfigured s) eqn:Hcfg; cbn [negb get_store andb]; [|reflexivity].
  replace (if 0 <? startIdx then 0 else startIdx) with 0
    by (destruct (Z.ltb_spec 0 startIdx); lia).
  destruct (Z.eqb_spec (_count s) 0) as [Hz|Hnz]; cbn [orb get_store].
  - destruct (Z.ltb_spec (_count s) n); [|lia]. rewrite Z.sub_diag.
    f_equal. destruct s; cbn in *; subst; reflexivity.
  - destruct (Z.leb_spec (_count s) 0); [lia|].
    destruct (Z.eqb_spec n 0); [lia|]. cbn [orb]. rewrite Z.sub_0_r.
    cbn [Z.ltb Z.compare andb].
    destruct (Z.ltb_spec (_count s) n).
    + destruct (Z.eqb_spec (_count s) 0); [lia|].
      destruct (get_loop s _ _ 0 _) as [dd ms]. reflexivity.
    + destruct (Z.eqb_spec n 0); [lia|].
      destruct (get_loop s _ _ 0 _) as [dd ms]. reflexivity.
Qed.

Lemma consume_matches_consuming_get_witness :
  let s0 := init default 3 2 2 1000 in
  let s1 := snd (put s0 1000000 10 ["000"; "001"]%byte) in
  consume s1 1 = (isConfigured s1, get_store (get s1 0 1 true 0 0)).
Proof.
  cbv zeta. apply consume_matches_consuming_get.
  - reach_calls.
  - lia.
  - unfold is_u32; lia.
Defined.

(** *** Statistics *)

(** X5.  The statistics describe what [get] returns.  For a store whose
    [init] sizes fit and whose adjusted timestamps fit their [uint32_t]
    slots, [depth] is the number of entries a [get] for everything returns
    and [oldestCaptureMs] is the absolute time a consumer rebuilds from the
    first meta record of any [get] that starts at the front. *)
Theorem getStats_agrees_with_get (s : t) (Hreach : reachable sizedInit fitsPut s) :
  (forall rs cons, depth (getStats s) = get_ret (get s rs 0 cons 0 0))
  /\ forall rs maxResp cons maxBytes m ms,
       is_u32 maxResp -> is_u32 maxBytes ->
       get_metas (get s rs maxResp cons 0 maxBytes) = m :: ms ->
       oldestCaptureMs (getStats s) = meta_timeMs s m.
Proof.
  pose proof (reachable_wf _ _ Hreach) as Hwf. pose proof Hwf as (Hb & _).
  pose proof (reachable_stamped _ Hreach) as (_ & _ & _ & _ & _ & Hdom & _).
  split.
  - intros rs cons. unfold getStats.
    destruct (isConfigured s) eqn:Hcfg; cbn [negb depth].
    + destruct (Z.eq_dec (_count s) 0) as [Hz|Hnz].
      * unfold get. rewrite Hcfg, Hz. reflexivity.
      * destruct Hb as (_ & Hc & _). rewrite get_all by (assumption || lia). reflexivity.
    + unfold get. rewrite Hcfg. reflexivity.
  - intros rs maxResp cons maxBytes m ms HmaxResp HmaxBytes Hm.
    assert (H0 : is_u32 0) by (unfold is_u32; lia).
    destruct (get_cases s rs maxResp cons 0 maxBytes Hb HmaxResp H0 HmaxBytes)
      as [(_ & Hnil & _) | (k & n & Hcfg & Hn & Hkn & Hk & _ & Hloop & _)];
      cbv zeta in *; [congruence|].
    assert (k = 0%nat) as -> by (destruct cons; cbn in Hk; lia).
    assert (Hme : 0 < _maxEntries s) by (apply isConfigured_true in Hcfg; lia).
    rewrite get_loop_entries in Hloop by (assumption || lia).
    injection Hloop as _ Hms. rewrite Hm, drop_0 in Hms.
    assert (Hlt : Z.of_nat 0 < _count s) by lia.
    pose proof (entries_lookup s 0 Hlt) as He.
    destruct (entries s) as [|[p a] E'] eqn:HE; [discriminate He|].
    destruct n as [|n']; [lia|]. cbn [take imap] in Hms. injection Hms as -> _.
    rewrite meta_timeMs_entry by (apply (Hdom 0%nat); reflexivity).
    cbn [lookup list_lookup] in He. unfold slot in He. injection He as _ Ha.
    unfold getStats. rewrite Hcfg. cbn [negb oldestCaptureMs].
    destruct (Z.ltb_spec 0 (_count s)); [|lia].
    rewrite Ha.
    unfold slotOf. now rewrite Z.add_0_r.
Qed.

Lemma getStats_agrees_with_get_witness :
  let s0 := init default 3 2 2 1000 in
  let s1 := snd (put s0 1000000 10 ["000"; "001"]%byte) in
  let s2 := snd (put s1 1001000 11 ["000"; "002"]%byte) in
  (forall rs cons, depth (getStats s2) = get_ret (get s2 rs 0 cons 0 0))
  /\ forall rs maxResp cons maxBytes m ms,
       is_u32 maxResp -> is_u32 maxBytes ->
       get_metas (get s2 rs maxResp cons 0 maxBytes) = m :: ms ->
       oldestCaptureMs (getStats s2) = meta_timeMs s2 m.
Proof.
  cbv zeta. apply getStats_agrees_with_get. reach_calls.
Defined.

(** X6.  Bytes in use never exceed the capacity.  When the capacity
    [maxEntries * (payloadSize + 4)] fits a [uint32_t], [bytesInUse] of the
    statistics is [count * (payloadSize + 4)], [capacityBytes] is
    [maxEntries * (payloadSize + 4)], and the first is at most the
    second. *)
Theorem bytesInUse_within_capacity (s : t) (Hreach : reachable anyInit anyPut s)
    (Hfit : _maxEntries s * (_payloadSize s + META_STORAGE_BYTES) < 2 ^ 32) :
  bytesInUse (getStats s) = _count s * (_payloadSize s + META_STORAGE_BYTES)
  /\ capacityBytes s = _maxEntries s * (_payloadSize s + META_STORAGE_BYTES)
  /\ bytesInUse (getStats s) <= capacityBytes s.
Proof.
  pose proof (reachable_bounded _ _ _ Hreach) as (Hm & Hc & _ & _ & Hun).
  pose proof (reachable_payloadSize _ _ _ Hreach) as Hps.
  unfold is_u32, META_STORAGE_BYTES in *.
  assert (Hcap : capacityBytes s = _maxEntries s * (_payloadSize s + 4)).
  { unfold capacityBytes, META_STORAGE_BYTES.
    destruct (Z.eq_dec (_maxEntries s) 0) as [Hz|Hnz]; [rewrite Hz; reflexivity|].
    rewrite (u32_small (_payloadSize s + 4)) by nia. apply u32_small. nia. }
  assert (Huse : bytesInUse (getStats s) = _count s * (_payloadSize s + 4)).
  { unfold getStats. destruct (isConfigured s) eqn:Hcfg; cbn [negb].
    - unfold bytesInUse. cbn [metaSize depth payloadSize].
      unfold META_STORAGE_BYTES. cbn [Z.eqb].
      apply isConfigured_true in Hcfg.
      rewrite (u32_small (_payloadSize s + 4)) by nia. apply u32_small. nia.
    - destruct (Hun eq_refl) as [-> _]. reflexivity. }
  rewrite Huse, Hcap. split; [reflexivity|]. split; [reflexivity|]. nia.
Qed.

Lemma bytesInUse_within_capacity_witness :
  let s0 := init default 3 2 2 1000 in
  let s1 := snd (put s0 1000000 10 ["000"; "001"]%byte) in
  bytesInUse (getStats s1) = _count s1 * (_payloadSize s1 + META_STORAGE_BYTES)
  /\ capacityBytes s1 = _maxEntries s1 * (_payloadSize s1 + META_STORAGE_BYTES)
  /\ bytesInUse (getStats s1) <= capacityBytes s1.
Proof.
  cbv zeta. apply bytesInUse_within_capacity.
  - reach_calls.
  - vm_compute. reflexivity.
Defined.

(** *** Capture time *)

(** X7.  The capture time matters for the first put only.  Once a store
    holds a valid last timestamp, [put] ignores [timeNowUs] altogether.
    On an empty store without one (after [init] or [clear]), when the
    resolution is at least a millisecond and the capture time in
    milliseconds exceeds the raw timestamp component and fits a
    [uint32_t], the entry is stored so that a [get] reports the sequence
    number it was put with, its raw timestamp, and a base from which the
    consumer rebuilds exactly the capture time in milliseconds. *)
Theorem put_capture_time_first_only (s : t) (q : Z) (d : list byte) :
  (forall t t', _lastTimestampValid s = true -> put s t q d = put s t' q d)
  /\ (forall t,
        wf s -> _lastTimestampValid s = false -> _count s = 0 ->
        fst (put s t q d) = true -> 0 <= q < UINT32_MAX ->
        let R := _timestampResolutionUs s / 1000 in
        let tsVal := tsField (_timestampBytes s) d in
        0 < R -> tsVal * R < t / 1000 < 2 ^ 32 ->
        forall rs cons,
          get_metas (get (snd (put s t q d)) rs 0 cons 0 0)
          = [mkMeta q tsVal (t / 1000 - tsVal * R)]
          /\ meta_timeMs (snd (put s t q d)) (mkMeta q tsVal (t / 1000 - tsVal * R))
             = t / 1000).
Proof.
  split.
  - intros t t' Hv. unfold put, put_adjustedTsMs, put_timestampBaseMs.
    rewrite Hv. reflexivity.
  - intros t Hwf Hv Hc Hacc Hq R tsVal HR Ht rs cons.
    pose proof (proj1 (put_accepted _ _ _ _) Hacc) as [Hcfg Hlen].
    pose proof (put_step s t q d Hwf Hcfg Hlen)
      as (Hwf1 & Hcfg1 & Hme1 & Hps1 & Hc1 & Hd1 & Hn1 & He1). cbv zeta in *.
    pose proof (proj2 (proj2 (put_config s t q d))) as (Htb & Htr & _).
    assert (Hme : 0 < _maxEntries s) by (apply isConfigured_true in Hcfg; lia).
    destruct (Z.ltb_spec (_count s) (_maxEntries s)); [|lia].
    pose proof (entries_length s) as HlenE. rewrite Hc in HlenE.
    destruct (entries s) as [|? ?] eqn:HE; [|discriminate HlenE].
    cbn [app] in He1.
    assert (Hadj : u32 (put_adjustedTsMs s t d) = t / 1000).
    { unfold put_adjustedTsMs, put_timestampBaseMs. rewrite Hv. cbn [negb andb].
      fold R. fold tsVal.
      destruct (Z.ltb_spec 0 R); [|lia].
      destruct (Z.ltb_spec (tsVal * R) (t / 1000)); [|lia]. cbn [andb].
      replace (t / 1000 - tsVal * R + tsVal * R) with (t / 1000) by lia.
      pose proof (tsField_range (_timestampBytes s) d) as Hts. fold tsVal in Hts.
      rewrite u64_small by nia. apply u32_small. nia. }
    rewrite Hadj in He1.
    unfold UINT32_MAX in Hq. rewrite u32_small in Hn1 by lia.
    split.
    + rewrite get_all by (assumption || lia).
      cbn [get_metas]. rewrite He1. cbn [imap].
      unfold entry_meta. cbn [fst snd]. rewrite Htb, Htr. fold R. fold tsVal.
      rewrite Hc1, Hc, Hn1. cbn [Z.add].
      destruct (Z.eqb_spec R 0); [lia|].
      destruct (Z.leb_spec (tsVal * R) (t / 1000)); [|lia].
      f_equal. f_equal. change (Z.of_nat 0) with 0.
      destruct (Z.ltb_spec (0 + 1) (q + 1)).
      * rewrite (u32_small (q + 1 - (0 + 1))) by lia. rewrite u32_small by lia. lia.
      * rewrite u32_small by lia. lia.
    + unfold meta_timeMs. cbn [tsBaseMs ts]. rewrite Htr. fold R. lia.
Qed.

Lemma put_capture_time_first_only_witness :
  let s := init default 3 2 2 1000 in
  let d := ["000"; "005"]%byte in
  put (snd (put s 1000000 10 d)) 0 11 d = put (snd (put s 1000000 10 d)) 77 11 d
  /\ forall rs cons,
       get_metas (get (snd (put s 1000000 10 d)) rs 0 cons 0 0) = [mkMeta 10 5 995]
       /\ meta_timeMs (snd (put s 1000000 10 d)) (mkMeta 10 5 995) = 1000.
Proof.
  cbv zeta. split.
  - apply (proj1 (put_capture_time_first_only
                    (snd (put (init default 3 2 2 1000) 1000000 10 ["000"; "005"]%byte))
                    11 ["000"; "005"]%byte)).
    reflexivity.
  - apply (proj2 (put_capture_time_first_only (init default 3 2 2 1000) 10
                    ["000"; "005"]%byte) 1000000).
    + apply wf_init; unfold is_u32, sizedInit; lia.
    + reflexivity.
    + reflexivity.
    + reflexivity.
    + unfold UINT32_MAX; lia.
    + vm_compute; reflexivity.
    + vm_compute; split; reflexivity.
Defined.

End RingQueue.
(** ** OfflineDataStoreNVS: keys, configuration and persistence *)

Section SegmentKeys.

Import OfflineDataStoreNVS.

Lemma digitsValue_app s1 s2 acc :
  digitsValue (String.append s1 s2) acc = digitsValue s2 (digitsValue s1 acc).
Proof.
  revert acc. induction s1 as [|c s1 IH]; intros acc; cbn [String.append digitsValue];
    [reflexivity | apply IH].
Qed.

Lemma digit_code k :
  0 <= k < 10 ->
  Z.of_nat (Ascii.nat_of_ascii (Ascii.ascii_of_nat (48 + Z.to_nat k))) - 48 = k.
Proof. intros Hk. rewrite Ascii.nat_ascii_embedding by lia. lia. Qed.

Lemma digitsValue_decimal (fuel : nat) : forall n acc,
  0 <= n < 10 ^ Z.of_nat fuel ->
  digitsValue (decimal fuel n acc) 0 = digitsValue acc n.
Proof.
  induction fuel as [|f IH]; intros n acc Hn.
  - change (10 ^ Z.of_nat 0) with 1 in Hn. replace n with 0 by lia. reflexivity.
  - cbn [decimal]. cbv zeta.
    assert (Hd : 0 <= n mod 10 < 10) by (apply Z.mod_pos_bound; lia).
    pose proof (Z.div_mod n 10 ltac:(lia)) as Hdm.
    destruct (Z.eqb_spec (n / 10) 0) as [Hz|Hnz].
    + cbn [digitsValue]. rewrite digit_code by lia. f_equal. lia.
    + rewrite IH.
      * cbn [digitsValue]. rewrite digit_code by lia. f_equal. lia.
      * rewrite Nat2Z.inj_succ, Z.pow_succ_r in Hn by lia.
        split; [apply Z.div_pos; lia | apply Z.div_lt_upper_bound; lia].
Qed.

Lemma digitsValue_zeros (k : nat) s :
  digitsValue (String.append (String.concat EmptyString (replicate k "0"%string)) s) 0
  = digitsValue s 0.
Proof.
  induction k as [|k IH]; [reflexivity|].
  destruct k as [|k]; [reflexivity|].
  change (String.concat EmptyString (replicate (S (S k)) "0"%string))
    with (String.append "0" (String.append EmptyString
            (String.concat EmptyString (replicate (S k) "0"%string)))).
  cbn [String.append digitsValue]. exact IH.
Qed.

Lemma segmentKeyIndex_makeSegmentKey x : segmentKeyIndex (makeSegmentKey x) = u32 x.
Proof.
  unfold makeSegmentKey. cbv zeta.
  set (D := decimal 10 (u32 x) EmptyString).
  set (Zs := String.concat EmptyString (replicate (5 - String.length D) "0"%string)).
  change (segmentKeyIndex (String.append "s" (String.append Zs D)))
    with (digitsValue (String.append Zs D) 0).
  subst Zs. rewrite digitsValue_zeros. subst D.
  rewrite digitsValue_decimal; [reflexivity|].
  pose proof (u32_range x). change (10 ^ Z.of_nat 10) with 10000000000. lia.
Qed.

Lemma makeSegmentKey_inj i j : makeSegmentKey i = makeSegmentKey j -> u32 i = u32 j.
Proof.
  intros Hk.
  rewrite <- (segmentKeyIndex_makeSegmentKey i), <- (segmentKeyIndex_makeSegmentKey j), Hk.
  reflexivity.
Qed.

Lemma makeSegmentKey_not_meta i : makeSegmentKey i <> OFFLINE_NVS_META_KEY.
Proof.
  unfold makeSegmentKey, OFFLINE_NVS_META_KEY. cbv zeta. cbn [String.append].
  intros Hk. discriminate Hk.
Qed.

(** X8.  Segment keys name their segment.  The number read back from the
    key [makeSegmentKey] builds is the segment index (as a [uint32_t]); so
    the keys of different segments differ, and no segment key is the key
    the meta structure is stored under. *)
Theorem makeSegmentKey_names_its_index (i j : Z) :
  segmentKeyIndex (makeSegmentKey i) = u32 i
  /\ makeSegmentKey i <> OFFLINE_NVS_META_KEY
  /\ (makeSegmentKey i = makeSegmentKey j -> u32 i = u32 j).
Proof.
  split; [apply segmentKeyIndex_makeSegmentKey|].
  split; [apply makeSegmentKey_not_meta | apply makeSegmentKey_inj].
Qed.

End SegmentKeys.

Section PersistentStore.

Import OfflineDataStoreNVS.

(** *** With the namespace open, the flash calls succeed *)

Lemma saveMeta_open st :
  _nvsHandle st <> 0 ->
  saveMeta st
  = (true, set_nvs st (<[OFFLINE_NVS_META_KEY := MetaBlob (_meta st)]> (nvs st))).
Proof. intros Hh. unfold saveMeta. now rewrite open_handle. Qed.

Lemma writeSegment_open st i d :
  _nvsHandle st <> 0 ->
  writeSegment st i d
  = (true, set_nvs st (<[makeSegmentKey i := BytesBlob d]> (nvs st))).
Proof. intros Hh. unfold writeSegment. now rewrite open_handle. Qed.

Lemma set_nvs_same st : set_nvs st (nvs st) = st.
Proof. now destruct st. Qed.

Lemma flushSeg_open a :
  _nvsHandle (ap_store a) <> 0 ->
  flushSeg a
  = (true,
     if (currentSegIdx a =? UINT32_MAX) || negb (segDirty a) then a
     else mkAppend (set_nvs (ap_store a)
                      (<[makeSegmentKey (currentSegIdx a) := BytesBlob (segBuf a)]>
                         (nvs (ap_store a))))
                   (segBuf a) (currentSegIdx a) false (outLastSeq a)).
Proof.
  intros Hh. unfold flushSeg.
  destruct ((currentSegIdx a =? UINT32_MAX) || negb (segDirty a)); [reflexivity|].
  now rewrite writeSegment_open.
Qed.

Lemma flushSeg_frame a :
  _nvsHandle (ap_store a) <> 0 ->
  exists kv dirty,
    flushSeg a
    = (true, mkAppend (set_nvs (ap_store a) kv) (segBuf a) (currentSegIdx a) dirty
                      (outLastSeq a)).
Proof.
  intros Hh. rewrite flushSeg_open by assumption.
  destruct ((currentSegIdx a =? UINT32_MAX) || negb (segDirty a)).
  - exists (nvs (ap_store a)), (segDirty a). rewrite set_nvs_same. now destruct a.
  - eexists _, _. reflexivity.
Qed.

Lemma enterSegment_frame a seg :
  _nvsHandle (ap_store a) <> 0 ->
  exists kv buf cur dirty,
    appendBatch_enterSegment a seg
    = (true, mkAppend (set_nvs (ap_store a) kv) buf cur dirty (outLastSeq a)).
Proof.
  intros Hh. unfold appendBatch_enterSegment. destruct (seg =? currentSegIdx a).
  - exists (nvs (ap_store a)), (segBuf a), (currentSegIdx a), (segDirty a).
    rewrite set_nvs_same. now destruct a.
  - destruct (flushSeg_frame a Hh) as (kv & d & ->). cbn [negb].
    eexists _, _, _, _. cbn [ap_store segDirty outLastSeq]. reflexivity.
Qed.

Lemma layout_format m m' ps tb tr :
  format m' = format m -> layout m ps tb tr -> layout m' ps tb tr.
Proof.
  unfold format, layout. intros Hf. injection Hf as -> -> -> -> -> -> _ -> ->. tauto.
Qed.

Lemma mod_succ_idemp x k M : ((x + 1) mod M + k) mod M = (x + (1 + k)) mod M.
Proof. rewrite Zplus_mod_idemp_l. f_equal. lia. Qed.

(** The write loop of [appendBatch] on an open store: it succeeds, touches
    only the meta structure's ring position and the flash, and accounts
    for each record either in [count] or in [drops]. *)
Lemma appendBatch_loop_frame payloads ps adjTs f eff rs (n : nat) : forall ii a,
  let st := ap_store a in
  let m := _meta st in
  _nvsHandle st <> 0 ->
  0 < maxEntries m < 2 ^ 32 -> 0 <= head m < maxEntries m ->
  0 <= count m <= eff -> eff <= maxEntries m ->
  exists kv buf cur dirty last m',
    appendBatch_loop n ii payloads ps adjTs f eff rs a
    = (true, mkAppend (mk (_nvsNamespace st) (_ready st) (_metaValid st) m'
                          (_effectiveMaxEntries st) (_nvsHandle st) kv)
                      buf cur dirty last)
    /\ format m' = format m /\ importSeq m' = importSeq m
    /\ head m' = (head m + Z.of_nat n) mod maxEntries m
    /\ count m' = Z.min eff (count m + Z.of_nat n)
    /\ u32 (count m' + drops m') = u32 (count m + drops m + Z.of_nat n)
    /\ (n = 0%nat -> m' = m /\ last = outLastSeq a)
    /\ ((0 < n)%nat ->
        nextSeq m' = u32 (f + ii + Z.of_nat n)
        /\ last = u32 (f + ii + Z.of_nat n - 1)).
Proof.
  induction n as [|n IH]; intros ii a st m Hh Hme Hhead Hcount Heff.
  - exists (nvs st), (segBuf a), (currentSegIdx a), (segDirty a), (outLastSeq a), m.
    cbn [appendBatch_loop]. split_and!; try reflexivity.
    + subst m st. destruct a as [[] ? ? ? ?]. reflexivity.
    + rewrite Z.add_0_r. rewrite Z.mod_small by lia. reflexivity.
    + lia.
    + f_equal. lia.
    + intros _. split; reflexivity.
    + lia.
  - cbn [appendBatch_loop]. fold st. fold m.
    destruct (enterSegment_frame a (head m / recordsPerSegment m) Hh)
      as (kv1 & buf1 & cur1 & d1 & ->).
    cbn [negb].
    set (a1 := mkAppend (set_nvs (ap_store a) kv1) buf1 cur1 d1 (outLastSeq a)).
    set (a2 := appendBatch_record a1 ii payloads ps adjTs f eff rs).
    assert (Hst2 : ap_store a2
                   = set_meta (set_nvs st kv1)
                       (set_head_count_drops_nextSeq m
                          (u32 (head m + 1) mod maxEntries m)
                          (if negb (count m <? eff) then count m else u32 (count m + 1))
                          (if negb (count m <? eff) then u32 (drops m + 1) else drops m)
                          (u32 (u32 (f + ii) + 1)))) by reflexivity.
    assert (Hlast2 : outLastSeq a2 = u32 (f + ii)) by reflexivity.
    specialize (IH (ii + 1) a2). cbv zeta in IH. rewrite Hst2 in IH.
    cbn [set_meta set_nvs _meta _nvsHandle _nvsNamespace _ready _metaValid
         _effectiveMaxEntries set_head_count_drops_nextSeq maxEntries head count drops
         importSeq nextSeq] in IH.
    assert (Hh1 : u32 (head m + 1) mod maxEntries m = (head m + 1) mod maxEntries m)
      by (rewrite u32_small by lia; reflexivity).
    rewrite Hh1 in IH.
    destruct IH as (kv & buf & cur & dirty & last & m' & Heq & Hf & Hi & Hhd & Hc & Hd
                    & Hzero & Hpos).
    + exact Hh.
    + lia.
    + apply Z.mod_pos_bound. lia.
    + destruct (Z.ltb_spec (count m) eff); cbn [negb]; [rewrite u32_small|]; lia.
    + exact Heff.
    + exists kv, buf, cur, dirty, last, m'. rewrite Heq.
      split; [reflexivity|]. split; [exact Hf|]. split; [exact Hi|].
      split; [rewrite Hhd, mod_succ_idemp; f_equal; lia|].
      split.
      { rewrite Hc. destruct (Z.ltb_spec (count m) eff); cbn [negb];
          [rewrite u32_small|]; lia. }
      split.
      { rewrite Hd. unfold u32, wrap.
        destruct (Z.ltb_spec (count m) eff); cbn [negb].
        - rewrite (Z.mod_small (count m + 1)) by lia. f_equal. lia.
        - replace (count m + (drops m + 1) mod 2 ^ 32 + Z.of_nat n)
            with ((drops m + 1) mod 2 ^ 32 + (count m + Z.of_nat n)) by lia.
          rewrite Zplus_mod_idemp_l. f_equal. lia. }
      split; [intros Hn; discriminate Hn|].
      intros _. destruct n as [|n].
      * destruct (Hzero eq_refl) as [-> ->].
        cbn [nextSeq set_head_count_drops_nextSeq]. rewrite Hlast2, u32_succ_idemp.
        split; f_equal; lia.
      * destruct (Hpos ltac:(lia)) as [-> ->]. split; f_equal; lia.
Qed.

Lemma appendBatch_write_frame st payloads ps adjTs f n skip eff :
  let m := _meta st in
  _nvsHandle st <> 0 ->
  0 < maxEntries m < 2 ^ 32 -> 0 <= head m < maxEntries m ->
  0 <= count m <= eff -> eff <= maxEntries m ->
  exists kv last m',
    appendBatch_write st payloads ps adjTs f n skip eff
    = (true, last,
       mk (_nvsNamespace st) (_ready st) (_metaValid st) m' (_effectiveMaxEntries st)
          (_nvsHandle st) (<[OFFLINE_NVS_META_KEY := MetaBlob m']> kv))
    /\ format m' = format m /\ importSeq m' = importSeq m
    /\ head m' = (head m + Z.of_nat (Z.to_nat (n - skip))) mod maxEntries m
    /\ count m' = Z.min eff (count m + Z.of_nat (Z.to_nat (n - skip)))
    /\ u32 (count m' + drops m')
       = u32 (count m + drops m + Z.of_nat (Z.to_nat (n - skip)))
    /\ (0 <= skip < n -> nextSeq m' = u32 (f + n) /\ last = u32 (f + n - 1)).
Proof.
  intros m Hh Hme Hhead Hcount Heff. unfold appendBatch_write.
  set (a0 := mkAppend st _ UINT32_MAX false 0).
  destruct (appendBatch_loop_frame payloads ps adjTs f eff (recordSize (_meta st))
              (Z.to_nat (n - skip)) skip a0 Hh Hme Hhead Hcount Heff)
    as (kv & buf & cur & dirty & last & m' & Heq & Hf & Hi & Hhd & Hc & Hd & _ & Hpos).
  rewrite Heq. cbn [negb ap_store].
  set (a1 := mkAppend _ buf cur dirty last).
  destruct (flushSeg_frame a1 Hh) as (kv2 & d2 & ->). cbn [negb ap_store outLastSeq].
  rewrite saveMeta_open by exact Hh.
  exists kv2, last, m'. split; [reflexivity|].
  split; [exact Hf|]. split; [exact Hi|]. split; [exact Hhd|]. split; [exact Hc|].
  split; [exact Hd|].
  intros Hs. destruct (Hpos ltac:(lia)) as [-> ->].
  rewrite Z2Nat.id by lia. split; f_equal; lia.
Qed.

Lemma freshMeta_layout m ps tb tr :
  layout m ps tb tr ->
  layout (freshMeta ps (timestampBytes m) (timestampResolutionUs m) (maxEntries m)) ps tb tr
  /\ recordsPerSegment (freshMeta ps (timestampBytes m) (timestampResolutionUs m)
                                  (maxEntries m)) <> 0.
Proof.
  intros (Hmg & Hv & Hps & Hps0 & Htb & Htr & Hrs & Hrps & Hpos & Hsb).
  unfold layout, freshMeta.
  cbn [magic version payloadSize timestampBytes timestampResolutionUs recordSize
       recordsPerSegment segmentBytes].
  assert (Hne : u32 (ps + 4) <> 0).
  { intros Hz. rewrite Hz in Hrps. rewrite Z.div_0_r in Hrps. lia. }
  destruct (Z.eqb_spec (u32 (ps + 4)) 0); [contradiction|].
  split; [|lia]. split_and!; try reflexivity; try assumption; lia.
Qed.

(** A ready store stays ready, with flash and memory agreeing on the meta
    structure, over every [appendBatch]. *)
Lemma appendBatch_write_operating ns ps tb tr st payloads ps' adjTs f n skip :
  operating ns ps tb tr st ->
  let st' := snd (appendBatch_write st payloads ps' adjTs f n skip
                    (_effectiveMaxEntries st)) in
  operating ns ps tb tr st' /\ stored st'.
Proof.
  intros (Hr & Hv & Hh & Hns & Hne & Hlay & Hme & Hhead & Heff & Hcount). cbv zeta.
  destruct (appendBatch_write_frame st payloads ps' adjTs f n skip
              (_effectiveMaxEntries st) Hh Hme Hhead Hcount ltac:(lia))
    as (kv & last & m' & -> & Hf & Hi & Hhd & Hc & Hd & _).
  cbn [snd]. split.
  - unfold operating, ringBounds.
    cbn [_ready _metaValid _nvsHandle _nvsNamespace _meta _effectiveMaxEntries].
    assert (Hme' : maxEntries m' = maxEntries (_meta st)).
    { unfold format in Hf. now injection Hf. }
    rewrite Hme', Hhd, Hc.
    split_and!; try assumption; try lia.
    + now apply (layout_format _ _ _ _ _ Hf).
    + apply Z.mod_pos_bound; lia.
    + apply Z.mod_pos_bound; lia.
  - unfold stored. cbn [nvs _meta]. apply lookup_insert_eq.
Qed.

Lemma appendBatch_operating ns ps tb tr st payloads ps' adjTs f n :
  operating ns ps tb tr st -> stored st ->
  let st' := snd (appendBatch st payloads ps' adjTs f n) in
  operating ns ps tb tr st' /\ stored st'.
Proof.
  intros Hop Hsto. cbv zeta. unfold appendBatch.
  destruct (appendBatch_guards st payloads ps' adjTs n) eqn:Hg; cbn [negb snd];
    [|split; assumption].
  apply appendBatch_guarded in Hg as (_ & _ & Hps' & _).
  pose proof Hop as (Hr & Hv & Hh & Hns & Hne & Hlay & Hme & Hhead & Heff & Hcount).
  pose proof Hlay as (_ & _ & Hps & _).
  assert (ps' = ps) as -> by congruence.
  destruct (Z.ltb_spec 0 (_effectiveMaxEntries st)); [|lia].
  unfold appendBatch_align.
  destruct (Z.eqb_spec (count (_meta st)) 0) as [Hz|Hnz].
  - cbn [negb _meta set_meta nextSeq set_nextSeq set_head_count_drops_nextSeq].
    rewrite Z.ltb_irrefl.
    apply (appendBatch_write_operating ns ps tb tr
             (set_meta st (set_nextSeq (_meta st) f))).
    unfold operating, ringBounds. cbn. unfold ringBounds in *.
    split_and!; try assumption; lia.
  - destruct (Z.ltb_spec (nextSeq (_meta st)) f) as [Hgap|Hnogap].
    + unfold clear. rewrite open_handle by assumption. cbn [negb].
      destruct (freshMeta_layout _ _ _ _ Hlay) as [Hfl Hfr].
      unfold resetMeta.
      cbn [set_meta set_flags set_nvs _meta _nvsNamespace _ready _metaValid
           _effectiveMaxEntries _nvsHandle nvs].
      destruct (Z.eqb_spec (recordsPerSegment
                  (freshMeta ps (timestampBytes (_meta st))
                     (timestampResolutionUs (_meta st)) (maxEntries (_meta st)))) 0);
        [contradiction|].
      rewrite saveMeta_open by exact Hh.
      cbn [negb set_meta set_flags set_nvs _meta _nvsNamespace _ready _metaValid
           _effectiveMaxEntries _nvsHandle nvs nextSeq set_nextSeq
           set_head_count_drops_nextSeq].
      rewrite Z.ltb_irrefl.
      match goal with
      | |- operating _ _ _ _ (snd (appendBatch_write ?s _ _ _ _ _ _ _)) /\ _ =>
          apply (appendBatch_write_operating ns ps tb tr s)
      end.
      unfold operating, ringBounds. cbn.
      split_and!; try assumption; try reflexivity; try lia; apply Hfl.
    + cbn [negb].
      destruct (Z.ltb_spec f (nextSeq (_meta st))).
      * destruct (n <=? u32 (nextSeq (_meta st) - f)); cbn [snd].
        -- split; assumption.
        -- now apply appendBatch_write_operating.
      * now apply appendBatch_write_operating.
Qed.

(** *** configure *)

Lemma configure_rejects st ns ps tb tr me :
  ps = 0 \/ me = 0 -> configure st ns ps tb tr me = (false, st).
Proof.
  intros [-> | ->]; unfold configure; cbn [Z.eqb orb]; [reflexivity|].
  now rewrite orb_true_r.
Qed.

(** [configure] on a newly constructed object, up to the point where the
    stored meta structure has been looked for. *)
Lemma configure_new kv ns ps tb tr me :
  ns <> EmptyString -> ps <> 0 -> me <> 0 ->
  let fresh := freshMeta ps tb tr me in
  let opened m v := mk ns false v m 0 1 kv in
  let reinit (st : t) :=
    if recordsPerSegment fresh =? 0
    then (false, set_meta st fresh)
    else (true, mk ns true true fresh me 1
                   (<[OFFLINE_NVS_META_KEY := MetaBlob fresh]> (nvs st))) in
  configure (set_nvs default kv) ns ps tb tr me
  = match kv !! OFFLINE_NVS_META_KEY with
    | Some (MetaBlob m) =>
        if (magic m =? OFFLINE_NVS_META_MAGIC) && (version m =? OFFLINE_NVS_META_VERSION)
        then
          if metaCompatible m ps tb tr
          then (true, mk ns true true m (maxEntries m) 1 kv)
          else reinit (mk ns false false m 0 1 ∅)
        else reinit (opened m false)
    | _ => reinit (opened (_meta default) false)
    end.
Proof.
  intros Hns Hps Hme. cbv zeta. unfold configure.
  destruct (Z.eqb_spec ps 0); [contradiction|].
  destruct (Z.eqb_spec me 0); [contradiction|]. cbn [orb].
  cbn [set_nvs default _nvsNamespace _ready _metaValid _meta _effectiveMaxEntries
       _nvsHandle nvs].
  destruct ns as [|c ns']; [contradiction|].
  cbn [String.eqb]. unfold open at 1.
  cbn [_nvsHandle _nvsNamespace Z.eqb negb String.eqb set_handle _ready _metaValid
       _meta _effectiveMaxEntries nvs].
  unfold loadMeta, open.
  cbn [_nvsHandle _nvsNamespace Z.eqb negb set_handle _ready _metaValid
       _meta _effectiveMaxEntries nvs].
  destruct (kv !! OFFLINE_NVS_META_KEY) as [[m|b]|] eqn:Hkv.
  - destruct ((magic m =? OFFLINE_NVS_META_MAGIC)
              && (version m =? OFFLINE_NVS_META_VERSION)) eqn:Hvalid; cbn [negb].
    + cbn [set_flags set_meta _meta _ready _nvsNamespace _metaValid _effectiveMaxEntries
           _nvsHandle nvs].
      fold (metaCompatible m ps tb tr).
      destruct (metaCompatible m ps tb tr); cbn [negb].
      * reflexivity.
      * unfold clear, open, resetMeta, saveMeta.
        cbn [_nvsHandle _nvsNamespace Z.eqb negb set_handle set_flags set_meta set_nvs
             _ready _metaValid _meta _effectiveMaxEntries nvs set_effective].
        destruct (recordsPerSegment (freshMeta ps tb tr me) =? 0); reflexivity.
    + unfold resetMeta, saveMeta, open.
      cbn [_nvsHandle _nvsNamespace Z.eqb negb set_handle set_flags set_meta set_nvs
           _ready _metaValid _meta _effectiveMaxEntries nvs set_effective].
      destruct (recordsPerSegment (freshMeta ps tb tr me) =? 0); reflexivity.
  - cbn [negb]. unfold resetMeta, saveMeta, open.
    cbn [_nvsHandle _nvsNamespace Z.eqb negb set_handle set_flags set_meta set_nvs
         _ready _metaValid _meta _effectiveMaxEntries nvs set_effective].
    destruct (recordsPerSegment (freshMeta ps tb tr me) =? 0); reflexivity.
  - cbn [negb]. unfold resetMeta, saveMeta, open.
    cbn [_nvsHandle _nvsNamespace Z.eqb negb set_handle set_flags set_meta set_nvs
         _ready _metaValid _meta _effectiveMaxEntries nvs set_effective].
    destruct (recordsPerSegment (freshMeta ps tb tr me) =? 0); reflexivity.
Qed.

Lemma configure_success_args kv ns ps tb tr me st :
  configure (set_nvs default kv) ns ps tb tr me = (true, st) ->
  ns <> EmptyString /\ ps <> 0 /\ me <> 0.
Proof.
  intros Hc.
  assert (Hps : ps <> 0) by (intros ->; rewrite configure_rejects in Hc by auto; discriminate).
  assert (Hme : me <> 0) by (intros ->; rewrite configure_rejects in Hc by auto; discriminate).
  split; [|split; assumption]. intros ->.
  unfold configure in Hc.
  destruct (Z.eqb_spec ps 0); [contradiction|].
  destruct (Z.eqb_spec me 0); [contradiction|].
  cbn in Hc. discriminate Hc.
Qed.

Lemma configure_restart ns ps tb tr st me :
  operating ns ps tb tr st -> stored st -> me <> 0 ->
  configure (set_nvs default (nvs st)) ns ps tb tr me
  = (true, mk ns true true (_meta st) (maxEntries (_meta st)) 1 (nvs st)).
Proof.
  intros (Hr & Hv & Hh & Hns & Hne & Hlay & Hb) Hsto Hme.
  destruct Hlay as (Hmg & Hver & Hps & Hps0 & Htb & Htr & Hrs & Hrps & Hpos & Hsb).
  rewrite configure_new by assumption. cbv zeta.
  unfold stored in Hsto. rewrite Hsto.
  rewrite Hmg, Hver, !Z.eqb_refl. cbn [andb].
  unfold metaCompatible.
  rewrite Hmg, Hver, Hps, Htb, Htr, Hrs, Hsb, !Z.eqb_refl.
  destruct (Z.ltb_spec 0 (recordsPerSegment (_meta st))); [|lia].
  reflexivity.
Qed.

Lemma setEffectiveMaxEntries_operating ns ps tb tr st n :
  operating ns ps tb tr st -> stored st -> 0 <= n < 2 ^ 32 ->
  let st' := setEffectiveMaxEntries st n in
  let m := _meta st in
  operating ns ps tb tr st' /\ stored st'
  /\ _effectiveMaxEntries st' = (if (n =? 0) || (maxEntries m <? n) then maxEntries m else n)
  /\ count (_meta st') = Z.min (count m) (_effectiveMaxEntries st')
  /\ u32 (count (_meta st') + drops (_meta st')) = u32 (count m + drops m)
  /\ head (_meta st') = head m /\ nextSeq (_meta st') = nextSeq m
  /\ importSeq (_meta st') = importSeq m.
Proof.
  intros (Hr & Hv & Hh & Hns & Hne & Hlay & Hme & Hhead & Heff & Hcount) Hsto Hn.
  cbv zeta. unfold setEffectiveMaxEntries. rewrite Hv. cbn [negb].
  set (eff := if (n =? 0) || (maxEntries (_meta st) <? n) then maxEntries (_meta st) else n).
  assert (Heff' : 1 <= eff <= maxEntries (_meta st)).
  { unfold eff. destruct (Z.eqb_spec n 0); cbn [orb]; [lia|].
    destruct (Z.ltb_spec (maxEntries (_meta st)) n); lia. }
  destruct (Z.ltb_spec eff (count (_meta st))) as [Hlt|Hge].
  - rewrite saveMeta_open by exact Hh. cbn [snd].
    unfold operating, stored, ringBounds.
    cbn [set_nvs set_meta set_effective _ready _metaValid _nvsHandle _nvsNamespace _meta
         _effectiveMaxEntries nvs set_head_count_drops_nextSeq maxEntries head count
         drops nextSeq importSeq].
    split_and!; try assumption; try reflexivity; try lia;
      try (revert Hlay; apply layout_format; reflexivity);
      try apply lookup_insert_eq.
    unfold u32, wrap.
      replace (eff + (drops (_meta st) + (count (_meta st) - eff)) mod 2 ^ 32)
        with ((drops (_meta st) + (count (_meta st) - eff)) mod 2 ^ 32 + eff) by lia.
      rewrite Zplus_mod_idemp_l. f_equal. lia.
  - unfold operating, stored, ringBounds.
    cbn [set_effective _ready _metaValid _nvsHandle _nvsNamespace _meta
         _effectiveMaxEntries nvs].
    split_and!; try assumption; try reflexivity; try lia.
Qed.

(** *** importTo *)

Lemma importTo_cases st dest imax :
  let m := _meta st in
  let r := importTo st dest imax in
  (importTo_store r = st
   /\ (fst (fst (fst r)) = true ->
       r = (true, nextSeq m, st, dest) /\ nextSeq m <= importTo_startSeq m
       /\ _ready st = true /\ _metaValid st = true /\ count m <> 0))
  \/ (let cap0 := OfflineDataStore.getMaxEntries dest in
      let cap := if (0 <? imax) && (imax <? cap0) then imax else cap0 in
      let available := u32 (nextSeq m - importTo_startSeq m) in
      let importCount := if available <? cap then available else cap in
      fst (fst (fst r)) = true /\ _ready st = true /\ _metaValid st = true
      /\ count m <> 0 /\ importTo_startSeq m < nextSeq m
      /\ snd (fst (fst r)) = nextSeq m
      /\ importTo_store r
         = snd (saveMeta (set_meta st
                  (set_importSeq m (u32 (importTo_startSeq m + importCount - 1)))))).
Proof.
  cbv zeta. unfold importTo, importTo_store.
  destruct (_ready st); cbn [negb orb]; [|left; split; [reflexivity|discriminate]].
  destruct (_metaValid st); cbn [negb]; [|left; split; [reflexivity|discriminate]].
  destruct (Z.eqb_spec (count (_meta st)) 0); [left; split; [reflexivity|discriminate]|].
  destruct (Z.leb_spec (nextSeq (_meta st)) (importTo_startSeq (_meta st))).
  { left. split; [reflexivity|]. intros _. repeat split; assumption. }
  set (cap := if (0 <? imax) && (imax <? OfflineDataStore.getMaxEntries dest)
              then imax else OfflineDataStore.getMaxEntries dest).
  destruct (cap =? 0); [left; split; [reflexivity|discriminate]|].
  set (importCount := if u32 (nextSeq (_meta st) - importTo_startSeq (_meta st)) <? cap
                      then u32 (nextSeq (_meta st) - importTo_startSeq (_meta st))
                      else cap).
  destruct (importCount =? 0); [left; split; [reflexivity|discriminate]|].
  destruct (importTo_loop _ _ _ _ _ _ _ _) as [ok d].
  destruct ok; cbn [negb]; [|left; split; [reflexivity|discriminate]].
  right. repeat split; assumption || reflexivity.
Qed.

Lemma importTo_operating ns ps tb tr st dest imax :
  operating ns ps tb tr st -> stored st ->
  let st' := importTo_store (importTo st dest imax) in
  operating ns ps tb tr st' /\ stored st'.
Proof.
  intros Hop Hsto. cbv zeta.
  destruct (importTo_cases st dest imax) as [[-> _] | H]; cbv zeta in *; [now split|].
  destruct H as (_ & _ & _ & _ & _ & _ & ->).
  destruct Hop as (Hr & Hv & Hh & Hns & Hne & Hlay & Hme & Hhead & Heff & Hcount).
  rewrite saveMeta_open by exact Hh. cbn [snd].
  unfold operating, stored, ringBounds.
  cbn [set_nvs set_meta _ready _metaValid _nvsHandle _nvsNamespace _meta
       _effectiveMaxEntries nvs set_importSeq maxEntries head count].
  split_and!; try assumption; try reflexivity; try lia;
    try (revert Hlay; apply layout_format; reflexivity);
    try apply lookup_insert_eq.
Qed.

(** *** What holds between calls *)

Lemma reachable_operating ns ps tb tr st :
  reachable ns ps tb tr st -> operating ns ps tb tr st /\ stored st.
Proof.
  induction 1 as [kv me st Hkv Hme Hc | st me st' _ [IHo IHs] Hc
                 | st payloads ps' adjTs f n _ [IHo IHs]
                 | st dest imax _ [IHo IHs] | st n _ [IHo IHs] Hn].
  - destruct (configure_success_args _ _ _ _ _ _ _ Hc) as (Hns & Hps & Hme0).
    rewrite configure_new in Hc by assumption. cbv zeta in Hc. rewrite Hkv in Hc.
    destruct (Z.eqb_spec (recordsPerSegment (freshMeta ps tb tr me)) 0) as [|Hrps];
      [discriminate Hc|].
    injection Hc as <-. split.
    + unfold operating, ringBounds, layout.
      cbn [_ready _metaValid _nvsHandle _nvsNamespace _meta _effectiveMaxEntries].
      unfold freshMeta in *.
      cbn [magic version payloadSize timestampBytes timestampResolutionUs recordSize
           recordsPerSegment segmentBytes maxEntries head count] in *.
      destruct (Z.eqb_spec (u32 (ps + 4)) 0); [contradiction|].
      pose proof (u32_range (ps + 4)).
      assert (0 <= OFFLINE_NVS_SEGMENT_BYTES / u32 (ps + 4))
        by (apply Z.div_pos; unfold OFFLINE_NVS_SEGMENT_BYTES; lia).
      split_and!; try reflexivity; try assumption; try lia.
    + unfold stored. cbn [nvs _meta]. apply lookup_insert_eq.
  - assert (Hme : me <> 0)
      by (intros ->; rewrite configure_rejects in Hc by auto; discriminate).
    rewrite (configure_restart _ _ _ _ _ _ IHo IHs Hme) in Hc. injection Hc as <-.
    destruct IHo as (Hr & Hv & Hh & Hns & Hne & Hlay & Hm & Hhead & Heff & Hcount).
    split.
    + unfold operating, ringBounds.
      cbn [_ready _metaValid _nvsHandle _nvsNamespace _meta _effectiveMaxEntries].
      split_and!; try assumption; try reflexivity; lia.
    + exact IHs.
  - now apply appendBatch_operating.
  - now apply importTo_operating.
  - destruct (setEffectiveMaxEntries_operating _ _ _ _ _ _ IHo IHs Hn) as (A & B & _).
    split; assumption.
Qed.

Ltac nvs_reach me :=
  repeat first
    [ apply reach_appendBatch
    | apply reach_importTo
    | apply reach_setEffectiveMaxEntries; [| lia ]
    | apply (reach_configure _ _ _ _ ∅ me);
        [ reflexivity | lia | vm_compute; reflexivity ] ].











(** *** importTo and the flash *)

Lemma saveMeta_nvs st k :
  k <> OFFLINE_NVS_META_KEY -> nvs (snd (saveMeta st)) !! k = nvs st !! k.
Proof.
  intros Hk. unfold saveMeta.
  pose proof (open_keeps st) as (_ & _ & _ & _ & Hn).
  destruct (open st) as [ok st1]. cbn [snd] in Hn.
  destruct ok; cbn [negb snd]; [|now rewrite Hn].
  cbn [set_nvs nvs]. rewrite lookup_insert_ne by congruence. now rewrite Hn.
Qed.

(** X14.  [importTo] only moves the import watermark.  Whatever the
    store, the destination and the cap, the call leaves every segment of
    the flash, the record format, head, count, next sequence number, drops
    and the ready flags as they were; when it returns false the object is
    unchanged altogether. *)
Theorem importTo_only_moves_watermark (st : t) (dest : OfflineDataStore.t)
    (importMaxEntries : Z) :
  let r := importTo st dest importMaxEntries in
  let st' := importTo_store r in
  (forall k, k <> OFFLINE_NVS_META_KEY -> nvs st' !! k = nvs st !! k)
  /\ format (_meta st') = format (_meta st)
  /\ head (_meta st') = head (_meta st) /\ count (_meta st') = count (_meta st)
  /\ nextSeq (_meta st') = nextSeq (_meta st) /\ drops (_meta st') = drops (_meta st)
  /\ _ready st' = _ready st /\ _metaValid st' = _metaValid st
  /\ (fst (fst (fst r)) = false -> st' = st).
Proof.
  cbv zeta.
  destruct (importTo_cases st dest importMaxEntries) as [[Hst _] | H]; cbv zeta in *.
  - rewrite Hst. repeat split; reflexivity.
  - destruct H as (Hok & _ & _ & _ & _ & _ & Hst). rewrite Hst.
    match goal with
    | |- context [saveMeta ?s] =>
        pose proof (saveMeta_keeps s) as (Hm & Hr & Hv & _)
    end.
    rewrite Hm, Hr, Hv. cbn [set_meta _meta _ready _metaValid set_importSeq].
    split; [intros k Hk; now rewrite saveMeta_nvs|].
    repeat split; try reflexivity. rewrite Hok. discriminate.
Qed.

(** X15.  A completed import is not repeated.  When [importTo] succeeds
    and the destination could take every entry past the watermark, any
    further [importTo] on the resulting store, into any destination,
    returns true at once with the next sequence number and changes
    neither the store nor the destination. *)
Theorem importTo_complete_is_not_repeated
    (st : t) (dest : OfflineDataStore.t) (importMaxEntries out : Z)
    (st' : t) (dest' : OfflineDataStore.t)
    (Himport : importTo st dest importMaxEntries = (true, out, st', dest'))
    (Hnext : 0 <= nextSeq (_meta st) < 2 ^ 32)
    (Hall : u32 (nextSeq (_meta st) - importTo_startSeq (_meta st))
            <= (if (0 <? importMaxEntries)
                   && (importMaxEntries <? OfflineDataStore.getMaxEntries dest)
                then importMaxEntries else OfflineDataStore.getMaxEntries dest)) :
  out = nextSeq (_meta st)
  /\ forall dest2 importMaxEntries2,
       importTo st' dest2 importMaxEntries2 = (true, nextSeq (_meta st), st', dest2).
Proof.
  pose proof (importTo_startSeq_range (_meta st) Hnext) as [_ Hs0].
  destruct (importTo_cases st dest importMaxEntries) as [[Hst Hok] | H]; cbv zeta in *;
    rewrite Himport in *; cbn [fst snd importTo_store] in *.
  - destruct (Hok eq_refl) as (Heq & Hle & Hr & Hv & Hc).
    injection Heq as -> _. subst st'. split; [reflexivity|].
    intros dest2 imax2. unfold importTo. rewrite Hr, Hv. cbn [negb orb].
    destruct (Z.eqb_spec (count (_meta st)) 0); [contradiction|].
    destruct (Z.leb_spec (nextSeq (_meta st)) (importTo_startSeq (_meta st))); [|lia].
    reflexivity.
  - destruct H as (_ & Hr & Hv & Hc & Hlt & Hout & Hst).
    split; [exact Hout|]. intros dest2 imax2.
    set (avail := u32 (nextSeq (_meta st) - importTo_startSeq (_meta st))) in *.
    assert (Hav : avail = nextSeq (_meta st) - importTo_startSeq (_meta st))
      by (unfold avail; apply u32_small; lia).
    set (w := u32 (importTo_startSeq (_meta st) + _ - 1)) in Hst.
    assert (Hw : w = nextSeq (_meta st) - 1).
    { unfold w.
      match goal with
      | |- context [if avail <? ?c then _ else _] =>
          destruct (Z.ltb_spec avail c)
      end; rewrite u32_small; lia. }
    match type of Hst with
    | _ = snd (saveMeta ?s) => pose proof (saveMeta_keeps s) as (Hm' & Hr' & Hv' & _)
    end.
    rewrite <- Hst in Hm', Hr', Hv'.
    cbn [set_meta _meta _ready _metaValid] in Hm', Hr', Hv'.
    unfold importTo. rewrite Hr', Hv', Hr, Hv, Hm'. cbn [negb orb].
    cbn [count set_importSeq nextSeq].
    destruct (Z.eqb_spec (count (_meta st)) 0); [contradiction|].
    assert (Hstart : nextSeq (_meta st)
                     <= importTo_startSeq (set_importSeq (_meta st) w)).
    { unfold importTo_startSeq. cbn [set_importSeq count nextSeq importSeq].
      rewrite Hw. replace (nextSeq (_meta st) - 1 + 1) with (nextSeq (_meta st)) by lia.
      rewrite (u32_small (nextSeq (_meta st))) by lia.
      match goal with
      | |- context [if ?a <? ?b then _ else _] => destruct (Z.ltb_spec a b)
      end; lia. }
    destruct (Z.leb_spec (nextSeq (_meta st))
                (importTo_startSeq (set_importSeq (_meta st) w))); [|lia].
    reflexivity.
Qed.

Lemma importTo_complete_is_not_repeated_witness :
  let st1 := snd (appendBatch (snd (configure default "dev" 2 2 1000 8))
                              ["000"; "001"; "000"; "002"]%byte 2 [1000; 1001] 5 2) in
  let dest := OfflineDataStore.init OfflineDataStore.default 4 2 2 1000 in
  let r := importTo st1 dest 0 in
  importTo (importTo_store r) (importTo_dest r) 0
  = (true, nextSeq (_meta st1), importTo_store r, importTo_dest r).
Proof.
  cbv zeta.
  refine (proj2 (importTo_complete_is_not_repeated
                   (snd (appendBatch (snd (configure default "dev" 2 2 1000 8))
                           ["000"; "001"; "000"; "002"]%byte 2 [1000; 1001] 5 2))
                   (OfflineDataStore.init OfflineDataStore.default 4 2 2 1000) 0
                   7 _ _ _ _ _) _ 0).
  - vm_compute. reflexivity.
  - vm_compute. split; [discriminate | reflexivity].
  - vm_compute. discriminate.
Defined.

(** X16.  A store that is not ready refuses work, and [clear] makes it
    so.  While [isReady] is false, [appendBatch] returns false with last
    sequence number 0 and [importTo] returns false with next sequence
    number 0, and neither changes the store or the destination.  [clear]
    on a store in use erases every key of the namespace and leaves the
    store not ready, with [getCount] and [getNextSeq] reporting 0, until
    it is configured again. *)
Theorem not_ready_store_refuses (ns : string) (ps tb tr : Z) (st : t) :
  (isReady st = false ->
     (forall payloads ps' adjTs f n,
        appendBatch st payloads ps' adjTs f n = (false, 0, st))
     /\ (forall dest importMaxEntries,
           importTo st dest importMaxEntries = (false, 0, st, dest)))
  /\ (reachable ns ps tb tr st ->
      isReady (clear st) = false /\ nvs (clear st) = ∅
      /\ getCount (clear st) = 0 /\ getNextSeq (clear st) = 0).
Proof.
  split.
  - unfold isReady. intros Hnr. split.
    + intros payloads ps' adjTs f n. unfold appendBatch, appendBatch_guards.
      rewrite Hnr. reflexivity.
    + intros dest imax. unfold importTo.
      destruct (_ready st), (_metaValid st); try discriminate Hnr; reflexivity.
  - intros Hreach.
    destruct (reachable_operating _ _ _ _ _ Hreach) as [(_ & _ & Hh & _) _].
    unfold clear. rewrite open_handle by assumption. cbn [negb].
    repeat split.
Qed.

Lemma not_ready_store_refuses_witness :
  let st1 := snd (appendBatch (snd (configure default "dev" 2 2 1000 8))
                              ["000"; "001"]%byte 2 [1000] 5 1) in
  (forall payloads ps' adjTs f n,
     appendBatch (clear st1) payloads ps' adjTs f n = (false, 0, clear st1))
  /\ isReady (clear st1) = false /\ nvs (clear st1) = ∅.
Proof.
  cbv zeta.
  pose proof (not_ready_store_refuses "dev" 2 2 1000
                (snd (appendBatch (snd (configure default "dev" 2 2 1000 8))
                        ["000"; "001"]%byte 2 [1000] 5 1))) as [_ Hc].
  pose proof (not_ready_store_refuses "dev" 2 2 1000
                (clear (snd (appendBatch (snd (configure default "dev" 2 2 1000 8))
                               ["000"; "001"]%byte 2 [1000] 5 1)))) as [Hn _].
  refine ((fun H => conj (proj1 (Hn (proj1 H))) (conj (proj1 H) (proj1 (proj2 H))))
            (Hc _)).
  nvs_reach 8.
Defined.

Lemma importTo_success st dest imax out st' dest' :
  importTo st dest imax = (true, out, st', dest') ->
  let m := _meta st in
  let cap := if (0 <? imax) && (imax <? OfflineDataStore.getMaxEntries dest)
             then imax else OfflineDataStore.getMaxEntries dest in
  let available := u32 (nextSeq m - importTo_startSeq m) in
  let importCount := if available <? cap then available else cap in
  (nextSeq m <= importTo_startSeq m /\ st' = st)
  \/ (importTo_startSeq m < nextSeq m /\ cap <> 0 /\ importCount <> 0
      /\ st' = snd (saveMeta (set_meta st
                      (set_importSeq m (u32 (importTo_startSeq m + importCount - 1)))))).
Proof.
  cbv zeta. unfold importTo.
  destruct (_ready st); cbn [negb orb]; [|discriminate].
  destruct (_metaValid st); cbn [negb]; [|discriminate].
  destruct (Z.eqb_spec (count (_meta st)) 0); [discriminate|].
  destruct (Z.leb_spec (nextSeq (_meta st)) (importTo_startSeq (_meta st))).
  { intros [= _ <- _]. left. now split. }
  set (cap := if (0 <? imax) && (imax <? OfflineDataStore.getMaxEntries dest)
              then imax else OfflineDataStore.getMaxEntries dest).
  destruct (Z.eqb_spec cap 0); [discriminate|].
  set (importCount := if u32 (nextSeq (_meta st) - importTo_startSeq (_meta st)) <? cap
                      then u32 (nextSeq (_meta st) - importTo_startSeq (_meta st))
                      else cap).
  destruct (Z.eqb_spec importCount 0); [discriminate|].
  destruct (importTo_loop _ _ _ _ _ _ _ _) as [ok d].
  destruct ok; cbn [negb]; [|discriminate].
  intros [= _ <- _]. right. repeat split; assumption.
Qed.

(** X25.  An import resumes where the last one stopped.  After a
    successful [importTo] whose destination took [cap] entries at most,
    the next import starts [min (available, cap)] sequence numbers
    further on, directly after the new watermark: no entry between two
    imports is skipped or handed on twice.  The ring position is not
    touched. *)
Theorem importTo_resumes_after_last_imported
    (st : t) (dest : OfflineDataStore.t) (importMaxEntries out : Z)
    (st' : t) (dest' : OfflineDataStore.t)
    (Himport : importTo st dest importMaxEntries = (true, out, st', dest'))
    (Hnext : 0 <= nextSeq (_meta st) < 2 ^ 32) (Hcount : 0 <= count (_meta st))
    (Hcap : 0 <= importMaxEntries /\ 0 <= OfflineDataStore.getMaxEntries dest) :
  let m := _meta st in
  let cap := if (0 <? importMaxEntries)
                && (importMaxEntries <? OfflineDataStore.getMaxEntries dest)
             then importMaxEntries else OfflineDataStore.getMaxEntries dest in
  nextSeq (_meta st') = nextSeq m /\ count (_meta st') = count m
  /\ head (_meta st') = head m
  /\ importTo_startSeq (_meta st')
     = (if nextSeq m <=? importTo_startSeq m then importTo_startSeq m
        else Z.min (nextSeq m) (importTo_startSeq m + cap))
  /\ (importTo_startSeq m < nextSeq m ->
      importSeq (_meta st') + 1 = importTo_startSeq (_meta st')).
Proof.
  pose proof (importTo_startSeq_range (_meta st) Hnext) as [_ Hs0].
  cbv zeta.
  destruct (importTo_success _ _ _ _ _ _ Himport) as [[Hle ->] | (Hlt & Hc0 & Hic & ->)];
    cbv zeta in *.
  - destruct (Z.leb_spec (nextSeq (_meta st)) (importTo_startSeq (_meta st))); [|lia].
    repeat split; try reflexivity. lia.
  - destruct (Z.leb_spec (nextSeq (_meta st)) (importTo_startSeq (_meta st))); [lia|].
    match goal with
    | |- context [saveMeta ?s] => pose proof (saveMeta_keeps s) as (Hm & _)
    end.
    rewrite Hm. cbn [set_meta _meta set_importSeq nextSeq count head importSeq].
    set (cap := if (0 <? importMaxEntries)
                   && (importMaxEntries <? OfflineDataStore.getMaxEntries dest)
                then importMaxEntries else OfflineDataStore.getMaxEntries dest) in *.
    assert (Hcap0 : 0 < cap).
    { unfold cap in *.
      destruct ((0 <? importMaxEntries)
                && (importMaxEntries <? OfflineDataStore.getMaxEntries dest)); lia. }
    set (start := importTo_startSeq (_meta st)) in *.
    rewrite (u32_small (nextSeq (_meta st) - start)) in * by lia.
    set (ic := if nextSeq (_meta st) - start <? cap
               then nextSeq (_meta st) - start else cap) in *.
    assert (Hicr : 0 < ic /\ start + ic = Z.min (nextSeq (_meta st)) (start + cap)).
    { unfold ic. destruct (Z.ltb_spec (nextSeq (_meta st) - start) cap); lia. }
    rewrite (u32_small (start + ic - 1)) by lia.
    assert (Hstart' : importTo_startSeq (set_importSeq (_meta st) (start + ic - 1))
                      = start + ic).
    { unfold importTo_startSeq. cbn [set_importSeq count nextSeq importSeq].
      replace (start + ic - 1 + 1) with (start + ic) by lia.
      rewrite (u32_small (start + ic)) by lia.
      assert (Hfirst : (if count (_meta st) <=? nextSeq (_meta st)
                        then u32 (nextSeq (_meta st) - count (_meta st)) else 0)
                       <= start).
      { unfold start, importTo_startSeq.
        match goal with
        | |- context [if ?a <? ?b then _ else _] => destruct (Z.ltb_spec a b)
        end; lia. }
      match goal with
      | |- context [if ?a <? ?b then _ else _] => destruct (Z.ltb_spec a b)
      end; lia. }
    rewrite Hstart'. repeat split; try reflexivity; lia.
Qed.

Lemma importTo_resumes_after_last_imported_witness :
  let st1 := snd (appendBatch (snd (configure default "dev" 2 2 1000 8))
                              ["000"; "001"; "000"; "002"; "000"; "003"]%byte 2
                              [1000; 1001; 1002] 5 3) in
  let dest := OfflineDataStore.init OfflineDataStore.default 2 2 2 1000 in
  let st2 := importTo_store (importTo st1 dest 0) in
  importTo_startSeq (_meta st1) = 5
  /\ importTo_startSeq (_meta st2) = 7
  /\ importSeq (_meta st2) + 1 = importTo_startSeq (_meta st2).
Proof.
  cbv zeta.
  pose proof (importTo_resumes_after_last_imported
                (snd (appendBatch (snd (configure default "dev" 2 2 1000 8))
                        ["000"; "001"; "000"; "002"; "000"; "003"]%byte 2
                        [1000; 1001; 1002] 5 3))
                (OfflineDataStore.init OfflineDataStore.default 2 2 2 1000) 0 8
                _ _ eq_refl) as Hx.
  cbv zeta in Hx.
  refine ((fun H => conj eq_refl
                      (conj (proj1 (proj2 (proj2 (proj2 H))))
                            (proj2 (proj2 (proj2 (proj2 H))) _)))
            (Hx _ _ _)).
  - vm_compute. reflexivity.
  - vm_compute. split; [discriminate | reflexivity].
  - vm_compute. discriminate.
  - split; [lia | vm_compute; discriminate].
Defined.

End PersistentStore.
(** ** OfflineDataStoreNVS: what is appended is what is imported *)

Section RoundTrip.

Import OfflineDataStoreNVS.

(** *** Bytes *)







(** *** Records *)








(** *** The segment buffer of appendBatch as a write-back cache *)





(** *** The import loop *)






End RoundTrip.
(** ** BusAddrStatus: what the flags mean *)

Section AddrStatusInvariants.

Import BusAddrStatus.

Lemma to_int8_range x : -128 <= to_int8 x <= 127.
Proof. unfold to_int8. pose proof (Z.mod_pos_bound (x + 128) 256 ltac:(lia)). lia. Qed.

(** The flags of a record agree with each other. *)
Lemma reachable_flags okArgs s :
  reachable okArgs s ->
  (isOnline s = true <-> onlineState s = ONLINE)
  /\ (isOnline s = true -> wasOnceOnline s = true /\ flagForDeletion s = false)
  /\ (flagForDeletion s = true -> onlineState s = OFFLINE)
  /\ -128 <= count s <= 127.
Proof.
  induction 1 as [|addr st chg newly|s mt _ IH|s r fs okMax failMax _ IH _].
  - cbn. repeat split; intros; (discriminate || lia).
  - destruct st; cbn; repeat split; intros; (discriminate || reflexivity || lia).
  - exact IH.
  - destruct IH as (Hon & Hw & Hdel & Hc).
    unfold handleResponding.
    repeat match goal with
           | |- context [if ?b then _ else _] => destruct b eqn:?
           end;
      cbn [snd now_online now_offline set_count isOnline onlineState wasOnceOnline
           flagForDeletion count];
      repeat split; intros; try discriminate; try reflexivity; try lia;
      try (apply Hon; assumption); try (apply Hw; assumption);
      try (apply Hdel; assumption); try apply to_int8_range.
Qed.

(** X18.  The flags of an address record are consistent.  After any
    sequence of [handleResponding] calls on a record built by either
    constructor: [isOnline] holds exactly when [onlineState] is ONLINE; a
    record that is online has been online once and is not flagged for
    deletion; a record flagged for deletion is OFFLINE; and [count] is
    within the range of its [int8_t]. *)
Theorem address_flags_consistent (s : t) (Hreach : reachable anyThresholds s) :
  (isOnline s = true <-> onlineState s = ONLINE)
  /\ (isOnline s = true -> wasOnceOnline s = true /\ flagForDeletion s = false)
  /\ (flagForDeletion s = true -> onlineState s = OFFLINE /\ isOnline s = false)
  /\ -128 <= count s <= 127.
Proof.
  destruct (reachable_flags _ _ Hreach) as (Hon & Hw & Hdel & Hc).
  split; [exact Hon|]. split; [exact Hw|]. split; [|exact Hc].
  intros Hf. split; [now apply Hdel|].
  destruct (isOnline s) eqn:Ho; [|reflexivity].
  destruct (Hw eq_refl) as [_ Hnf]. congruence.
Qed.

Lemma address_flags_consistent_witness :
  let s := snd (handleResponding (snd (handleResponding default true false 2 3))
                                 true false 2 3) in
  (isOnline s = true <-> onlineState s = ONLINE)
  /\ (isOnline s = true -> wasOnceOnline s = true /\ flagForDeletion s = false)
  /\ (flagForDeletion s = true -> onlineState s = OFFLINE /\ isOnline s = false)
  /\ -128 <= count s <= 127.
Proof.
  cbv zeta. apply address_flags_consistent.
  apply reach_handleResponding; [|exact I].
  apply reach_handleResponding; [|exact I].
  apply reach_default.
Defined.

(** X19.  What the return value and [isChange] report.  For a record
    reached as above and any call of [handleResponding]: [isChange] is
    toggled exactly when [isOnline] changes; a call that returns false
    changed nothing but [count] and left [flagSpuriousRecord] alone; a
    call that returns true reset [count] to 0; and the call never clears
    a [flagSpuriousRecord] that was set. *)
Theorem handleResponding_reports_changes (s : t) (isResponding fs : bool)
    (okMax failMax : Z) (Hreach : reachable anyThresholds s) :
  let r := handleResponding s isResponding fs okMax failMax in
  let s' := snd r in
  xorb (isChange s') (isChange s) = xorb (isOnline s') (isOnline s)
  /\ (fst (fst r) = false -> s' = set_count s (count s') /\ snd (fst r) = fs)
  /\ (fst (fst r) = true -> count s' = 0)
  /\ (fs = true -> snd (fst r) = true).
Proof.
  destruct (reachable_flags _ _ Hreach) as (_ & Hw & _ & _).
  cbv zeta. unfold handleResponding.
  destruct s as [addr c chg on was sr ni del st b1 b2 mt lt].
  cbn [isOnline wasOnceOnline flagForDeletion count isChange] in *.
  destruct isResponding, on, was, del;
    try (destruct (Hw eq_refl) as [? ?]; discriminate);
    cbn [negb orb];
    repeat match goal with
           | |- context [if ?b then _ else _] => destruct b
           end;
    cbn [fst snd now_online now_offline set_count isChange isOnline count
         address wasOnceOnline slotResolved isNewlyIdentified flagForDeletion
         onlineState barStartMs barDurationMs minTimeBetweenReportsMs
         lastDataChangeReportTimeMs];
    repeat split; intros; try discriminate; try reflexivity; try assumption;
    destruct chg; reflexivity.
Qed.

Lemma handleResponding_reports_changes_witness :
  let s := snd (handleResponding (snd (handleResponding default true false 2 3))
                                 true false 2 3) in
  let r := handleResponding s false false 2 3 in
  xorb (isChange (snd r)) (isChange s) = xorb (isOnline (snd r)) (isOnline s)
  /\ (fst (fst r) = true -> count (snd r) = 0).
Proof.
  cbv zeta.
  pose proof (handleResponding_reports_changes
                (snd (handleResponding (snd (handleResponding default true false 2 3))
                                       true false 2 3)) false false 2 3) as Hx.
  cbv zeta in Hx.
  refine ((fun H => conj (proj1 H) (proj1 (proj2 (proj2 H)))) (Hx _)).
  apply reach_handleResponding; [|exact I].
  apply reach_handleResponding; [|exact I].
  apply reach_default.
Defined.

(** *** Thresholds up to 128 *)

Lemma reachable_count_nonneg s : reachable smallThresholds s -> 0 <= count s <= 127.
Proof.
  induction 1 as [|addr st chg newly|s mt _ IH|s r fs okMax failMax _ IH [Hok Hfail]].
  - cbn. lia.
  - cbn. lia.
  - exact IH.
  - unfold handleResponding.
    assert (Hu : u32 (count s) = count s) by (apply u32_small; lia).
    assert (Hneg : neg_u32 failMax = 2 ^ 32 - failMax).
    { unfold neg_u32, u32, wrap.
      replace (- failMax) with (2 ^ 32 - failMax + (-1) * 2 ^ 32) by lia.
      rewrite Z_mod_plus_full. apply Z.mod_small. lia. }
    rewrite Hu, Hneg.
    destruct r.
    + destruct (negb (isOnline s)); [|exact IH].
      destruct (Z.ltb_spec (count s) okMax).
      * destruct (Z.eq_dec (count s) 127) as [H127|H127].
        -- rewrite H127. change (to_int8 (127 + 1)) with (-128).
           change (u32 (-128)) with 4294967168.
           destruct (Z.leb_spec okMax 4294967168); cbn; lia.
        -- rewrite to_int8_small by lia. rewrite u32_small by lia.
           destruct (Z.leb_spec okMax (count s + 1)); cbn; lia.
      * rewrite Hu. destruct (Z.leb_spec okMax (count s)); cbn; lia.
    + destruct (isOnline s || negb (wasOnceOnline s) || flagForDeletion s); [|exact IH].
      destruct (Z.ltb_spec (count s) (2 ^ 32 - failMax)); [|lia].
      rewrite Hu. destruct (Z.leb_spec (count s) (2 ^ 32 - failMax)); cbn; lia.
Qed.

(** X20.  No hysteresis towards offline.  When every call uses an [okMax]
    of at most 128 and a [failMax] between 1 and 2^32 - 128 (the defaults
    are 2 and 3), [count] never becomes negative, and a record that is
    online is taken offline by the first call that reports it as not
    responding, whatever [failMax] is: the call returns true, leaves
    [flagSpuriousRecord] as it was, and flags the record for deletion. *)
Theorem online_record_offline_at_first_miss (s : t) (fs : bool) (okMax failMax : Z)
    (Hreach : reachable smallThresholds s)
    (Hargs : smallThresholds okMax failMax)
    (Hon : isOnline s = true) :
  0 <= count s <= 127
  /\ handleResponding s false fs okMax failMax = (true, fs, now_offline s false)
  /\ isOnline (now_offline s false) = false
  /\ flagForDeletion (now_offline s false) = true
  /\ isChange (now_offline s false) = negb (isChange s).
Proof.
  pose proof (reachable_count_nonneg s Hreach) as Hc.
  assert (Hany : reachable anyThresholds s).
  { clear -Hreach. induction Hreach.
    - apply reach_default.
    - apply reach_make.
    - now apply reach_registerForDataChange.
    - apply reach_handleResponding; [assumption | exact I]. }
  destruct (reachable_flags _ _ Hany) as (_ & Hw & _ & _).
  destruct (Hw Hon) as [Hwas Hdel]. destruct Hargs as [Hok Hfail].
  split; [exact Hc|]. split; [|repeat split].
  rewrite (handleResponding_not_responding_nonneg s fs okMax failMax)
    by (rewrite ?Hon; reflexivity || lia).
  rewrite Hwas, Hdel. reflexivity.
Qed.

Lemma online_record_offline_at_first_miss_witness :
  let s := snd (handleResponding (snd (handleResponding default true false 2 3))
                                 true false 2 3) in
  handleResponding s false false 2 3 = (true, false, now_offline s false).
Proof.
  cbv zeta.
  refine (proj1 (proj2 (online_record_offline_at_first_miss _ false 2 3 _ _ _))).
  - apply reach_handleResponding; [|unfold smallThresholds; lia].
    apply reach_handleResponding; [|unfold smallThresholds; lia].
    apply reach_default.
  - unfold smallThresholds; lia.
  - reflexivity.
Defined.

End AddrStatusInvariants.
(** ** DeviceStatus: sequence numbers and draining *)

Section DeviceOffline.

Import DeviceStatus.

Context {A : Type} `{PollDataAggregator A}.

Lemma get_loop_seqs s q (n : nat) : forall i tailIdx,
  OfflineDataStore.seq <$> snd (OfflineDataStore.get_loop s q n i tailIdx)
  = (fun j => u32 (q + (i + Z.of_nat j))) <$> seq 0 n.
Proof.
  induction n as [|n IH]; intros i tailIdx; cbn [OfflineDataStore.get_loop]; [reflexivity|].
  specialize (IH (i + 1) (u32 (tailIdx + 1) mod OfflineDataStore._maxEntries s)).
  destruct (OfflineDataStore.get_loop s q n (i + 1) _) as [dd ms].
  cbn [snd fmap list_fmap seq] in *. rewrite IH.
  cbn [OfflineDataStore.get_meta OfflineDataStore.seq]. f_equal.
  - f_equal. lia.
  - rewrite <- fmap_S_seq, <- list_fmap_compose. apply list_fmap_ext.
    intros _ j _. cbn. f_equal. lia.
Qed.

Lemma set_offlineData_same (d : t A) : set_offlineData d (offlineData d) = d.
Proof. now destruct d. Qed.

Lemma get_peek_store s rs maxResp startIdx maxBytes :
  OfflineDataStore.get_store (OfflineDataStore.get s rs maxResp false startIdx maxBytes) = s.
Proof.
  unfold OfflineDataStore.get.
  repeat match goal with
         | |- context [if ?b then _ else _] => destruct b
         end; try reflexivity;
    destruct (OfflineDataStore.get_loop s _ _ 0 _) as [dd ms]; reflexivity.
Qed.

(** The ring of a device only ever sees puts in sequence order, and the
    device's counter is never behind the ring's. *)
Lemma reachable_ring (d : t A) :
  reachable d ->
  OfflineDataStore.reachable OfflineDataStore.anyInit OfflineDataStore.orderedPut
    (offlineData d)
  /\ OfflineDataStore._nextSeq (offlineData d) <= _offlineSeq d < 2 ^ 32.
Proof.
  induction 1 as [idx polling agg
                 | d nextReqIdx timeNowUs pollResult pause _ [IHr IHs] Ht Hseq
                 | d me ps tb tr _ [IHr IHs] Hme Hps Htb Htr
                 | d _ [IHr IHs] | d paused _ [IHr IHs] | d paused _ [IHr IHs]
                 | d n _ [IHr IHs] Hn
                 | d data0 rs0 maxResp metas0 _ [IHr IHs] Hrs Hmr
                 | d data0 rs0 startIdx maxResp maxBytes metas0 _ [IHr IHs] Hrs Hst Hmr Hmb].
  - cbn. split; [apply OfflineDataStore.reach_default | lia].
  - pose proof (reachable_ordered _ IHr) as [_ Hnext0].
    unfold OfflineDataStore.is_u32 in Hnext0. unfold UINT32_MAX in Hseq.
    assert (Hdone : forall polling result,
              let r := storeCompleted d polling timeNowUs result in
              OfflineDataStore.reachable OfflineDataStore.anyInit
                OfflineDataStore.orderedPut (offlineData (snd r))
              /\ OfflineDataStore._nextSeq (offlineData (snd r))
                 <= _offlineSeq (snd r) < 2 ^ 32).
    { intros polling result. cbv zeta. unfold storeCompleted.
      destruct (agg_put (dataAggregator d) timeNowUs result) as [aggOk agg].
      cbn [snd offlineData _offlineSeq].
      rewrite u32_small by lia.
      destruct (OfflineDataStore.isConfigured (offlineData d)
                && negb (_offlineBufferPaused d)).
      - split.
        + apply OfflineDataStore.reach_put; try assumption.
          * unfold OfflineDataStore.is_u32. lia.
          * unfold OfflineDataStore.orderedPut, UINT32_MAX. lia.
        + destruct (fst (OfflineDataStore.put (offlineData d) timeNowUs (_offlineSeq d)
                           result)) eqn:Hacc.
          * rewrite put_nextSeq by assumption.
            rewrite u32_small by lia. lia.
          * rewrite (put_rejected _ _ _ _ Hacc). cbn [snd]. lia.
      - split; [assumption | lia]. }
    unfold storePollResults.
    destruct (nextReqIdx =? 0); cbn [negb].
    + destruct (getPartialPollResultsAndClear (deviceIdentPolling d)) as [[found ppr] polling].
      destruct found; apply Hdone.
    + cbn [snd offlineData _offlineSeq]. split; assumption.
  - cbn [configureOfflineBuffer offlineData _offlineSeq]. split.
    + apply OfflineDataStore.reach_init; try assumption. exact I.
    + cbn. pose proof (reachable_ordered _ IHr) as [_ Hn0].
      unfold OfflineDataStore.is_u32 in Hn0. lia.
  - cbn [clearOfflineBuffer offlineData _offlineSeq]. split.
    + now apply OfflineDataStore.reach_clear.
    + cbn. lia.
  - cbn. split; assumption.
  - cbn. split; assumption.
  - cbn. split; [assumption | lia].
  - unfold getOfflineResponses.
    destruct (_offlineDrainPaused d || negb (OfflineDataStore.isConfigured (offlineData d)));
      cbn [snd]; [split; assumption|].
    cbn [set_offlineData offlineData _offlineSeq]. split.
    + apply OfflineDataStore.reach_get; try assumption;
        unfold OfflineDataStore.is_u32; lia.
    + pose proof (reachable_bounded _ _ _ IHr) as Hb.
      assert (H0 : OfflineDataStore.is_u32 0) by (unfold OfflineDataStore.is_u32; lia).
      destruct (get_cases (offlineData d) rs0 maxResp true 0 0 Hb Hmr H0 H0)
        as [(_ & _ & _ & ->)|(k & n & _ & _ & _ & _ & _ & _ & ->)]; [assumption|].
      cbn. assumption.
  - unfold peekOfflineResponses.
    destruct (negb (OfflineDataStore.isConfigured (offlineData d)));
      cbn [snd]; [split; assumption|].
    cbn [set_offlineData offlineData _offlineSeq].
    rewrite get_peek_store. split; assumption.
Qed.

(** X21.  The device keeps sequence numbers in order.  For a device driven
    through its member functions (storing poll results while the sequence
    counter has not reached [UINT32_MAX]), the offline ring holds at most
    as many entries as its next sequence number, which is never ahead of
    the device's counter; so [firstSeq] of the statistics is exactly
    [nextSeq - count], and the entries [peekOfflineResponses] returns
    from offset [startIdx] carry the consecutive sequence numbers
    [firstSeq + startIdx], [firstSeq + startIdx + 1], and so on. *)
Theorem device_sequence_numbers_in_order (d : t A) (Hreach : reachable d) :
  let ring := offlineData d in
  let first := OfflineDataStore._nextSeq ring - OfflineDataStore._count ring in
  0 <= OfflineDataStore._count ring <= OfflineDataStore._nextSeq ring
  /\ OfflineDataStore._nextSeq ring <= getOfflineSeq d < 2 ^ 32
  /\ OfflineDataStore.firstSeq (getOfflineStats d) = first
  /\ forall data0 rs0 startIdx maxResp maxBytes metas0,
       OfflineDataStore.is_u32 startIdx -> OfflineDataStore.is_u32 maxResp ->
       OfflineDataStore.is_u32 maxBytes ->
       OfflineDataStore.isConfigured ring = true ->
       let r := fst (peekOfflineResponses d data0 rs0 startIdx maxResp maxBytes metas0) in
       OfflineDataStore.seq <$> OfflineDataStore.get_metas r
       = (fun j => first + startIdx + Z.of_nat j)
           <$> seq 0 (Z.to_nat (OfflineDataStore.get_ret r)).
Proof.
  destruct (reachable_ring d Hreach) as [Hring Hseq].
  pose proof (reachable_bounded _ _ _ Hring) as Hb.
  pose proof (reachable_ordered _ Hring) as [Hord Hnext].
  pose proof Hb as (_ & Hc & _ & _ & Hun).
  unfold OfflineDataStore.is_u32 in Hnext.
  cbv zeta. split; [lia|]. split; [exact Hseq|]. split.
  - unfold getOfflineStats, OfflineDataStore.getStats.
    destruct (OfflineDataStore.isConfigured (offlineData d)) eqn:Hcfg;
      cbn [negb OfflineDataStore.firstSeq].
    + destruct (Z.ltb_spec (OfflineDataStore._count (offlineData d))
                           (OfflineDataStore._nextSeq (offlineData d))).
      * apply u32_small. lia.
      * lia.
    + destruct (Hun eq_refl) as [-> ->]. reflexivity.
  - intros data0 rs0 startIdx maxResp maxBytes metas0 Hst Hmr Hmb Hcfg.
    unfold peekOfflineResponses. rewrite Hcfg. cbn [negb fst].
    destruct (get_cases (offlineData d) rs0 maxResp false startIdx maxBytes Hb Hmr Hst Hmb)
      as [(-> & -> & _)|(k & n & _ & Hn & Hkn & Hk & -> & Hloop & _)].
    + reflexivity.
    + cbn [andb] in Hk.
      apply (f_equal snd) in Hloop. cbn [snd] in Hloop. rewrite Hloop.
      rewrite get_loop_seqs, Nat2Z.id. apply list_fmap_ext.
      intros i j Hj. apply lookup_seq in Hj as [-> Hi]. cbn [Nat.add].
      destruct (Z.ltb_spec (OfflineDataStore._count (offlineData d))
                           (OfflineDataStore._nextSeq (offlineData d))).
      * rewrite (u32_small (_ - _ + _)) by lia. rewrite u32_small by lia. lia.
      * rewrite u32_small by lia. lia.
Qed.

Lemma get_consuming_vs_peek s rs n :
  0 <= OfflineDataStore._count s -> OfflineDataStore.is_u32 n ->
  let rt := OfflineDataStore.get s rs n true 0 0 in
  let rf := OfflineDataStore.get s rs n false 0 0 in
  OfflineDataStore.get_ret rt = OfflineDataStore.get_ret rf
  /\ OfflineDataStore.get_data rt = OfflineDataStore.get_data rf
  /\ OfflineDataStore.get_metas rt = OfflineDataStore.get_metas rf
  /\ OfflineDataStore.get_responseSize rt = OfflineDataStore.get_responseSize rf
  /\ OfflineDataStore.get_store rt
     = snd (OfflineDataStore.consume s (OfflineDataStore.get_ret rt)).
Proof.
  intros Hc Hn. unfold OfflineDataStore.is_u32 in Hn. cbv zeta.
  unfold OfflineDataStore.get, OfflineDataStore.consume.
  destruct (OfflineDataStore.isConfigured s) eqn:Hcfg; cbn [negb];
    [|repeat split].
  change (0 <? 0) with false. cbn [andb].
  assert (Hsame : forall c, c = OfflineDataStore._count s -> s = OfflineDataStore.set_count s c)
    by (intros c ->; now destruct s).
  destruct (Z.eqb_spec (OfflineDataStore._count s) 0) as [Hz|Hnz]; cbn [orb].
  - cbn [OfflineDataStore.get_ret OfflineDataStore.get_data OfflineDataStore.get_metas
         OfflineDataStore.get_responseSize OfflineDataStore.get_store snd].
    repeat split. apply Hsame. rewrite Hz. reflexivity.
  - destruct (Z.leb_spec (OfflineDataStore._count s) 0); [lia|].
    rewrite Z.sub_0_r.
    set (num := if (n =? 0) || (OfflineDataStore._count s <? n)
                then OfflineDataStore._count s else n).
    assert (Hnum : 0 < num <= OfflineDataStore._count s).
    { unfold num. destruct (Z.eqb_spec n 0); cbn [orb]; [lia|].
      destruct (Z.ltb_spec (OfflineDataStore._count s) n); lia. }
    destruct (Z.eqb_spec num 0); [lia|].
    rewrite !Z.add_0_r.
    destruct (OfflineDataStore.get_loop s _ (Z.to_nat num) 0 _) as [dd ms].
    cbn [OfflineDataStore.get_ret OfflineDataStore.get_data OfflineDataStore.get_metas
         OfflineDataStore.get_responseSize OfflineDataStore.get_store snd].
    repeat split.
    destruct (Z.ltb_spec (OfflineDataStore._count s) num); [lia|]. reflexivity.
Qed.

(** X22.  Draining is peeking and then consuming.  [peekOfflineResponses]
    never changes the device.  While draining is paused,
    [getOfflineResponses] returns 0, leaves the caller's buffers alone and
    changes nothing.  Otherwise it returns exactly what a peek from the
    front with the same response cap and no byte cap returns, and leaves
    the ring as [consume] of the returned number of entries leaves it; the
    sequence counter is not touched. *)
Theorem drain_is_peek_then_consume (d : t A) (data0 : list byte) (rs0 maxResp : Z)
    (metas0 : list OfflineDataStore.OfflineDataMeta)
    (Hreach : reachable d) (HmaxResp : OfflineDataStore.is_u32 maxResp) :
  let g := getOfflineResponses d data0 rs0 maxResp metas0 in
  let p := peekOfflineResponses d data0 rs0 0 maxResp 0 metas0 in
  (forall startIdx maxResp' maxBytes,
     snd (peekOfflineResponses d data0 rs0 startIdx maxResp' maxBytes metas0) = d)
  /\ (_offlineDrainPaused d = true ->
      g = (OfflineDataStore.mkGet 0 data0 rs0 metas0 (offlineData d), d))
  /\ (_offlineDrainPaused d = false ->
      OfflineDataStore.get_ret (fst g) = OfflineDataStore.get_ret (fst p)
      /\ OfflineDataStore.get_data (fst g) = OfflineDataStore.get_data (fst p)
      /\ OfflineDataStore.get_metas (fst g) = OfflineDataStore.get_metas (fst p)
      /\ OfflineDataStore.get_responseSize (fst g)
         = OfflineDataStore.get_responseSize (fst p)
      /\ offlineData (snd g)
         = snd (OfflineDataStore.consume (offlineData d)
                  (OfflineDataStore.get_ret (fst g)))
      /\ getOfflineSeq (snd g) = getOfflineSeq d).
Proof.
  destruct (reachable_ring d Hreach) as [Hring _].
  pose proof (reachable_bounded _ _ _ Hring) as (_ & Hc & _).
  cbv zeta. split; [|split].
  - intros startIdx maxResp' maxBytes. unfold peekOfflineResponses.
    destruct (negb (OfflineDataStore.isConfigured (offlineData d))); cbn [snd];
      [reflexivity|].
    rewrite get_peek_store. apply set_offlineData_same.
  - intros Hp. unfold getOfflineResponses. rewrite Hp. reflexivity.
  - intros Hp. unfold getOfflineResponses, peekOfflineResponses. rewrite Hp. cbn [orb].
    destruct (OfflineDataStore.isConfigured (offlineData d)) eqn:Hcfg; cbn [negb fst snd].
    + destruct (get_consuming_vs_peek (offlineData d) rs0 maxResp ltac:(lia) HmaxResp)
        as (E1 & E2 & E3 & E4 & E5). cbv zeta in *.
      cbn [set_offlineData offlineData].
      repeat split; assumption.
    + cbn [OfflineDataStore.get_ret OfflineDataStore.get_data OfflineDataStore.get_metas
           OfflineDataStore.get_responseSize].
      unfold OfflineDataStore.consume. rewrite Hcfg. repeat split.
Qed.

End DeviceOffline.

Section DeviceOfflineExamples.

Import DeviceStatus.

Lemma device_sequence_numbers_in_order_witness :
  let d1 := snd (storePollResults (exampleDevice false) 0 5000 ["170"; "187"; "204"]%byte 0) in
  OfflineDataStore._nextSeq (offlineData d1) <= getOfflineSeq d1 < 2 ^ 32
  /\ OfflineDataStore.firstSeq (getOfflineStats d1)
     = OfflineDataStore._nextSeq (offlineData d1) - OfflineDataStore._count (offlineData d1).
Proof.
  cbv zeta.
  pose proof (device_sequence_numbers_in_order
                (snd (storePollResults (exampleDevice false) 0 5000
                        ["170"; "187"; "204"]%byte 0))) as Hx.
  cbv zeta in Hx.
  refine ((fun H => conj (proj1 (proj2 H)) (proj1 (proj2 (proj2 H)))) (Hx _)).
  apply reach_storePollResults;
    [|unfold OfflineDataStore.is_u64; lia | vm_compute; reflexivity].
  change (exampleDevice false)
    with (configureOfflineBuffer
            (setOfflineSeq (mk 0 (mkPolling 100000 0 0 0 [] [])
                               ([] : list (Z * list byte))
                               OfflineDataStore.default 0 false false) 7)
            4 3 1 1000).
  apply reach_configureOfflineBuffer; try (unfold OfflineDataStore.is_u32; lia).
  apply reach_setOfflineSeq; [apply reach_new | cbn; lia].
Defined.

Lemma drain_is_peek_then_consume_witness :
  let d1 := snd (storePollResults (exampleDevice false) 0 5000 ["170"; "187"; "204"]%byte 0) in
  OfflineDataStore.get_data (fst (getOfflineResponses d1 [] 0 0 []))
  = OfflineDataStore.get_data (fst (peekOfflineResponses d1 [] 0 0 0 0 []))
  /\ offlineData (snd (getOfflineResponses d1 [] 0 0 []))
     = snd (OfflineDataStore.consume (offlineData d1)
              (OfflineDataStore.get_ret (fst (getOfflineResponses d1 [] 0 0 [])))).
Proof.
  cbv zeta.
  pose proof (drain_is_peek_then_consume
                (snd (storePollResults (exampleDevice false) 0 5000
                        ["170"; "187"; "204"]%byte 0)) [] 0 0 []) as Hx.
  cbv zeta in Hx.
  refine ((fun H => conj (proj1 (proj2 H)) (proj1 (proj2 (proj2 (proj2 (proj2 H))))))
            (proj2 (proj2 (Hx _ _)) eq_refl)).
  - apply reach_storePollResults;
      [|unfold OfflineDataStore.is_u64; lia | vm_compute; reflexivity].
    change (exampleDevice false)
      with (configureOfflineBuffer
              (setOfflineSeq (mk 0 (mkPolling 100000 0 0 0 [] [])
                                 ([] : list (Z * list byte))
                                 OfflineDataStore.default 0 false false) 7)
              4 3 1 1000).
    apply reach_configureOfflineBuffer; try (unfold OfflineDataStore.is_u32; lia).
    apply reach_setOfflineSeq; [apply reach_new | cbn; lia].
  - unfold OfflineDataStore.is_u32; lia.
Defined.

End DeviceOfflineExamples.
(** ** DeviceManager: the frozen device list and the state hash *)

Section DeviceManagerHash.

Import DeviceManager.

Lemma getDeviceListFrozen_loop_take {D} (l : list (option D)) : forall maxDevices n,
  0 <= n <= maxDevices -> maxDevices < 2 ^ 32 ->
  getDeviceListFrozen_loop l maxDevices n
  = take (Z.to_nat (maxDevices - n)) (omap id l).
Proof.
  induction l as [|p l IH]; intros maxDevices n Hn Hmax; cbn [getDeviceListFrozen_loop].
  - cbn [omap list_omap]. now destruct (Z.to_nat (maxDevices - n)).
  - destruct (Z.leb_spec maxDevices n).
    + replace (Z.to_nat (maxDevices - n)) with 0%nat by lia. reflexivity.
    + destruct p as [dev|]; cbn [omap list_omap id].
      * rewrite u32_small by lia. rewrite IH by lia.
        replace (Z.to_nat (maxDevices - n)) with (S (Z.to_nat (maxDevices - (n + 1))))
          by lia.
        reflexivity.
      * apply IH; lia.
Qed.

(** X23.  The frozen device list.  When the mutex is obtained,
    [getDeviceListFrozen] returns the first [maxDevices] non-null entries
    of the device list, in list order, so never more than [maxDevices];
    when the mutex is not obtained in time it returns no device at all. *)
Theorem getDeviceListFrozen_takes_first_devices {D : Type} (deviceList : list (option D))
    (maxDevices : Z) (Hmax : 0 <= maxDevices < 2 ^ 32) :
  getDeviceListFrozen true deviceList maxDevices
  = take (Z.to_nat maxDevices) (omap id deviceList)
  /\ Z.of_nat (length (getDeviceListFrozen true deviceList maxDevices)) <= maxDevices
  /\ getDeviceListFrozen false deviceList maxDevices = [].
Proof.
  unfold getDeviceListFrozen. cbn [negb].
  rewrite getDeviceListFrozen_loop_take by lia. rewrite Z.sub_0_r.
  split; [reflexivity|]. split; [|reflexivity].
  rewrite length_take. lia.
Qed.

Lemma getDeviceListFrozen_takes_first_devices_witness :
  getDeviceListFrozen true [Some 1; None; Some 2; Some 3] 2 = [1; 2].
Proof.
  apply (proj1 (getDeviceListFrozen_takes_first_devices [Some 1; None; Some 2; Some 3] 2
                  ltac:(lia))).
Defined.









End DeviceManagerHash.
